(** * The MCP meta-server: a shallow embedding of its runtime core

    The TypeScript sources are embedded function by function:
    - [JS]        the JavaScript values and built-ins the code relies on
                  (strings, [JSON.stringify], insertion-ordered [Map]s);
    - [SDK]       the [Tool] type of the MCP SDK;
    - [Dedup]     [ToolDeduplicationSystem] (deduplication.ts);
    - [Cache]     [CachingSystem] (caching.ts);
    - [Discovery] [MCPServerConfiguration] (discovery.ts);
    - [Meta]      [MCPMetaServer] (index.ts).

    [Claims] holds the notions the specification's statements use,
    [Scenarios] the concrete inputs the statements are tried on, and
    [Matching] the index-list view of the Jaro matching phase.  [Runs]
    holds sequences of cache operations, [Handler] the tool-call and
    tool-list handlers, [Calls] histories of calls on one tool and
    [Groups] the notions used about merged groups.  [Domain] delimits
    the inputs on which the embedding stands for the code's own
    values, [Decode] reads serialized text back, [Attempts] names what
    a provider did when asked and [Copies] the tools that several
    servers offer alike.  The modules named [...Facts] hold the
    proofs.

    Conventions.  JavaScript numbers are modelled by exact rationals ([Q]),
    counters and timestamps by integers or naturals.  Strings are sequences
    of 8-bit code units.  A JavaScript object or [Map] is an association
    list in its own enumeration order.  [Date.now()] is an explicit
    argument of every operation that reads the clock.  The code
    computes in binary64: where a statement depends on the value of a
    rational, it is stated with the bounds or the margin that rounding
    keeps, on the ranges of [Domain]. *)

From Stdlib Require Import String Ascii List Bool Arith ZArith QArith Lia.
From Stdlib Require Import Permutation Qminmax Sorted Lqa.
From Stdlib Require Import Numbers.DecimalString.
From Stdlib Require Numbers.DecimalZ Numbers.DecimalPos.
Import ListNotations.

Local Open Scope list_scope.
Local Open Scope string_scope.

(* ================================================================== *)
(** ** JavaScript values and built-ins *)
(* ================================================================== *)

Module JS.

(** The double-quote and backslash code units. *)
Definition dquote : ascii := "034"%char.
Definition backslash : ascii := "092"%char.

Definition str1 (c : ascii) : string := String c EmptyString.

(** [String.prototype.toLowerCase], on the ASCII range. *)
Definition lowerChar (c : ascii) : ascii :=
  let n := nat_of_ascii c in
  if (65 <=? n)%nat && (n <=? 90)%nat then ascii_of_nat (n + 32) else c.

Fixpoint toLowerCase (s : string) : string :=
  match s with
  | EmptyString => EmptyString
  | String c r => String (lowerChar c) (toLowerCase r)
  end.

(** [s.includes(sub)]: [sub] occurs somewhere in [s]. *)
Fixpoint includes (s sub : string) : bool :=
  prefix sub s ||
  match s with
  | EmptyString => false
  | String _ r => includes r sub
  end.

(** [s.indexOf(sub)], [None] standing for [-1]. *)
Fixpoint indexOf (s sub : string) : option nat :=
  if prefix sub s then Some 0%nat
  else match s with
       | EmptyString => None
       | String _ r => option_map S (indexOf r sub)
       end.

(** [parts.join(sep)]. *)
Fixpoint join (sep : string) (parts : list string) : string :=
  match parts with
  | [] => EmptyString
  | [p] => p
  | p :: rest => p ++ sep ++ join sep rest
  end.

(** Truthiness of a string: only the empty string is falsy. *)
Definition truthyStr (s : string) : bool :=
  match s with EmptyString => false | _ => true end.

(** JSON values.  Numbers are restricted to integers, whose decimal
    form is what [JSON.stringify] prints.  The fields of an object
    are listed in the object's own enumeration order. *)
Unset Elimination Schemes.
Inductive json : Type :=
| JNull
| JBool (b : bool)
| JNum (n : Z)
| JStr (s : string)
| JArr (items : list json)
| JObj (fields : list (string * json)).
Set Elimination Schemes.

Definition hexDigit (n : nat) : ascii :=
  nth n (list_ascii_of_string "0123456789abcdef") "0"%char.

(** The escape [QuoteJSONString] emits for one code unit. *)
Definition escapeChar (c : ascii) : string :=
  let n := nat_of_ascii c in
  if (n =? 34)%nat then String backslash (str1 dquote)
  else if (n =? 92)%nat then String backslash (str1 backslash)
  else if (n =? 8)%nat then String backslash "b"
  else if (n =? 12)%nat then String backslash "f"
  else if (n =? 10)%nat then String backslash "n"
  else if (n =? 13)%nat then String backslash "r"
  else if (n =? 9)%nat then String backslash "t"
  else if (n <? 32)%nat then
    String backslash
      ("u00" ++ String (hexDigit (n / 16)) (str1 (hexDigit (n mod 16))))
  else str1 c.

Fixpoint escapeString (s : string) : string :=
  match s with
  | EmptyString => EmptyString
  | String c r => escapeChar c ++ escapeString r
  end.

Definition quoteJSON (s : string) : string :=
  String dquote (escapeString s ++ str1 dquote).

Definition numberToString (n : Z) : string :=
  NilZero.string_of_int (Z.to_int n).

(** [JSON.stringify(v)] with no indent argument: no whitespace is
    inserted, and object members come out in enumeration order. *)
Fixpoint stringify (v : json) : string :=
  match v with
  | JNull => "null"
  | JBool b => if b then "true" else "false"
  | JNum n => numberToString n
  | JStr s => quoteJSON s
  | JArr items => "[" ++ join "," (map stringify items) ++ "]"
  | JObj fields =>
      "{" ++ join ","
               (map (fun '(k, x) => quoteJSON k ++ ":" ++ stringify x) fields)
          ++ "}"
  end.

(** [JSON.stringify] of a possibly [undefined] value, as it appears
    inside a template literal. *)
Definition stringifyArg (a : option json) : string :=
  match a with
  | None => "undefined"
  | Some v => stringify v
  end.

(** Truthiness of a JSON value. *)
Definition truthy (v : json) : bool :=
  match v with
  | JNull => false
  | JBool b => b
  | JNum n => negb (n =? 0)%Z
  | JStr s => truthyStr s
  | JArr _ | JObj _ => true
  end.

(** [typeof v === 'object'] (which also holds of [null]). *)
Definition isObjectType (v : json) : bool :=
  match v with
  | JNull | JArr _ | JObj _ => true
  | _ => false
  end.

(** Property read [v.k] on a JSON value; [None] is [undefined]. *)
Fixpoint assoc {A : Type} (k : string) (l : list (string * A)) : option A :=
  match l with
  | [] => None
  | (k', x) :: r => if String.eqb k k' then Some x else assoc k r
  end.

Definition getField (v : json) (k : string) : option json :=
  match v with
  | JObj fields => assoc k fields
  | _ => None
  end.

(** Strict equality [a === b] of two values read from distinct parsed
    documents: primitives compare by value, objects and arrays are
    distinct references. *)
Definition strictEq (a b : json) : bool :=
  match a, b with
  | JNull, JNull => true
  | JBool x, JBool y => Bool.eqb x y
  | JNum x, JNum y => (x =? y)%Z
  | JStr x, JStr y => String.eqb x y
  | _, _ => false
  end.

(** *** Insertion-ordered [Map<string, V>] *)

Definition Map (V : Type) : Type := list (string * V).

Definition mapGet {V} (m : Map V) (k : string) : option V := assoc k m.

Definition mapHas {V} (m : Map V) (k : string) : bool :=
  match mapGet m k with Some _ => true | None => false end.

(** [m.set(k, v)]: an existing key keeps its position. *)
Fixpoint mapSet {V} (m : Map V) (k : string) (v : V) : Map V :=
  match m with
  | [] => [(k, v)]
  | (k', x) :: r =>
      if String.eqb k k' then (k', v) :: r else (k', x) :: mapSet r k v
  end.

Fixpoint mapDelete {V} (m : Map V) (k : string) : Map V :=
  match m with
  | [] => []
  | (k', x) :: r =>
      if String.eqb k k' then r else (k', x) :: mapDelete r k
  end.

Definition mapSize {V} (m : Map V) : nat := length m.

End JS.

(* ================================================================== *)
(** ** The tool type of the MCP SDK *)
(* ================================================================== *)

Module SDK.

(** [Tool]: a name, an optional description and a JSON-Schema object. *)
Record Tool : Type := {
  name : string;
  description : option string;
  inputSchema : JS.json
}.

End SDK.

(* ================================================================== *)
(** ** deduplication.ts: [ToolDeduplicationSystem] *)
(* ================================================================== *)

Module Dedup.
Import JS SDK.
Local Open Scope Q_scope.

Inductive MergeStrategy : Type :=
| ByName | ByDescription | BySchema | Hybrid.

Record ToolSimilarity : Type := {
  score : Q;
  reason : string;
  mergeStrategy : MergeStrategy
}.

(** An element [{ serverId, tool }] of the lists the engine works on. *)
Record ServerTool : Type := {
  serverId : string;
  tool : Tool
}.

(** [MergedTool extends Tool]: [asTool] holds the inherited fields,
    [primaryServerId] is the field the source calls [serverId]. *)
Record MergedTool : Type := {
  asTool : Tool;
  originalTools : list ServerTool;
  confidence : Q;
  primaryServerId : string
}.

Record DeduplicationConfig : Type := {
  enabled : bool;
  similarityThreshold : Q;
  autoMerge : bool;
  nameWeight : Q;
  descriptionWeight : Q;
  schemaWeight : Q
}.

Definition defaultConfig : DeduplicationConfig := {|
  enabled := true;
  similarityThreshold := 8 # 10;
  autoMerge := true;
  nameWeight := 4 # 10;
  descriptionWeight := 35 # 100;
  schemaWeight := 25 # 100
|}.

(** Comparisons of numbers, as booleans. *)
Definition gtb (a b : Q) : bool := negb (Qle_bool a b).
Definition geb (a b : Q) : bool := Qle_bool b a.
Definition ltb (a b : Q) : bool := negb (Qle_bool b a).

Definition ofNat (n : nat) : Q := inject_Z (Z.of_nat n).

(** *** Jaro similarity *)

(** [a[i] = x] on an array, for an index inside it. *)
Fixpoint assign {A : Type} (l : list A) (i : nat) (x : A) : list A :=
  match l, i with
  | [], _ => []
  | _ :: r, O => x :: r
  | y :: r, S i' => y :: assign r i' x
  end.

Definition charAt (a : list ascii) (i : nat) : ascii := nth i a zero.

Record MatchState : Type := {
  s1Matches : list bool;
  s2Matches : list bool;
  matches : nat
}.

Definition matchWindow (len1 len2 : nat) : Z :=
  (Z.of_nat (Nat.max len1 len2) / 2 - 1)%Z.

(** The inner [for (j = start; j < end; j++)] loop of the matching
    phase: the first [j] of the window that is unmatched and carries
    the character [s1[i]]. *)
Definition findMatch (a1 a2 : list ascii) (w : Z) (m2 : list bool)
    (i : nat) : option nat :=
  let start := Z.to_nat (Z.max 0 (Z.of_nat i - w)) in
  let end_ := Z.to_nat (Z.min (Z.of_nat i + w + 1) (Z.of_nat (length a2))) in
  find (fun j =>
          negb (nth j m2 false
                || negb (Ascii.eqb (charAt a1 i) (charAt a2 j))))
       (seq start (end_ - start)).

Definition matchStep (a1 a2 : list ascii) (w : Z) (st : MatchState)
    (i : nat) : MatchState :=
  match findMatch a1 a2 w (s2Matches st) i with
  | Some j => {| s1Matches := assign (s1Matches st) i true;
                 s2Matches := assign (s2Matches st) j true;
                 matches := S (matches st) |}
  | None => st
  end.

(** The outer loop, over the indices [idx] of [s1]. *)
Definition matchLoop (a1 a2 : list ascii) (w : Z) (idx : list nat)
    (st : MatchState) : MatchState :=
  fold_left (matchStep a1 a2 w) idx st.

Definition findMatches (a1 a2 : list ascii) : MatchState :=
  matchLoop a1 a2 (matchWindow (length a1) (length a2))
    (seq 0 (length a1))
    {| s1Matches := repeat false (length a1);
       s2Matches := repeat false (length a2);
       matches := 0 |}.

(** [while (!s2Matches[k]) k++].  Reading past the end of the array
    gives [undefined], so the loop would never stop there: [None]
    after [fuel] steps stands for that. *)
Fixpoint skipUnmatched (fuel : nat) (m2 : list bool) (k : nat)
    : option nat :=
  match fuel with
  | O => None
  | S fuel' =>
      if nth k m2 false then Some k else skipUnmatched fuel' m2 (S k)
  end.

(** One turn of the transposition loop on the state [(k, transpositions)]. *)
Definition transpositionStep (a1 a2 : list ascii) (m1 m2 : list bool)
    (acc : option (nat * nat)) (i : nat) : option (nat * nat) :=
  match acc with
  | None => None
  | Some (k, t) =>
      if negb (nth i m1 false) then Some (k, t)
      else match skipUnmatched (S (length m2)) m2 k with
           | None => None
           | Some k' =>
               Some (S k',
                     if Ascii.eqb (charAt a1 i) (charAt a2 k') then t
                     else S t)
           end
  end.

Definition countTranspositions (a1 a2 : list ascii) (m1 m2 : list bool)
    : option nat :=
  option_map snd
    (fold_left (transpositionStep a1 a2 m1 m2) (seq 0 (length a1))
       (Some (0%nat, 0%nat))).

Definition jaroFormula (len1 len2 m t : nat) : Q :=
  (ofNat m / ofNat len1 + ofNat m / ofNat len2
   + (ofNat m - ofNat t / 2) / ofNat m) / 3.

(** [jaroSimilarity], [None] when the transposition loop does not
    terminate. *)
Definition jaroRun (s1 s2 : string) : option Q :=
  let a1 := list_ascii_of_string s1 in
  let a2 := list_ascii_of_string s2 in
  if (length a1 =? 0)%nat && (length a2 =? 0)%nat then Some 1
  else if (length a1 =? 0)%nat || (length a2 =? 0)%nat then Some 0
  else
    let st := findMatches a1 a2 in
    if (matches st =? 0)%nat then Some 0
    else option_map (jaroFormula (length a1) (length a2) (matches st))
           (countTranspositions a1 a2 (s1Matches st) (s2Matches st)).

(** [jaroSimilarity] as a number; the loop always terminates (lemma
    [jaroRun_terminates] below), so the second branch is never taken. *)
Definition jaroSimilarity (s1 s2 : string) : Q :=
  match jaroRun s1 s2 with
  | Some q => q
  | None => 0
  end.

Fixpoint commonPrefixLength (s1 s2 : string) : nat :=
  match s1, s2 with
  | String c1 r1, String c2 r2 =>
      if Ascii.eqb c1 c2 then S (commonPrefixLength r1 r2) else O
  | _, _ => O
  end.

Definition calculateStringSimilarity (str1 str2 : string) : Q :=
  if negb (truthyStr str1) || negb (truthyStr str2) then 0
  else if String.eqb str1 str2 then 1
  else
    let jaro := jaroSimilarity (toLowerCase str1) (toLowerCase str2) in
    let prefixLength :=
      Nat.min 4 (commonPrefixLength (toLowerCase str1) (toLowerCase str2)) in
    let winklerSimilarity :=
      jaro + ((1 # 10) * ofNat prefixLength * (1 - jaro)) in
    Qmin 1 winklerSimilarity.

(** *** Schema similarity *)

Record SchemaProperty : Type := {
  propName : string;
  propType : json;
  propRequired : bool
}.

(** [schema.required || []]; the field is an array when present. *)
Definition requiredOf (schema : json) : list json :=
  match getField schema "required" with
  | Some (JArr items) => items
  | _ => []
  end.

(** [Object.entries(schema.properties)]; the field is an object when
    present. *)
Definition propertyEntries (schema : json) : list (string * json) :=
  match getField schema "properties" with
  | Some (JObj fields) => fields
  | _ => []
  end.

Definition extractSchemaProperties (schema : json) : list SchemaProperty :=
  let required := requiredOf schema in
  map (fun '(name, prop) =>
         {| propName := name;
            propType := match getField prop "type" with
                        | Some t => if truthy t then t else JStr "unknown"
                        | None => JStr "unknown"
                        end;
            propRequired := existsb (strictEq (JStr name)) required |})
      (propertyEntries schema).

Definition calculateSchemaSimilarity (schema1 schema2 : json) : Q :=
  if negb (truthy schema1) || negb (truthy schema2) then 0
  else if String.eqb (stringify schema1) (stringify schema2) then 1
  else
    let props1 := extractSchemaProperties schema1 in
    let props2 := extractSchemaProperties schema2 in
    if (length props1 =? 0)%nat && (length props2 =? 0)%nat then 1
    else if (length props1 =? 0)%nat || (length props2 =? 0)%nat then 0
    else
      let commonProps :=
        filter (fun p1 =>
                  existsb (fun p2 =>
                             String.eqb (propName p1) (propName p2)
                             && strictEq (propType p1) (propType p2))
                          props2)
               props1 in
      let propSimilarity :=
        (2 * ofNat (length commonProps))
        / ofNat (length props1 + length props2) in
      let required1 := requiredOf schema1 in
      let required2 := requiredOf schema2 in
      let commonRequired :=
        filter (fun r => existsb (strictEq r) required2) required1 in
      let requiredSimilarity :=
        if (0 <? length required1 + length required2)%nat
        then (2 * ofNat (length commonRequired))
             / ofNat (length required1 + length required2)
        else 1 in
      propSimilarity * (7 # 10) + requiredSimilarity * (3 # 10).

Definition determineMergeStrategy (nameScore descScore schemaScore : Q)
    : MergeStrategy :=
  if gtb nameScore (9 # 10) && gtb schemaScore (8 # 10) then ByName
  else if gtb descScore (8 # 10) && gtb schemaScore (7 # 10)
  then ByDescription
  else if gtb schemaScore (9 # 10) then BySchema
  else Hybrid.

(** [description || ''] *)
Definition descOrEmpty (t : Tool) : string :=
  match description t with Some d => d | None => EmptyString end.

Section WithConfig.
Variable config : DeduplicationConfig.

Definition analyzeSimilarity (tool1 tool2 : Tool) : ToolSimilarity :=
  let nameScore := calculateStringSimilarity (name tool1) (name tool2) in
  let score1 := 0 + nameScore * nameWeight config in
  let reasons1 :=
    if gtb nameScore (8 # 10) then ["similar names"] else [] in
  let descScore :=
    calculateStringSimilarity (descOrEmpty tool1) (descOrEmpty tool2) in
  let score2 := score1 + descScore * descriptionWeight config in
  let reasons2 :=
    if gtb descScore (7 # 10)
    then (reasons1 ++ ["similar descriptions"])%list else reasons1 in
  let schemaScore :=
    calculateSchemaSimilarity (inputSchema tool1) (inputSchema tool2) in
  let score3 := score2 + schemaScore * schemaWeight config in
  let reasons3 :=
    if gtb schemaScore (8 # 10)
    then (reasons2 ++ ["similar schemas"])%list else reasons2 in
  {| score := score3;
     reason := if (0 <? length reasons3)%nat then join ", " reasons3
               else "no significant similarities";
     mergeStrategy :=
       determineMergeStrategy nameScore descScore schemaScore |}.

(** [description?.length || 0] *)
Definition descLength (t : Tool) : nat :=
  match description t with Some d => String.length d | None => O end.

(** [tools.reduce(...)] without an initial value; [None] is the
    [TypeError] raised on an empty array. *)
Definition selectBestTool (tools : list ServerTool) : option ServerTool :=
  match tools with
  | [] => None
  | first :: rest =>
      Some (fold_left
              (fun best current =>
                 if (descLength (tool best) <? descLength (tool current))%nat
                 then current else best)
              rest first)
  end.

(** [Array.prototype.sort(cmp)]: stable; [a] stays before [b] unless
    [cmp(a, b) > 0]. *)
Fixpoint sortInsert {A : Type} (cmp : A -> A -> Q) (x : A) (l : list A)
    : list A :=
  match l with
  | [] => [x]
  | y :: r => if gtb (cmp x y) 0 then y :: sortInsert cmp x r
              else x :: y :: r
  end.

Definition sortWith {A : Type} (cmp : A -> A -> Q) (l : list A) : list A :=
  fold_right (sortInsert cmp) [] l.

Definition generateMergedName (tools : list ServerTool) : string :=
  let names := map (fun t => name (tool t)) tools in
  let nameCount :=
    fold_left
      (fun (m : Map nat) n =>
         mapSet m n (match mapGet m n with Some c => c | None => O end + 1)%nat)
      names [] in
  match sortWith (fun a b => ofNat (snd b) - ofNat (snd a)) nameCount with
  | (mostCommonName, _) :: _ => mostCommonName
  | [] => EmptyString
  end.

Definition generateMergedDescription (tools : list ServerTool) : string :=
  let descriptions :=
    flat_map (fun t => match description (tool t) with
                       | Some d => if (0 <? String.length d)%nat then [d] else []
                       | None => []
                       end) tools in
  match descriptions with
  | [] => "Merged tool from multiple servers"
  | first :: rest =>
      fold_left
        (fun longest current =>
           if (String.length longest <? String.length current)%nat
           then current else longest)
        rest first
  end.

(** [l] with the index of each element. *)
Definition indexed {A : Type} (l : list A) : list (nat * A) :=
  combine (seq 0 (length l)) l.

Definition has (processed : list nat) (i : nat) : bool :=
  existsb (Nat.eqb i) processed.

(** One turn of the inner loop [for (j = i + 1; ...)] on the state
    [(similarGroup, similarities, processed)]. *)
Definition collectStep (ti : ServerTool)
    (acc : list ServerTool * list ToolSimilarity * list nat)
    (p : nat * ServerTool)
    : list ServerTool * list ToolSimilarity * list nat :=
  let '(similarGroup, similarities, processed) := acc in
  let '(j, tj) := p in
  if has processed j then (similarGroup, similarities, processed)
  else
    let similarity := analyzeSimilarity (tool ti) (tool tj) in
    if geb (score similarity) (similarityThreshold config)
    then ((similarGroup ++ [tj])%list,
          (similarities ++ [similarity])%list,
          j :: processed)
    else (similarGroup, similarities, processed).

(** The inner loop: collects into [similarGroup] the unprocessed later
    tools that score at least the threshold against [tools[i]]. *)
Definition collectSimilar (tools : list ServerTool) (i : nat)
    (ti : ServerTool) (processed : list nat)
    : list ServerTool * list ToolSimilarity * list nat :=
  fold_left (collectStep ti) (skipn (S i) (indexed tools))
            ([ti], [], processed).

Definition sumScores (l : list ToolSimilarity) : Q :=
  fold_left (fun sum s => sum + score s) l 0.

Definition singleTool (t : ServerTool) : MergedTool :=
  {| asTool := tool t;
     originalTools := [t];
     confidence := 1;
     primaryServerId := serverId t |}.

(** What one group contributes to [merged]. *)
Definition groupToMerged (ti : ServerTool) (similarGroup : list ServerTool)
    (similarities : list ToolSimilarity) : list MergedTool :=
  if (1 <? length similarGroup)%nat then
    match selectBestTool similarGroup with
    | None => []
    | Some bestTool =>
        let confidence :=
          if (0 <? length similarities)%nat
          then sumScores similarities / ofNat (length similarities)
          else 1 in
        [ {| asTool :=
               {| name := generateMergedName similarGroup;
                  description := Some (generateMergedDescription similarGroup);
                  inputSchema := inputSchema (tool bestTool) |};
             originalTools := similarGroup;
             confidence := confidence;
             primaryServerId := serverId bestTool |} ]
    end
  else [singleTool ti].

(** One turn of the grouping loop [for (i = 0; ...)] on the state
    [(merged, processed)]. *)
Definition mergeStep (tools : list ServerTool)
    (acc : list MergedTool * list nat) (p : nat * ServerTool)
    : list MergedTool * list nat :=
  let '(merged, processed) := acc in
  let '(i, ti) := p in
  if has processed i then (merged, processed)
  else
    let '(similarGroup, similarities, processed1) :=
      collectSimilar tools i ti processed in
    ((merged ++ groupToMerged ti similarGroup similarities)%list,
     i :: processed1).

(** The grouping loop shared, verbatim, by [mergeTools] and by
    [mergeToolsWithClustering] on each name group. *)
Definition mergeLoop (tools : list ServerTool) : list MergedTool :=
  fst (fold_left (mergeStep tools) (indexed tools) ([], [])).

(** One turn of the inner loop of [groupToolsByNameSimilarity] on the
    state [(group, processed)]. *)
Definition nameCollectStep (ti : ServerTool)
    (acc : list ServerTool * list nat) (p : nat * ServerTool)
    : list ServerTool * list nat :=
  let '(group, processed) := acc in
  let '(j, tj) := p in
  if has processed j then (group, processed)
  else
    let nameSimilarity :=
      calculateStringSimilarity (name (tool ti)) (name (tool tj)) in
    if gtb nameSimilarity (6 # 10)
    then ((group ++ [tj])%list, j :: processed)
    else (group, processed).

(** One turn of its outer loop on the state [(groups, processed)]. *)
Definition nameGroupStep (tools : list ServerTool)
    (acc : list (list ServerTool) * list nat) (p : nat * ServerTool)
    : list (list ServerTool) * list nat :=
  let '(groups, processed) := acc in
  let '(i, ti) := p in
  if has processed i then (groups, processed)
  else
    let '(group, processed1) :=
      fold_left (nameCollectStep ti) (skipn (S i) (indexed tools))
                ([ti], i :: processed) in
    ((groups ++ [group])%list, processed1).

Definition groupToolsByNameSimilarity (tools : list ServerTool)
    : list (list ServerTool) :=
  fst (fold_left (nameGroupStep tools) (indexed tools) ([], [])).

(** What one name group contributes to [merged]. *)
Definition clusterStep (merged : list MergedTool) (group : list ServerTool)
    : list MergedTool :=
  match group with
  | [only] => (merged ++ [singleTool only])%list
  | _ => (merged ++ mergeLoop group)%list
  end.

Definition mergeToolsWithClustering (tools : list ServerTool)
    : list MergedTool :=
  fold_left clusterStep (groupToolsByNameSimilarity tools) [].

Definition mergeTools (tools : list ServerTool) : list MergedTool :=
  if negb (enabled config) || (length tools =? 0)%nat then []
  else if (100 <? length tools)%nat then mergeToolsWithClustering tools
  else mergeLoop tools.

Record DedupStats : Type := {
  totalTools : nat;
  mergedGroups : nat;
  reductionPercentage : Q;
  avgConfidence : Q
}.

Definition getStats (tools : list ServerTool) : DedupStats :=
  let merged := mergeTools tools in
  let mergedGroups :=
    length (filter (fun t => (1 <? length (originalTools t))%nat) merged) in
  let avgConfidence :=
    if (0 <? length merged)%nat
    then fold_left (fun sum t => sum + confidence t) merged 0
         / ofNat (length merged)
    else 0 in
  {| totalTools := length tools;
     mergedGroups := mergedGroups;
     reductionPercentage :=
       if (0 <? length tools)%nat
       then ((ofNat (length tools) - ofNat (length merged))
             / ofNat (length tools)) * 100
       else 0;
     avgConfidence := avgConfidence |}.

End WithConfig.

(** [updateConfig(partial)]: the fields present in [partial] replace
    the stored ones. *)
Record PartialConfig : Type := {
  pEnabled : option bool;
  pSimilarityThreshold : option Q;
  pAutoMerge : option bool
}.

Definition orKeep {A : Type} (o : option A) (old : A) : A :=
  match o with Some x => x | None => old end.

Definition updateConfig (config : DeduplicationConfig) (p : PartialConfig)
    : DeduplicationConfig :=
  {| enabled := orKeep (pEnabled p) (enabled config);
     similarityThreshold :=
       orKeep (pSimilarityThreshold p) (similarityThreshold config);
     autoMerge := orKeep (pAutoMerge p) (autoMerge config);
     nameWeight := nameWeight config;
     descriptionWeight := descriptionWeight config;
     schemaWeight := schemaWeight config |}.

End Dedup.

(* ================================================================== *)
(** ** caching.ts: [CachingSystem] *)
(* ================================================================== *)

Module Cache.
Import JS.
Local Open Scope Q_scope.

Record CacheEntry : Type := {
  data : json;
  expiry : Q;
  hitCount : nat;
  lastAccess : Z;
  toolType : string
}.

Record CacheStats : Type := {
  size : nat;
  hitRate : Q;
  statTotalRequests : nat;
  statTotalHits : nat;
  avgHitCount : Q;
  oldestEntry : option Z;
  newestEntry : option Z;
  recommendations : list string
}.

Record CachingSystem : Type := {
  cache : Map CacheEntry;
  defaultTTL : Q;
  maxSize : nat;
  totalRequests : nat;
  totalHits : nat;
  toolTypeTTL : Map Q
}.

(** The field initialisers of the class. *)
Definition create : CachingSystem := {|
  cache := [];
  defaultTTL := 300000;
  maxSize := 1000;
  totalRequests := 0;
  totalHits := 0;
  toolTypeTTL := [ ("filesystem", 60000);
                   ("database", 180000);
                   ("network", 120000);
                   ("computation", 600000);
                   ("static", 3600000) ]
|}.

Definition withCache (c : CachingSystem) (m : Map CacheEntry)
    : CachingSystem :=
  {| cache := m; defaultTTL := defaultTTL c; maxSize := maxSize c;
     totalRequests := totalRequests c; totalHits := totalHits c;
     toolTypeTTL := toolTypeTTL c |}.

Definition truthyNum (q : Q) : bool := negb (Qeq_bool q 0).

(** [get(key)] with [Date.now() = now]: the returned value and the
    updated system. *)
Definition get (c : CachingSystem) (key : string) (now : Z)
    : option json * CachingSystem :=
  let requests := S (totalRequests c) in
  match mapGet (cache c) key with
  | Some entry =>
      if Dedup.gtb (expiry entry) (inject_Z now) then
        (Some (data entry),
         {| cache := mapSet (cache c) key
                       {| data := data entry;
                          expiry := expiry entry;
                          hitCount := S (hitCount entry);
                          lastAccess := now;
                          toolType := toolType entry |};
            defaultTTL := defaultTTL c; maxSize := maxSize c;
            totalRequests := requests;
            totalHits := S (totalHits c);
            toolTypeTTL := toolTypeTTL c |})
      else
        (None,
         {| cache := mapDelete (cache c) key;
            defaultTTL := defaultTTL c; maxSize := maxSize c;
            totalRequests := requests;
            totalHits := totalHits c;
            toolTypeTTL := toolTypeTTL c |})
  | None =>
      (None,
       {| cache := cache c;
          defaultTTL := defaultTTL c; maxSize := maxSize c;
          totalRequests := requests;
          totalHits := totalHits c;
          toolTypeTTL := toolTypeTTL c |})
  end.

Definition getTTLForToolType (c : CachingSystem) (toolType : string) : Q :=
  match mapGet (toolTypeTTL c) toolType with
  | Some ttl => if truthyNum ttl then ttl else defaultTTL c
  | None => defaultTTL c
  end.

Definition shouldCache (toolName : string) (params : json) : bool :=
  if includes toolName "random" || includes toolName "uuid" then false
  else if includes toolName "current_time" || includes toolName "now"
  then false
  else if truthy params && isObjectType params
          && (let paramStr := toLowerCase (stringify params) in
              includes paramStr "timestamp" || includes paramStr "current")
  then false
  else true.

(** [evictLeastRecentlyUsed()] with [Date.now() = now]. *)
Definition evictLeastRecentlyUsed (c : CachingSystem) (now : Z)
    : CachingSystem :=
  let '(oldestKey, _) :=
    fold_left
      (fun '(oldestKey, oldestTime) '(key, entry) =>
         if (lastAccess entry <? oldestTime)%Z
         then (Some key, lastAccess entry)
         else (oldestKey, oldestTime))
      (cache c)
      (@None string, now) in
  match oldestKey with
  | Some key => if truthyStr key then withCache c (mapDelete (cache c) key)
                else c
  | None => c
  end.

(** [set(key, data, customTTL, toolType)] with [Date.now() = now]. *)
Definition set (c : CachingSystem) (key : string) (data : json)
    (customTTL : option Q) (toolType : string) (now : Z) : CachingSystem :=
  if negb (shouldCache key data) then c
  else
    let ttl := match customTTL with
               | Some t => if truthyNum t then t
                           else getTTLForToolType c toolType
               | None => getTTLForToolType c toolType
               end in
    let c1 := if (maxSize c <=? mapSize (cache c))%nat
              then evictLeastRecentlyUsed c now else c in
    withCache c1
      (mapSet (cache c1) key
         {| data := data;
            expiry := inject_Z now + ttl;
            hitCount := 0;
            lastAccess := now;
            toolType := toolType |}).

Definition adjustTTL (c : CachingSystem) (toolType : string) (hitRate : Q)
    : CachingSystem :=
  let currentTTL := getTTLForToolType c toolType in
  let newTTL :=
    if Dedup.gtb hitRate (7 # 10) then Qmin (currentTTL * (12 # 10)) 3600000
    else if Dedup.ltb hitRate (2 # 10)
    then Qmax (currentTTL * (8 # 10)) 60000
    else currentTTL in
  if negb (Qeq_bool newTTL currentTTL) then
    {| cache := cache c; defaultTTL := defaultTTL c; maxSize := maxSize c;
       totalRequests := totalRequests c; totalHits := totalHits c;
       toolTypeTTL := mapSet (toolTypeTTL c) toolType newTTL |}
  else c.

Record ToolTypeStats : Type := {
  count : nat;
  typeAvgHitCount : Q;
  typeHitRate : Q
}.

(** [getToolTypeMetrics()]: one record per tool type present in the
    cache, in order of first appearance. *)
Definition getToolTypeMetrics (c : CachingSystem) : Map ToolTypeStats :=
  let toolTypeStats :=
    fold_left
      (fun (m : Map ToolTypeStats) '(_, entry) =>
         let m1 := if mapHas m (toolType entry) then m
                   else mapSet m (toolType entry)
                          {| count := 0; typeAvgHitCount := 0;
                             typeHitRate := 0 |} in
         match mapGet m1 (toolType entry) with
         | Some stats =>
             mapSet m1 (toolType entry)
               {| count := S (count stats);
                  typeAvgHitCount :=
                    typeAvgHitCount stats + Dedup.ofNat (hitCount entry);
                  typeHitRate := typeHitRate stats |}
         | None => m1
         end)
      (cache c) [] in
  map (fun '(toolType, stats) =>
         let avg := typeAvgHitCount stats / Dedup.ofNat (count stats) in
         (toolType,
          {| count := count stats;
             typeAvgHitCount := avg;
             typeHitRate :=
               if Dedup.gtb avg 0
               then avg / Dedup.ofNat (totalRequests c) else 0 |}))
      toolTypeStats.

Definition updateToolTypeMetricsAndAdjustTTLs (c : CachingSystem)
    : CachingSystem :=
  fold_left
    (fun c' '(toolType, metrics) => adjustTTL c' toolType (typeHitRate metrics))
    (getToolTypeMetrics c) c.

Definition generateOptimizationRecommendations (c : CachingSystem)
    (hitRate : Q) (validEntries : nat) : list string :=
  ((if Dedup.ltb hitRate (3 # 10) then
      ["Low cache hit rate detected. Consider increasing TTL for frequently accessed tools."]
    else [])
   ++ (if Dedup.gtb (Dedup.ofNat validEntries / Dedup.ofNat (maxSize c)) (9 # 10) then
         ["Cache is near capacity. Consider increasing max size or implementing more aggressive eviction."]
       else [])
   ++ (if Dedup.gtb hitRate (8 # 10) then
         ["Excellent cache performance! Consider expanding cache size to store more entries."]
       else [])
   ++ (if (totalRequests c <? 10)%nat then
         ["Insufficient data for meaningful cache analysis. Continue using the system to gather metrics."]
       else []))%list.

Definition minZ (l : list Z) : option Z :=
  match l with
  | [] => None
  | x :: r => Some (fold_left Z.min r x)
  end.

Definition maxZ (l : list Z) : option Z :=
  match l with
  | [] => None
  | x :: r => Some (fold_left Z.max r x)
  end.

(** [getStats()] with [Date.now() = now]: the statistics, and the
    system after the adaptive-TTL pass the call triggers. *)
Definition getStats (c : CachingSystem) (now : Z)
    : CacheStats * CachingSystem :=
  let entries := map snd (cache c) in
  let validEntries :=
    filter (fun entry => Dedup.gtb (expiry entry) (inject_Z now)) entries in
  let hitRate :=
    if (0 <? totalRequests c)%nat
    then Dedup.ofNat (totalHits c) / Dedup.ofNat (totalRequests c) else 0 in
  let avgHitCount :=
    if (0 <? length validEntries)%nat
    then fold_left (fun sum entry => sum + Dedup.ofNat (hitCount entry))
           validEntries 0
         / Dedup.ofNat (length validEntries)
    else 0 in
  let accessTimes := map lastAccess validEntries in
  let recommendations :=
    generateOptimizationRecommendations c hitRate (length validEntries) in
  let c1 := updateToolTypeMetricsAndAdjustTTLs c in
  ({| size := mapSize (cache c1);
      hitRate := hitRate;
      statTotalRequests := totalRequests c1;
      statTotalHits := totalHits c1;
      avgHitCount := avgHitCount;
      oldestEntry := minZ accessTimes;
      newestEntry := maxZ accessTimes;
      recommendations := recommendations |},
   c1).

Definition clear (c : CachingSystem) : CachingSystem :=
  {| cache := []; defaultTTL := defaultTTL c; maxSize := maxSize c;
     totalRequests := 0; totalHits := 0; toolTypeTTL := toolTypeTTL c |}.

End Cache.

(* ================================================================== *)
(** ** discovery.ts: provider configurations *)
(* ================================================================== *)

Module Discovery.
Import JS.

Record MCPServerConfiguration : Type := {
  id : string;
  name : string;
  command : list string;
  description : option string
}.

Definition isString (o : option json) : bool :=
  match o with Some (JStr _) => true | _ => false end.

Definition isArray (o : option json) : bool :=
  match o with Some (JArr _) => true | _ => false end.

(** [isValidConfig(config)] on a parsed JSON document. *)
Definition isValidConfig (config : json) : bool :=
  truthy config
  && isString (getField config "id")
  && isString (getField config "name")
  && isArray (getField config "command").

(** The typed view of a document whose [command] holds strings. *)
Definition commandStrings (items : list json) : list string :=
  flat_map (fun x => match x with JStr s => [s] | _ => [] end) items.

Definition asConfiguration (config : json) : option MCPServerConfiguration :=
  match getField config "id", getField config "name",
        getField config "command" with
  | Some (JStr i), Some (JStr n), Some (JArr items) =>
      Some {| id := i; name := n; command := commandStrings items;
              description := match getField config "description" with
                             | Some (JStr d) => Some d
                             | _ => None
                             end |}
  | _, _, _ => None
  end.

End Discovery.

(* ================================================================== *)
(** ** index.ts: [MCPMetaServer] *)
(* ================================================================== *)

Module Meta.
Import JS SDK.
Local Open Scope Q_scope.

Record PerformanceMetrics : Type := {
  successRate : Q;
  avgResponseTime : Q;
  lastUsed : Z;
  totalCalls : nat;
  failureCount : nat
}.

Inductive Status : Type := Connected | Disconnected | Connecting.

Definition isConnected (s : Status) : bool :=
  match s with Connected => true | _ => false end.

(** [ServerInfo]; [client] records whether a client object is held
    ([false] for the [null] of a failed connection). *)
Record ServerInfo : Type := {
  config : Discovery.MCPServerConfiguration;
  client : bool;
  tools : list Tool;
  metrics : PerformanceMetrics;
  status : Status
}.

(** A child process start requested from the stdio transport. *)
Record Spawn : Type := {
  spawnCommand : string;
  spawnArgs : list string
}.

(** A [tools/call] request sent to a provider. *)
Record Request : Type := {
  reqServer : string;
  reqTool : string;
  reqArgs : option json
}.

(** The fields of the class, followed by two histories kept for the
    statements below: the children started and the requests sent. *)
Record MCPMetaServer : Type := {
  servers : Map ServerInfo;
  cache : Cache.CachingSystem;
  deduplication : Dedup.DeduplicationConfig;
  allTools : Map (Tool * string);
  mergedTools : Map Dedup.MergedTool;
  performanceMetrics : Map (Map PerformanceMetrics);
  spawned : list Spawn;
  requests : list Request
}.

Definition create : MCPMetaServer := {|
  servers := [];
  cache := Cache.create;
  deduplication := Dedup.defaultConfig;
  allTools := [];
  mergedTools := [];
  performanceMetrics := [];
  spawned := [];
  requests := []
|}.

(** A thrown [Error] carries its message. *)
Inductive Outcome (A : Type) : Type :=
| Ok (value : A)
| Err (message : string).
Arguments Ok {A} _.
Arguments Err {A} _.

Definition freshMetrics (now : Z) : PerformanceMetrics :=
  {| successRate := 1; avgResponseTime := 0; lastUsed := now;
     totalCalls := 0; failureCount := 0 |}.

Definition initializeServerMetrics (s : MCPMetaServer) (serverId : string)
    (tools : list Tool) (now : Z) : MCPMetaServer :=
  let serverMetrics :=
    fold_left (fun (m : Map PerformanceMetrics) t =>
                 mapSet m (SDK.name t) (freshMetrics now))
              tools [] in
  {| servers := servers s; cache := cache s;
     deduplication := deduplication s; allTools := allTools s;
     mergedTools := mergedTools s;
     performanceMetrics := mapSet (performanceMetrics s) serverId serverMetrics;
     spawned := spawned s; requests := requests s |}.

Definition updateMetrics (s : MCPMetaServer) (serverId toolName : string)
    (success : bool) (responseTime : Z) (now : Z) : MCPMetaServer :=
  match mapGet (performanceMetrics s) serverId with
  | None => s
  | Some serverMetrics =>
      match mapGet serverMetrics toolName with
      | None => s
      | Some toolMetrics =>
          let totalCalls' := S (totalCalls toolMetrics) in
          let failureCount' :=
            if negb success then S (failureCount toolMetrics)
            else failureCount toolMetrics in
          let updated :=
            {| successRate :=
                 (Dedup.ofNat totalCalls' - Dedup.ofNat failureCount')
                 / Dedup.ofNat totalCalls';
               avgResponseTime :=
                 (avgResponseTime toolMetrics
                  * (Dedup.ofNat totalCalls' - 1) + inject_Z responseTime)
                 / Dedup.ofNat totalCalls';
               lastUsed := now;
               totalCalls := totalCalls';
               failureCount := failureCount' |} in
          {| servers := servers s; cache := cache s;
             deduplication := deduplication s; allTools := allTools s;
             mergedTools := mergedTools s;
             performanceMetrics :=
               mapSet (performanceMetrics s) serverId
                 (mapSet serverMetrics toolName updated);
             spawned := spawned s; requests := requests s |}
      end
  end.

Definition calculateRecencyScore (lastUsed now : Z) : Q :=
  let hoursSinceUsed := inject_Z (now - lastUsed) / inject_Z (1000 * 60 * 60) in
  if Dedup.ltb hoursSinceUsed 1 then 1
  else if Dedup.ltb hoursSinceUsed 24 then 8 # 10
  else if Dedup.ltb hoursSinceUsed 168 then 6 # 10
  else 4 # 10.

Definition calculateServerScore (s : MCPMetaServer)
    (serverId toolName : string) (now : Z) : Q :=
  let toolMetrics :=
    match mapGet (performanceMetrics s) serverId with
    | Some serverMetrics => mapGet serverMetrics toolName
    | None => None
    end in
  match toolMetrics with
  | None => 5 # 10
  | Some toolMetrics =>
      if (totalCalls toolMetrics =? 0)%nat then 5 # 10
      else
        let successScore := successRate toolMetrics in
        let responseScore :=
          Qmax 0 (1 - avgResponseTime toolMetrics / 10000) in
        let recencyScore :=
          calculateRecencyScore (lastUsed toolMetrics) now in
        successScore * (5 # 10) + responseScore * (3 # 10)
        + recencyScore * (2 # 10)
  end.

Definition determineToolType (toolName : string) : string :=
  let name := toLowerCase toolName in
  if includes name "file" || includes name "read" || includes name "write"
  then "filesystem"
  else if includes name "db" || includes name "sql" || includes name "query"
  then "database"
  else if includes name "http" || includes name "api"
          || includes name "request"
  then "network"
  else if includes name "compute" || includes name "calculate"
          || includes name "process"
  then "computation"
  else if includes name "static" || includes name "const"
          || includes name "reference"
  then "static"
  else "default".

Definition withServers (s : MCPMetaServer) (m : Map ServerInfo)
    : MCPMetaServer :=
  {| servers := m; cache := cache s; deduplication := deduplication s;
     allTools := allTools s; mergedTools := mergedTools s;
     performanceMetrics := performanceMetrics s;
     spawned := spawned s; requests := requests s |}.

Definition withCache (s : MCPMetaServer) (c : Cache.CachingSystem)
    : MCPMetaServer :=
  {| servers := servers s; cache := c; deduplication := deduplication s;
     allTools := allTools s; mergedTools := mergedTools s;
     performanceMetrics := performanceMetrics s;
     spawned := spawned s; requests := requests s |}.

Definition logSpawn (s : MCPMetaServer) (p : Spawn) : MCPMetaServer :=
  {| servers := servers s; cache := cache s;
     deduplication := deduplication s; allTools := allTools s;
     mergedTools := mergedTools s;
     performanceMetrics := performanceMetrics s;
     spawned := (spawned s ++ [p])%list; requests := requests s |}.

Definition logRequest (s : MCPMetaServer) (r : Request) : MCPMetaServer :=
  {| servers := servers s; cache := cache s;
     deduplication := deduplication s; allTools := allTools s;
     mergedTools := mergedTools s;
     performanceMetrics := performanceMetrics s;
     spawned := spawned s; requests := (requests s ++ [r])%list |}.

Definition cacheKey (serverId toolName : string) (args : option json)
    : string :=
  serverId ++ ":" ++ toolName ++ ":" ++ stringifyArg args.

Section World.
(** The world outside the process.  [childSession command args] is
    what connecting to the child started with that command line and
    listing its tools yields ([None]: the handshake or the listing
    fails).  [provider serverId toolName args now] is the provider's
    answer to a [tools/call] sent at time [now], or the message of
    the error it raises, together with the time the exchange takes. *)
Variable childSession : string -> list string -> option (list Tool).
Variable provider :
  string -> string -> option json -> Z -> (json + string) * Z.

Definition failedInfo (config : Discovery.MCPServerConfiguration)
    (now : Z) : ServerInfo :=
  {| config := config; client := false; tools := [];
     metrics := {| successRate := 0; avgResponseTime := 0;
                   lastUsed := now; totalCalls := 0;
                   failureCount := 1 |};
     status := Disconnected |}.

(** [connectToServer(config)].  The transport starts the child
    [command] with [args]; with an empty [command] array there is no
    executable to start and the connection attempt throws. *)
Definition connectToServer (s : MCPMetaServer)
    (config : Discovery.MCPServerConfiguration) (now : Z)
    : MCPMetaServer :=
  if mapHas (servers s) (Discovery.id config) then s
  else
    match Discovery.command config with
    | [] =>
        withServers s
          (mapSet (servers s) (Discovery.id config) (failedInfo config now))
    | command :: args =>
        let s1 := logSpawn s {| spawnCommand := command;
                                spawnArgs := args |} in
        match childSession command args with
        | Some toolList =>
            let serverInfo :=
              {| config := config; client := true; tools := toolList;
                 metrics := freshMetrics now; status := Connected |} in
            initializeServerMetrics
              (withServers s1
                 (mapSet (servers s1) (Discovery.id config) serverInfo))
              (Discovery.id config) toolList now
        | None =>
            withServers s1
              (mapSet (servers s1) (Discovery.id config)
                 (failedInfo config now))
        end
    end.

Definition serverConnected (s : MCPMetaServer) (serverId : string)
    : bool :=
  match mapGet (servers s) serverId with
  | Some serverInfo => isConnected (status serverInfo)
  | None => false
  end.

(** [executeToolCall(serverId, toolName, args)] entered at time
    [now]: the result or the error thrown, the server afterwards,
    and the time at which the call returns. *)
Definition executeToolCall (s : MCPMetaServer)
    (serverId toolName : string) (args : option json) (now : Z)
    : Outcome json * MCPMetaServer * Z :=
  if negb (serverConnected s serverId) then
    (Err ("Server " ++ serverId ++ " is not connected"), s, now)
  else
    let key := cacheKey serverId toolName args in
    let '(cachedResult, c1) := Cache.get (cache s) key now in
    let s1 := withCache s c1 in
    match match cachedResult with
          | Some v => if truthy v then Some v else None
          | None => None
          end with
    | Some v => (Ok v, s1, now)
    | None =>
        let s2 := logRequest s1 {| reqServer := serverId;
                                   reqTool := toolName;
                                   reqArgs := args |} in
        let '(answer, responseTime) :=
          provider serverId toolName args now in
        let now' := (now + responseTime)%Z in
        match answer with
        | inl result =>
            let s3 :=
              updateMetrics s2 serverId toolName true responseTime now' in
            (Ok result,
             withCache s3
               (Cache.set (cache s3) key result None
                  (determineToolType toolName) now'),
             now')
        | inr message =>
            (Err message,
             updateMetrics s2 serverId toolName false responseTime now',
             now')
        end
    end.

Record Candidate : Type := {
  candServer : string;
  candTool : string;
  candScore : Q
}.

(** [sortedServers] of [handleMergedToolCall]: every member of the
    merged tool with its score, best first. *)
Definition sortedServers (s : MCPMetaServer) (mergedTool : Dedup.MergedTool)
    (now : Z) : list Candidate :=
  Dedup.sortWith (fun a b => candScore b - candScore a)
    (map (fun o =>
            {| candServer := Dedup.serverId o;
               candTool := SDK.name (Dedup.tool o);
               candScore :=
                 calculateServerScore s (Dedup.serverId o)
                   (SDK.name (Dedup.tool o)) now |})
         (Dedup.originalTools mergedTool)).

(** The loop [for (const { serverId, toolName } of sortedServers)]. *)
Fixpoint tryServers (s : MCPMetaServer) (candidates : list Candidate)
    (args : option json) (now : Z) (lastError : option string)
    : Outcome json * MCPMetaServer * Z + option string * MCPMetaServer * Z :=
  match candidates with
  | [] => inr (lastError, s, now)
  | c :: rest =>
      if negb (serverConnected s (candServer c)) then
        tryServers s rest args now lastError
      else
        match executeToolCall s (candServer c) (candTool c) args now with
        | (Ok v, s1, now1) => inl (Ok v, s1, now1)
        | (Err message, s1, now1) =>
            tryServers s1 rest args now1 (Some message)
        end
  end.

Definition handleMergedToolCall (s : MCPMetaServer) (toolName : string)
    (args : option json) (now : Z) : Outcome json * MCPMetaServer * Z :=
  match mapGet (mergedTools s) toolName with
  | None => (Err ("Merged tool " ++ toolName ++ " not found"), s, now)
  | Some mergedTool =>
      match tryServers s (sortedServers s mergedTool now) args now None with
      | inl r => r
      | inr (lastError, s1, now1) =>
          (Err ("All servers failed for merged tool " ++ str1 dquote
                ++ toolName ++ str1 dquote ++ ". Last error: "
                ++ match lastError with
                   | Some m => m
                   | None => "undefined"
                   end),
           s1, now1)
      end
  end.

(** [parseToolIdentifier(toolName)]: the parts around the first
    colon. *)
Definition parseToolIdentifier (toolName : string)
    : Outcome (string * string) :=
  match indexOf toolName ":" with
  | None =>
      Err ("Invalid tool name format: " ++ toolName
           ++ ". Expected format: serverId:toolName")
  | Some colonIndex =>
      Ok (substring 0 colonIndex toolName,
          substring (S colonIndex)
            (String.length toolName - S colonIndex) toolName)
  end.

Definition delegateToolCall (s : MCPMetaServer) (toolName : string)
    (args : option json) (now : Z) : Outcome json * MCPMetaServer * Z :=
  if Dedup.enabled (deduplication s) && mapHas (mergedTools s) toolName
  then handleMergedToolCall s toolName args now
  else
    match parseToolIdentifier toolName with
    | Err m => (Err m, s, now)
    | Ok (serverId, actualToolName) =>
        executeToolCall s serverId actualToolName args now
    end.

End World.

(** The [{ serverId, tool }] list of the tools of connected servers. *)
Definition connectedServerTools (s : MCPMetaServer)
    : list Dedup.ServerTool :=
  flat_map
    (fun '(serverId, serverInfo) =>
       if isConnected (status serverInfo)
       then map (fun t => {| Dedup.serverId := serverId; Dedup.tool := t |})
                (tools serverInfo)
       else [])
    (servers s).

Definition refreshToolsList (s : MCPMetaServer) : MCPMetaServer :=
  let allServerTools := connectedServerTools s in
  let allTools' :=
    fold_left
      (fun (m : Map (Tool * string)) o =>
         let namespaced :=
           Dedup.serverId o ++ ":" ++ SDK.name (Dedup.tool o) in
         mapSet m namespaced
           ({| SDK.name := namespaced;
               SDK.description := SDK.description (Dedup.tool o);
               SDK.inputSchema := SDK.inputSchema (Dedup.tool o) |},
            Dedup.serverId o))
      allServerTools [] in
  let mergedTools' :=
    if Dedup.enabled (deduplication s) then
      fold_left
        (fun (m : Map Dedup.MergedTool) mergedTool =>
           mapSet m (SDK.name (Dedup.asTool mergedTool)) mergedTool)
        (Dedup.mergeTools (deduplication s) allServerTools) []
    else [] in
  {| servers := servers s; cache := cache s;
     deduplication := deduplication s;
     allTools := allTools'; mergedTools := mergedTools';
     performanceMetrics := performanceMetrics s;
     spawned := spawned s; requests := requests s |}.

(** The arguments of [configure_deduplication] after the [typeof]
    tests: a field is [None] when absent or of the wrong type. *)
Record ConfigureArgs : Type := {
  argEnabled : option bool;
  argSimilarityThreshold : option Q;
  argAutoMerge : option bool;
  argGetStats : bool
}.

Record ToolCounts : Type := {
  originalToolCount : nat;
  mergedToolCount : nat;
  reduction : Q
}.

Record ConfigureResult : Type := {
  resConfig : Dedup.DeduplicationConfig;
  resStats : option Dedup.DedupStats;
  resToolCounts : option ToolCounts
}.

Definition isSome {A : Type} (o : option A) : bool :=
  match o with Some _ => true | None => false end.

Definition handleConfigureDeduplication (s : MCPMetaServer)
    (args : ConfigureArgs) : ConfigureResult * MCPMetaServer :=
  let anyUpdate :=
    isSome (argEnabled args) || isSome (argSimilarityThreshold args)
    || isSome (argAutoMerge args) in
  let s1 :=
    if anyUpdate then
      let s' :=
        {| servers := servers s; cache := cache s;
           deduplication :=
             Dedup.updateConfig (deduplication s)
               {| Dedup.pEnabled := argEnabled args;
                  Dedup.pSimilarityThreshold := argSimilarityThreshold args;
                  Dedup.pAutoMerge := argAutoMerge args |};
           allTools := allTools s; mergedTools := mergedTools s;
           performanceMetrics := performanceMetrics s;
           spawned := spawned s; requests := requests s |} in
      if isSome (argEnabled args) then refreshToolsList s' else s'
    else s in
  ({| resConfig := deduplication s1;
      resStats :=
        if argGetStats args
        then Some (Dedup.getStats (deduplication s1) (connectedServerTools s1))
        else None;
      resToolCounts :=
        if argGetStats args
        then Some {| originalToolCount := mapSize (allTools s1);
                     mergedToolCount := mapSize (mergedTools s1);
                     reduction :=
                       if (0 <? mapSize (allTools s1))%nat
                       then ((Dedup.ofNat (mapSize (allTools s1))
                              - Dedup.ofNat (mapSize (mergedTools s1)))
                             / Dedup.ofNat (mapSize (allTools s1))) * 100
                       else 0 |}
        else None |},
   s1).

End Meta.

(* ================================================================== *)
(** ** Properties stated by the specification, and concrete scenarios *)
(* ================================================================== *)

Module Claims.
Import JS SDK.
Local Open Scope Q_scope.

(** The bypass rule as the specification words it: on the tool's name
    and on the JSON of the call's arguments. *)
Definition specBypass (toolName : string) (args : json) : bool :=
  includes toolName "random" || includes toolName "uuid"
  || includes toolName "current_time" || includes toolName "now"
  || (let s := toLowerCase (stringify args) in
      includes s "timestamp" || includes s "current").

(** The per-type request count the specification asks for: the number
    of [get]s served from entries of that type, which is the sum of
    their hit counts while no entry of the type has been removed. *)
Definition specTypeRequests (c : Cache.CachingSystem) (toolType : string)
    : nat :=
  fold_left
    (fun n '(_, e) =>
       if String.eqb (Cache.toolType e) toolType
       then (n + Cache.hitCount e)%nat else n)
    (Cache.cache c) 0%nat.




(** The test by which the name grouping takes the indexed tool [p]
    into the group opened by [ti]. *)
Definition nameChosen (ti : Dedup.ServerTool) (processed : list nat)
    (p : nat * Dedup.ServerTool) : bool :=
  negb (Dedup.has processed (fst p))
  && Dedup.gtb (Dedup.calculateStringSimilarity
                  (SDK.name (Dedup.tool ti)) (SDK.name (Dedup.tool (snd p))))
               (6 # 10).

(** Equality of JSON values: arrays agree element by element, objects
    have the same members up to their order. *)
Unset Elimination Schemes.
Inductive jsonEquiv : json -> json -> Prop :=
| EquivNull : jsonEquiv JNull JNull
| EquivBool b : jsonEquiv (JBool b) (JBool b)
| EquivNum n : jsonEquiv (JNum n) (JNum n)
| EquivStr s : jsonEquiv (JStr s) (JStr s)
| EquivArr l1 l2 :
    Forall2 jsonEquiv l1 l2 -> jsonEquiv (JArr l1) (JArr l2)
| EquivObj f1 f1' f2 :
    Permutation f1 f1' ->
    Forall2 (fun m1 m2 => fst m1 = fst m2 /\ jsonEquiv (snd m1) (snd m2))
            f1' f2 ->
    jsonEquiv (JObj f1) (JObj f2).
Set Elimination Schemes.

(** No object of the value has two members with the same key. *)
Fixpoint uniqueKeys (v : json) : Prop :=
  match v with
  | JArr items => fold_right (fun x P => uniqueKeys x /\ P) True items
  | JObj fields =>
      NoDup (map fst fields)
      /\ fold_right (fun m P => uniqueKeys (snd m) /\ P) True fields
  | _ => True
  end.

(** The two values list their keys in the same order at every level. *)
Fixpoint sameKeyOrder (a b : json) : Prop :=
  match a, b with
  | JArr l1, JArr l2 =>
      (fix go (l1 l2 : list json) : Prop :=
         match l1, l2 with
         | x :: r1, y :: r2 => sameKeyOrder x y /\ go r1 r2
         | _, _ => True
         end) l1 l2
  | JObj f1, JObj f2 =>
      map fst f1 = map fst f2
      /\ (fix go (f1 f2 : list (string * json)) : Prop :=
            match f1, f2 with
            | (_, x) :: r1, (_, y) :: r2 => sameKeyOrder x y /\ go r1 r2
            | _, _ => True
            end) f1 f2
  | _, _ => True
  end.

(** The request the dispatcher sends to a candidate. *)
Definition requestOf (args : option json) (c : Meta.Candidate) : Meta.Request :=
  {| Meta.reqServer := Meta.candServer c;
     Meta.reqTool := Meta.candTool c;
     Meta.reqArgs := args |}.

(** The server a run of the fallback loop ends in. *)
Definition stateOf
    (r : Meta.Outcome json * Meta.MCPMetaServer * Z
         + option string * Meta.MCPMetaServer * Z) : Meta.MCPMetaServer :=
  match r with
  | inl (_, s, _) => s
  | inr (_, s, _) => s
  end.


Definition isWhitespace (c : ascii) : bool :=
  let n := nat_of_ascii c in
  (n =? 32)%nat || (n =? 9)%nat || (n =? 10)%nat || (n =? 13)%nat.

Definition isSpace (c : ascii) : bool := (nat_of_ascii c =? 32)%nat.

Fixpoint countIf (p : ascii -> bool) (s : string) : nat :=
  match s with
  | EmptyString => 0
  | String c r => ((if p c then 1 else 0) + countIf p r)%nat
  end.

(** The whitespace characters (space, tab, line feed, carriage return)
    of a string. *)
Definition countWhitespace (s : string) : nat := countIf isWhitespace s.

(** The space characters held by the keys and the strings of a value. *)
Fixpoint spacesIn (v : json) : nat :=
  match v with
  | JStr s => countIf isSpace s
  | JArr items => fold_right (fun x n => (spacesIn x + n)%nat) 0%nat items
  | JObj fields =>
      fold_right
        (fun m n => (countIf isSpace (fst m) + spacesIn (snd m) + n)%nat)
        0%nat fields
  | _ => 0%nat
  end.

(** Structural induction on JSON values, through arrays and objects. *)
Section JsonInduction.
Variable P : json -> Prop.
Hypothesis onNull : P JNull.
Hypothesis onBool : forall b, P (JBool b).
Hypothesis onNum : forall n, P (JNum n).
Hypothesis onStr : forall s, P (JStr s).
Hypothesis onArr : forall items, Forall P items -> P (JArr items).
Hypothesis onObj :
  forall fields, Forall (fun m => P (snd m)) fields -> P (JObj fields).

Fixpoint json_induction (v : json) : P v :=
  match v with
  | JNull => onNull
  | JBool b => onBool b
  | JNum n => onNum n
  | JStr s => onStr s
  | JArr items =>
      onArr items
        ((fix each (l : list json) : Forall P l :=
            match l with
            | [] => Forall_nil P
            | x :: r => Forall_cons x (json_induction x) (each r)
            end) items)
  | JObj fields =>
      onObj fields
        ((fix each (l : list (string * json))
            : Forall (fun m => P (snd m)) l :=
            match l with
            | [] => Forall_nil _
            | m :: r =>
                Forall_cons (P := fun m => P (snd m)) m
                  (json_induction (snd m)) (each r)
            end) fields)
  end.

End JsonInduction.

End Claims.

Module Scenarios.
Import JS SDK.
Local Open Scope Q_scope.

(** *** A configuration whose command is not a whitelisted runtime *)

Definition evilDocument : json :=
  JObj [ ("id", JStr "malicious");
         ("name", JStr "Evil Server");
         ("command", JArr [JStr "rm"; JStr "-rf"; JStr "/"]) ].

Definition evilConfig : Discovery.MCPServerConfiguration :=
  {| Discovery.id := "malicious";
     Discovery.name := "Evil Server";
     Discovery.command := ["rm"; "-rf"; "/"];
     Discovery.description := None |}.

(** *** One provider [P] with a tool [read] *)

Definition emptySchema : json :=
  JObj [("type", JStr "object"); ("properties", JObj [])].

Definition readTool : Tool :=
  {| name := "read"; description := Some "Read a document";
     inputSchema := emptySchema |}.

Definition configOf (i : string) : Discovery.MCPServerConfiguration :=
  {| Discovery.id := i; Discovery.name := i;
     Discovery.command := ["node"; "server.js"];
     Discovery.description := None |}.

Definition readSession (_ : string) (_ : list string) : option (list Tool) :=
  Some [readTool].

Definition okResult : json := JObj [("content", JArr [])].

Definition answering (_ _ : string) (_ : option json) (_ : Z)
    : (json + string) * Z :=
  (inl okResult, 5%Z).

Definition failing (_ _ : string) (_ : option json) (_ : Z)
    : (json + string) * Z :=
  (inr "connection closed", 5%Z).

Definition serverP : Meta.MCPMetaServer :=
  Meta.connectToServer readSession Meta.create (configOf "P") 0.

Definition timestampArgs : json := JObj [("timestamp", JNum 1)].
Definition uuidArgs : json := JObj [("q", JStr "uuid")].

(** *** A cache holding one filesystem and one database entry *)

Definition keyA : string := Meta.cacheKey "P" "read_a" (Some (JObj [])).
Definition keyB : string := Meta.cacheKey "P" "query_b" (Some (JObj [])).

(** Both entries are stored at time 0; [keyA] is then read once and
    [keyB] three times, all within the entries' lifetimes. *)
Definition twoTypes : Cache.CachingSystem :=
  let c := Cache.set Cache.create keyA okResult None "filesystem" 0 in
  let c := Cache.set c keyB okResult None "database" 0 in
  let c := snd (Cache.get c keyA 1) in
  let c := snd (Cache.get c keyB 1) in
  let c := snd (Cache.get c keyB 2) in
  snd (Cache.get c keyB 3).

(** *** Many insertions within one millisecond *)

Definition keyN (n : nat) : string :=
  Meta.cacheKey "P" "get" (Some (JObj [("n", JNum (Z.of_nat n))])).

Definition fill (n : nat) (now : Z) : Cache.CachingSystem :=
  fold_left
    (fun c k => Cache.set c (keyN k) okResult None "default" now)
    (seq 0 n) Cache.create.

(** *** Argument objects that differ in key order only *)

Definition argsAB : json := JObj [("a", JNum 1); ("b", JNum 2)].
Definition argsBA : json := JObj [("b", JNum 2); ("a", JNum 1)].

(** *** A merged tool with five connected members *)

Definition five : list string := ["P1"; "P2"; "P3"; "P4"; "P5"].

(** The five providers are connected and the tool list is rebuilt:
    their five identical tools merge into one tool [read]. *)
Definition fiveServers : Meta.MCPMetaServer :=
  Meta.refreshToolsList
    (fold_left (fun s i => Meta.connectToServer readSession s (configOf i) 0)
       five Meta.create).

(** *** Three tools of which the first two merge *)

Definition pathSchema : json :=
  JObj [ ("type", JStr "object");
         ("properties", JObj [("path", JObj [("type", JStr "string")])]) ].

Definition openTool (sid d : string) : Dedup.ServerTool :=
  {| Dedup.serverId := sid;
     Dedup.tool := {| name := "open"; description := Some d;
                      inputSchema := pathSchema |} |}.

Definition threeTools : list Dedup.ServerTool :=
  [openTool "A" "read"; openTool "B" "read file"; openTool "C" "show file"].

(** Two tools that merge, and a third unlike both of them and unlike
    their merged form. *)
Definition mergeThenKeep : list Dedup.ServerTool :=
  [openTool "A" "read"; openTool "B" "read file"; openTool "C" "ping"].

(** *** A connected provider while deduplication is switched off *)

Definition disableArgs : Meta.ConfigureArgs :=
  {| Meta.argEnabled := Some false;
     Meta.argSimilarityThreshold := None;
     Meta.argAutoMerge := None;
     Meta.argGetStats := true |}.

(** *** A merged tool whose two best-ranked members fail *)


(** *** One tool offered by two servers, beside another tool *)



End Scenarios.


(* ================================================================== *)
(** ** Greedy matching, as a function on index lists *)
(* ================================================================== *)

(** The matching phase of [jaroSimilarity] pairs every index of the
    first string, in order, with the first free compatible index of
    the second.  [greedy] is that process on lists of indices, a
    paired index leaving the list of free ones. *)
Module Matching.

Section Greedy.
Variable compat : nat -> nat -> bool.

Fixpoint pick (p : nat -> bool) (free : list nat)
    : option (nat * list nat) :=
  match free with
  | [] => None
  | j :: rest =>
      if p j then Some (j, rest)
      else match pick p rest with
           | Some (k, rest') => Some (k, j :: rest')
           | None => None
           end
  end.

Fixpoint greedy (idx free : list nat) : list (nat * nat) :=
  match idx with
  | [] => []
  | i :: idx' =>
      match pick (compat i) free with
      | Some (j, free') => (i, j) :: greedy idx' free'
      | None => greedy idx' free
      end
  end.

End Greedy.

Definition swap (p : nat * nat) : nat * nat := (snd p, fst p).

Definition mem (k : nat) (l : list nat) : bool := existsb (Nat.eqb k) l.

(** The indices of an array of flags that are still [false]. *)
Definition avail (flags : list bool) : list nat :=
  filter (fun j => negb (nth j flags false)) (seq 0 (length flags)).

(** The indices of an array of flags that are [true]. *)
Definition marked (flags : list bool) : list nat :=
  filter (fun j => nth j flags false) (seq 0 (length flags)).

(** [i] and [j] are within [w] positions of each other. *)
Definition near (w : Z) (i j : nat) : bool :=
  (Z.abs (Z.of_nat i - Z.of_nat j) <=? w)%Z.

(** Position [i] of the first string may be paired with position [j]
    of the second. *)
Definition compatible (a1 a2 : list ascii) (w : Z) (i j : nat) : bool :=
  near w i j && Ascii.eqb (Dedup.charAt a1 i) (Dedup.charAt a2 j).

(** The positions at which two character sequences differ. *)
Definition mismatches (l1 l2 : list ascii) : nat :=
  length (filter (fun p => negb (Ascii.eqb (fst p) (snd p))) (combine l1 l2)).

(** The pairing the source computes for two character arrays. *)
Definition pairing (a1 a2 : list ascii) : list (nat * nat) :=
  greedy (compatible a1 a2 (Dedup.matchWindow (length a1) (length a2)))
         (seq 0 (length a1)) (seq 0 (length a2)).

End Matching.


(* ================================================================== *)
(** ** Sequences of cache operations, and the forwarding request handler *)
(* ================================================================== *)

Module Runs.
Import JS.

(** The public operations of [CachingSystem], each with the clock
    reading it is run at. *)
Inductive CacheOp : Type :=
| OpGet (key : string) (now : Z)
| OpSet (key : string) (data : json) (customTTL : option Q)
        (toolType : string) (now : Z)
| OpGetStats (now : Z)
| OpAdjustTTL (toolType : string) (hitRate : Q)
| OpClear.

Definition step (c : Cache.CachingSystem) (op : CacheOp)
    : Cache.CachingSystem :=
  match op with
  | OpGet key now => snd (Cache.get c key now)
  | OpSet key data customTTL toolType now =>
      Cache.set c key data customTTL toolType now
  | OpGetStats now => snd (Cache.getStats c now)
  | OpAdjustTTL toolType hitRate => Cache.adjustTTL c toolType hitRate
  | OpClear => Cache.clear c
  end.

(** The system after a sequence of operations. *)
Definition run (c : Cache.CachingSystem) (ops : list CacheOp)
    : Cache.CachingSystem :=
  fold_left step ops c.

(** The time to live [set] gives the entry it stores:
    [customTTL || getTTLForToolType(toolType)]. *)
Definition ttlOf (c : Cache.CachingSystem) (customTTL : option Q)
    (toolType : string) : Q :=
  match customTTL with
  | Some t => if Cache.truthyNum t then t
              else Cache.getTTLForToolType c toolType
  | None => Cache.getTTLForToolType c toolType
  end.

(** The loop of [evictLeastRecentlyUsed] over the entries [l], started
    on [(oldestKey, oldestTime)]. *)
Definition scanOldest (l : Map Cache.CacheEntry)
    (start : option string * Z) : option string * Z :=
  fold_left
    (fun '(oldestKey, oldestTime) '(key, entry) =>
       if (Cache.lastAccess entry <? oldestTime)%Z
       then (Some key, Cache.lastAccess entry)
       else (oldestKey, oldestTime))
    l start.

(** Hits never outnumber requests, and no entry counts more hits
    than the system as a whole. *)
Definition countersSound (c : Cache.CachingSystem) : Prop :=
  (Cache.totalHits c <= Cache.totalRequests c)%nat
  /\ Forall (fun p => (Cache.hitCount (snd p) <= Cache.totalHits c)%nat)
            (Cache.cache c).

(** Every entry held passed [shouldCache] on its key and data. *)
Definition onlyCacheable (c : Cache.CachingSystem) : Prop :=
  Forall (fun p => Cache.shouldCache (fst p) (Cache.data (snd p)) = true)
         (Cache.cache c).

(** The clock reading an operation stamps on the entry it touches. *)
Definition stampTime (op : CacheOp) : option Z :=
  match op with
  | OpGet _ now => Some now
  | OpSet _ _ _ _ now => Some now
  | _ => None
  end.

(** Every stamp of [ops] is later than the one before it, the first
    one later than [t]. *)
Fixpoint advancing (t : Z) (ops : list CacheOp) : Prop :=
  match ops with
  | [] => True
  | op :: rest =>
      match stampTime op with
      | Some now => (t < now)%Z /\ advancing now rest
      | None => advancing t rest
      end
  end.

(** No [set] of [ops] is given the empty string as key. *)
Definition setsNonEmptyKeys (ops : list CacheOp) : Prop :=
  Forall (fun op => match op with
                    | OpSet key _ _ _ _ => truthyStr key = true
                    | _ => True
                    end) ops.

(** The cache is within capacity, holds no empty key, and no entry
    was accessed after [t]. *)
Definition stamped (t : Z) (c : Cache.CachingSystem) : Prop :=
  (0 < Cache.maxSize c)%nat
  /\ (mapSize (Cache.cache c) <= Cache.maxSize c)%nat
  /\ Forall (fun p => truthyStr (fst p) = true) (Cache.cache c)
  /\ Forall (fun p => (Cache.lastAccess (snd p) <= t)%Z) (Cache.cache c).

(** Every time to live the system can hand out lies between one
    minute and one hour. *)
Definition ttlBounded (c : Cache.CachingSystem) : Prop :=
  (60000 <= Cache.defaultTTL c <= 3600000)%Q
  /\ Forall (fun p => (60000 <= snd p <= 3600000)%Q) (Cache.toolTypeTTL c).

End Runs.

Module Handler.
Import JS SDK Meta.

(** The [case] labels of the [CallToolRequestSchema] handler. *)
Definition metaToolNames : list string :=
  [ "discover_servers"; "analyze_usage"; "get_cache_stats"; "suggest_tools";
    "batch_execute"; "optimize_routing"; "configure_deduplication";
    "analyze_tool_similarity" ].

Definition isMetaTool (name : string) : bool :=
  existsb (String.eqb name) metaToolNames.

(** The response of the handler: [Content v] stands for the text
    content [JSON.stringify(v, null, 2)], [ToolError text] for the
    response with [isError: true]. *)
Inductive CallToolResult : Type :=
| Content (value : json)
| ToolError (text : string).

Section World.
Variable provider :
  string -> string -> option json -> Z -> (json + string) * Z.

(** The [default] branch of the handler's [switch], taken by every
    name that is not a meta-tool, with the [catch] block around it.
    The request arrives at [now]. *)
Definition callToolDefault (s : MCPMetaServer) (name : string)
    (args : option json) (now : Z) : CallToolResult * MCPMetaServer * Z :=
  match delegateToolCall provider s name args now with
  | (Ok result, s1, now1) => (Content result, s1, now1)
  | (Err message, s1, now1) =>
      let responseTime := (now1 - now)%Z in
      let s2 :=
        if includes name ":" then
          match parseToolIdentifier name with
          | Ok (serverId, toolName) =>
              updateMetrics s1 serverId toolName false responseTime now1
          | Err _ => s1
          end
        else s1 in
      (ToolError ("Error executing tool " ++ name ++ ": " ++ message),
       s2, now1)
  end.

End World.

(** The tools the [tools/list] handler appends to the meta tools:
    the merged tools when deduplication is on and has produced any,
    the namespaced originals otherwise. *)
Definition toolsToExpose (s : MCPMetaServer) : list Tool :=
  if Dedup.enabled (deduplication s) && (0 <? mapSize (mergedTools s))%nat
  then map (fun '(_, mergedTool) => Dedup.asTool mergedTool) (mergedTools s)
  else map (fun '(_, (tool, _)) => tool) (allTools s).

End Handler.

(* ================================================================== *)
(** ** Histories of calls on one tool *)
(* ================================================================== *)

Module Calls.
Import JS Meta.

(** One finished call: whether it succeeded, how long it took and the
    clock reading when it ended. *)
Record Call : Type := {
  callSuccess : bool;
  callTime : Z;
  callEnd : Z
}.

Definition record (serverId toolName : string) (s : MCPMetaServer)
    (c : Call) : MCPMetaServer :=
  updateMetrics s serverId toolName (callSuccess c) (callTime c) (callEnd c).

(** [updateMetrics] applied once for each call, in order. *)
Definition recordAll (s : MCPMetaServer) (serverId toolName : string)
    (calls : list Call) : MCPMetaServer :=
  fold_left (record serverId toolName) calls s.

(** [performanceMetrics.get(serverId)?.get(toolName)]. *)
Definition metricsOf (s : MCPMetaServer) (serverId toolName : string)
    : option PerformanceMetrics :=
  match mapGet (performanceMetrics s) serverId with
  | Some serverMetrics => mapGet serverMetrics toolName
  | None => None
  end.

Definition failures (calls : list Call) : nat :=
  length (filter (fun c => negb (callSuccess c)) calls).

Definition totalTime (calls : list Call) : Z :=
  fold_right Z.add 0%Z (map callTime calls).

End Calls.

(* ================================================================== *)
(** ** Groups of the merging loops *)
(* ================================================================== *)

Module Groups.
Import JS SDK Dedup.

(** The test by which the grouping loop takes the indexed tool [p]
    into the group opened by [ti]. *)
Definition chosen (config : DeduplicationConfig) (ti : ServerTool)
    (processed : list nat) (p : nat * ServerTool) : bool :=
  negb (has processed (fst p))
  && geb (score (analyzeSimilarity config (tool ti) (tool (snd p))))
         (similarityThreshold config).

(** The indexed tools no group has taken yet. *)
Definition unprocessed (processed : list nat) (p : nat * ServerTool) : bool :=
  negb (has processed (fst p)).

(** All the tools the merged tools stand for, group after group. *)
Definition members (merged : list MergedTool) : list ServerTool :=
  flat_map originalTools merged.

(** What every merged tool owes to its group: a member [best] with a
    longest description supplies the primary server and the schema,
    and a group of one is that tool unchanged with confidence 1. *)
Definition wellGrouped (m : MergedTool) : Prop :=
  exists best,
    In best (originalTools m)
    /\ primaryServerId m = serverId best
    /\ inputSchema (asTool m) = inputSchema (tool best)
    /\ Forall (fun o => (descLength (tool o) <= descLength (tool best))%nat)
              (originalTools m)
    /\ (length (originalTools m) = 1%nat
        -> confidence m = 1%Q /\ asTool m = tool best).

End Groups.


(* ================================================================== *)
(** ** Where rationals and code units stand for the code's values *)
(* ================================================================== *)

(** The code computes in binary64 and on UTF-16 strings.  The
    predicates below delimit inputs on which the exact numbers and the
    8-bit strings of this development behave as the code's do; the
    statements that depend on it name them as hypotheses. *)
Module Domain.
Import JS.

(** A JavaScript time value: a whole number of milliseconds of
    magnitude at most 8.64e15, which binary64 holds exactly. *)
Definition timeValue (t : Z) : Prop := (Z.abs t <= 8640000000000000)%Z.

(** A whole number binary64 holds exactly, together with its
    neighbours: at most [2^53 - 1] in magnitude. *)
Definition safeInteger (n : Z) : Prop := (Z.abs n <= 9007199254740991)%Z.

Definition isDigit (c : ascii) : bool :=
  let n := nat_of_ascii c in (48 <=? n)%nat && (n <=? 57)%nat.

(** A non-empty string of decimal digits.  Property keys that are
    array indices are of this form; JavaScript lists them before the
    other keys of an object, whatever the insertion order. *)
Definition digitsOnly (s : string) : bool :=
  match s with
  | EmptyString => false
  | _ => forallb isDigit (list_ascii_of_string s)
  end.

(** No object of the value has a key made of digits only, so every
    object lists its members in insertion order. *)
Fixpoint plainKeys (v : json) : Prop :=
  match v with
  | JArr items => fold_right (fun x P => plainKeys x /\ P) True items
  | JObj fields =>
      fold_right
        (fun m P => digitsOnly (fst m) = false /\ plainKeys (snd m) /\ P)
        True fields
  | _ => True
  end.

(** Every number of the value is a safe integer, which
    [JSON.stringify] prints in full. *)
Fixpoint safeIntegers (v : json) : Prop :=
  match v with
  | JNum n => safeInteger n
  | JArr items => fold_right (fun x P => safeIntegers x /\ P) True items
  | JObj fields =>
      fold_right (fun m P => safeIntegers (snd m) /\ P) True fields
  | _ => True
  end.

(** A string of ASCII characters: [toLowerCase] folds [A-Z] on it and
    changes nothing else. *)
Definition asciiOnly (s : string) : bool :=
  forallb (fun c => (nat_of_ascii c <? 128)%nat) (list_ascii_of_string s).

End Domain.

(* ================================================================== *)
(** ** Reading a serialized string back *)
(* ================================================================== *)

Module Decode.
Import JS.

Definition hexVal (c : ascii) : option nat :=
  let n := nat_of_ascii c in
  if (48 <=? n)%nat && (n <=? 57)%nat then Some (n - 48)%nat
  else if (97 <=? n)%nat && (n <=? 102)%nat then Some (n - 87)%nat
  else None.

(** The code unit that the text of a JSON string starts with, and the
    rest of the text; [None] at the closing quote and on text that
    [JSON.stringify] does not write. *)
Definition unescapeHead (s : string) : option (ascii * string) :=
  match s with
  | EmptyString => None
  | String c rest =>
      if Ascii.eqb c dquote then None
      else if Ascii.eqb c backslash then
        match rest with
        | EmptyString => None
        | String e rest' =>
            if Ascii.eqb e dquote then Some (dquote, rest')
            else if Ascii.eqb e backslash then Some (backslash, rest')
            else if Ascii.eqb e "b" then Some (ascii_of_nat 8, rest')
            else if Ascii.eqb e "f" then Some (ascii_of_nat 12, rest')
            else if Ascii.eqb e "n" then Some (ascii_of_nat 10, rest')
            else if Ascii.eqb e "r" then Some (ascii_of_nat 13, rest')
            else if Ascii.eqb e "t" then Some (ascii_of_nat 9, rest')
            else if Ascii.eqb e "u" then
              match rest' with
              | String _ (String _ (String h (String l rest''))) =>
                  match hexVal h, hexVal l with
                  | Some hi, Some lo =>
                      Some (ascii_of_nat (16 * hi + lo), rest'')
                  | _, _ => None
                  end
              | _ => None
              end
            else None
        end
      else Some (c, rest)
  end.

(** The text that follows a serialized value does not go on with a
    digit. *)
Definition delimited (r : string) : Prop :=
  match r with
  | EmptyString => True
  | String c _ => Domain.isDigit c = false
  end.

(** A text made of decimal digits. *)
Definition allDigits (s : string) : Prop :=
  forallb Domain.isDigit (list_ascii_of_string s) = true.

(** The kind of value a serialized text starts as, told from its
    first character; [0] when no value starts with it. *)
Definition headKind (s : string) : nat :=
  match s with
  | EmptyString => 0
  | String c _ =>
      if Ascii.eqb c "n" then 1
      else if Ascii.eqb c "t" then 2
      else if Ascii.eqb c "f" then 3
      else if Domain.isDigit c || Ascii.eqb c "-" then 4
      else if Ascii.eqb c dquote then 5
      else if Ascii.eqb c "[" then 6
      else if Ascii.eqb c "{" then 7
      else 0
  end%nat.

Definition kindOf (v : json) : nat :=
  match v with
  | JNull => 1
  | JBool true => 2
  | JBool false => 3
  | JNum _ => 4
  | JStr _ => 5
  | JArr _ => 6
  | JObj _ => 7
  end%nat.

(** What follows the first part of a comma-separated list: the other
    parts, each after a comma, then [tail]. *)
Definition continued (parts : list string) (tail : string) : string :=
  match parts with
  | [] => tail
  | _ => "," ++ join "," parts ++ tail
  end.

(** The text that [f] writes for [x] can be read off the front of a
    text: what starts as the text of [x] starts as the text of
    nothing else. *)
Definition readable {A : Type} (f : A -> string) (x : A) : Prop :=
  forall y t t',
    f x ++ t = f y ++ t' -> delimited t -> delimited t' ->
    x = y /\ t = t'.

(** The text of one member of an object. *)
Definition member (m : string * json) : string :=
  quoteJSON (fst m) ++ ":" ++ stringify (snd m).

End Decode.

(* ================================================================== *)
(** ** Outcomes of the requests of one invocation *)
(* ================================================================== *)

Module Attempts.
Import JS Meta.

Section World.
Variable provider : string -> string -> option json -> Z -> (json + string) * Z.



End World.

End Attempts.

(* ================================================================== *)
(** ** Copies of one tool *)
(* ================================================================== *)

Module Copies.
Import JS SDK Dedup Claims.










End Copies.


(* ================================================================== *)
(** ** Provider registration *)
(* ================================================================== *)

Module RegistrationFacts.
Import JS SDK Scenarios.

(** C1 (what the code does at the failing input).  The configuration
    document with command [rm -rf /] passes [isValidConfig], and
    [connectToServer] starts the child [rm] with the arguments as
    given, then records the provider under its id, whatever the child
    answers: no whitelist, no pattern test and no stripping is applied. *)
Theorem connectToServer_starts_unvalidated_command :
  forall (childSession : string -> list string -> option (list Tool))
         (now : Z),
    Discovery.isValidConfig evilDocument = true
    /\ Discovery.asConfiguration evilDocument = Some evilConfig
    /\ Meta.spawned (Meta.connectToServer childSession Meta.create evilConfig now)
       = [ {| Meta.spawnCommand := "rm"; Meta.spawnArgs := ["-rf"; "/"] |} ]
    /\ mapHas (Meta.servers
                 (Meta.connectToServer childSession Meta.create evilConfig now))
              "malicious" = true.
Proof.
  intros childSession now.
  repeat split; try reflexivity.
  - unfold Meta.connectToServer; cbn.
    destruct (childSession "rm" ["-rf"; "/"]); reflexivity.
  - unfold Meta.connectToServer; cbn.
    destruct (childSession "rm" ["-rf"; "/"]); reflexivity.
Qed.

End RegistrationFacts.

(* ================================================================== *)
(** ** The result cache *)
(* ================================================================== *)

Module CacheFacts.
Import JS SDK Scenarios.
Local Open Scope Q_scope.

(** C2 (what the code does at the failing input).  After one read of
    the filesystem entry and three reads of the database entry, the
    hit rate [getToolTypeMetrics] reports for [filesystem] is the
    entry's hit count divided by all four requests, 1/4, although one
    request was served for that type; the system has no per-type
    counter. *)
Theorem toolType_hitRate_divides_by_all_requests :
  Cache.totalRequests twoTypes = 4%nat
  /\ Claims.specTypeRequests twoTypes "filesystem" = 1%nat
  /\ exists stats,
       mapGet (Cache.getToolTypeMetrics twoTypes) "filesystem" = Some stats
       /\ Cache.typeAvgHitCount stats == 1
       /\ Cache.typeHitRate stats == 1 # 4
       /\ ~ Cache.typeHitRate stats
            == Cache.typeAvgHitCount stats
               / Dedup.ofNat (Claims.specTypeRequests twoTypes "filesystem").
Proof.
  split; [reflexivity|].
  split; [reflexivity|].
  eexists; split; [vm_compute; reflexivity|].
  repeat split; try (vm_compute; reflexivity).
  vm_compute. discriminate.
Qed.

(** C4 (what the code does at the failing input).  [set] applies
    [shouldCache] to the cache key and to the result.  A call of
    [read] with arguments [{timestamp: 1}], which the rule on the
    tool's name and the arguments would bypass, is stored; a call of
    [read] with arguments [{q: uuid}], which that rule would store, is
    not. *)
Theorem set_tests_key_and_result :
  (Claims.specBypass "read" timestampArgs = true
   /\ mapHas (Cache.cache (Meta.cache (snd (fst
        (Meta.executeToolCall answering serverP "P" "read"
           (Some timestampArgs) 10)))))
        (Meta.cacheKey "P" "read" (Some timestampArgs)) = true)
  /\ (Claims.specBypass "read" uuidArgs = false
      /\ Cache.cache (Meta.cache (snd (fst
           (Meta.executeToolCall answering serverP "P" "read"
              (Some uuidArgs) 10)))) = []).
Proof.
  repeat split; vm_compute; reflexivity.
Qed.

(** C6 (what the code does at the failing input).  A thousand and one
    insertions under distinct keys within one millisecond leave 1001
    entries in a cache whose [maxSize] is 1000: eviction only considers
    entries last accessed strictly before the current time. *)
Theorem set_exceeds_maxSize_within_one_millisecond :
  Cache.maxSize (fill 1001 5) = 1000%nat
  /\ mapSize (Cache.cache (fill 1001 5)) = 1001%nat.
Proof.
  split; vm_compute; reflexivity.
Qed.

End CacheFacts.

(* ================================================================== *)
(** ** The similarity kernel *)
(* ================================================================== *)

Module GreedyFacts.
Import Matching.
Local Open Scope nat_scope.
Local Open Scope list_scope.

Section Pick.
Variable p : nat -> bool.

Lemma pick_Some free j free' :
  pick p free = Some (j, free') ->
  exists l1 l2, free = l1 ++ j :: l2 /\ free' = l1 ++ l2
                /\ Forall (fun x => p x = false) l1 /\ p j = true.
Proof.
  revert j free'. induction free as [|x r IH]; intros j free' H; simpl in H.
  - discriminate.
  - destruct (p x) eqn:Hx.
    + inversion H; subst. exists [], free'. repeat split; auto.
    + destruct (pick p r) as [[k r']|] eqn:Hr; [|discriminate].
      inversion H; subst.
      destruct (IH _ _ eq_refl) as (l1 & l2 & -> & -> & Hall & Hj).
      exists (x :: l1), l2. repeat split; auto.
Qed.

Lemma pick_None free :
  pick p free = None -> Forall (fun x => p x = false) free.
Proof.
  induction free as [|x r IH]; simpl; intros H; [constructor|].
  destruct (p x) eqn:Hx; [discriminate|].
  destruct (pick p r) as [[k r']|]; [discriminate|].
  constructor; auto.
Qed.

Lemma pick_find free : option_map fst (pick p free) = find p free.
Proof.
  induction free as [|x r IH]; simpl; [reflexivity|].
  destruct (p x); [reflexivity|].
  rewrite <- IH. destruct (pick p r) as [[k r']|]; reflexivity.
Qed.

End Pick.

Lemma greedy_nil_free compat idx : greedy compat idx [] = [].
Proof. induction idx; simpl; auto. Qed.

(** Dropping from the free list an index nobody can be paired with. *)
Lemma greedy_skip_unpairable compat idx i free :
  Forall (fun x => compat x i = false) idx ->
  greedy compat idx (i :: free) = greedy compat idx free.
Proof.
  revert free. induction idx as [|x idx IH]; intros free H; simpl; [reflexivity|].
  inversion H as [|? ? Hx Hrest]; subst.
  rewrite Hx.
  destruct (pick (compat x) free) as [[k free']|]; [|auto].
  f_equal. auto.
Qed.

(** Pairing the head of the free list with the first index that accepts it. *)
Lemma greedy_pair_head compat l1 j l2 i free :
  Forall (fun x => compat x i = false) l1 ->
  compat j i = true ->
  Permutation (greedy compat (l1 ++ j :: l2) (i :: free))
              ((j, i) :: greedy compat (l1 ++ l2) free).
Proof.
  revert free. induction l1 as [|x l1 IH]; intros free H Hj; simpl.
  - rewrite Hj. reflexivity.
  - inversion H as [|? ? Hx Hrest]; subst.
    rewrite Hx.
    destruct (pick (compat x) free) as [[k free']|].
    + rewrite (IH free' Hrest Hj). apply perm_swap.
    + apply IH; auto.
Qed.

Theorem greedy_symmetric compat idx free :
  Permutation (greedy compat idx free)
              (map swap (greedy (fun j i => compat i j) free idx)).
Proof.
  revert free. induction idx as [|i idx IH]; intros free; simpl.
  - rewrite greedy_nil_free. constructor.
  - destruct (pick (compat i) free) as [[j free']|] eqn:Hp.
    + destruct (pick_Some _ _ _ _ Hp) as (l1 & l2 & -> & -> & Hall & Hj).
      rewrite (greedy_pair_head (fun j i => compat i j) l1 j l2 i idx Hall Hj).
      simpl. apply perm_skip. apply IH.
    + rewrite greedy_skip_unpairable by (apply pick_None; exact Hp).
      apply IH.
Qed.


Lemma pick_ext p q free :
  (forall x, In x free -> p x = q x) -> pick p free = pick q free.
Proof.
  induction free as [|x r IH]; intros H; simpl; [reflexivity|].
  rewrite <- (H x) by (left; reflexivity).
  rewrite IH by (intros; apply H; right; assumption).
  reflexivity.
Qed.

Lemma greedy_ext c c' idx free :
  (forall i j, c i j = c' i j) -> greedy c idx free = greedy c' idx free.
Proof.
  intros H. revert free. induction idx as [|i idx IH]; intros free; simpl.
  - reflexivity.
  - rewrite (pick_ext (c i) (c' i) free) by (intros; apply H).
    destruct (pick (c' i) free) as [[j free']|]; rewrite ?IH; reflexivity.
Qed.

(** Every pair joins an index of the first list to a free index. *)
Lemma greedy_In compat idx free i j :
  In (i, j) (greedy compat idx free) -> In i idx /\ In j free.
Proof.
  revert free. induction idx as [|x idx IH]; intros free H; simpl in H.
  - contradiction.
  - destruct (pick (compat x) free) as [[k free']|] eqn:Hp.
    + destruct (pick_Some _ _ _ _ Hp) as (l1 & l2 & -> & -> & _ & _).
      destruct H as [H|H].
      * inversion H; subst. split; [left; reflexivity|].
        apply in_or_app. right. left. reflexivity.
      * destruct (IH _ H) as [Hi Hj]. split; [right; assumption|].
        apply in_app_or in Hj. apply in_or_app.
        destruct Hj; [left|right; right]; assumption.
    + destruct (IH _ H). split; [right|]; assumption.
Qed.

Lemma greedy_NoDup_fst compat idx free :
  NoDup idx -> NoDup (map fst (greedy compat idx free)).
Proof.
  revert free. induction idx as [|x idx IH]; intros free H; simpl.
  - constructor.
  - inversion H as [|? ? Hx Hrest]; subst.
    destruct (pick (compat x) free) as [[k free']|]; [|auto].
    simpl. constructor; [|auto].
    intros Hin. apply in_map_iff in Hin. destruct Hin as ([i j] & Heq & Hin).
    simpl in Heq. subst i. apply greedy_In in Hin. tauto.
Qed.

Lemma greedy_NoDup_snd compat idx free :
  NoDup free -> NoDup (map snd (greedy compat idx free)).
Proof.
  revert free. induction idx as [|x idx IH]; intros free H; simpl.
  - constructor.
  - destruct (pick (compat x) free) as [[k free']|] eqn:Hp; [|auto].
    destruct (pick_Some _ _ _ _ Hp) as (l1 & l2 & -> & -> & _ & _).
    pose proof (NoDup_remove_1 _ _ _ H) as Hnd.
    pose proof (NoDup_remove_2 _ _ _ H) as Hk.
    simpl. constructor; [|auto].
    intros Hin. apply in_map_iff in Hin. destruct Hin as ([i j] & Heq & Hin).
    simpl in Heq. subst j. apply greedy_In in Hin. tauto.
Qed.

Lemma mem_In k l : mem k l = true <-> In k l.
Proof.
  unfold mem. rewrite existsb_exists. split.
  - intros (x & Hin & Heq). apply Nat.eqb_eq in Heq. subst. assumption.
  - intros H. exists k. split; [assumption|apply Nat.eqb_refl].
Qed.

Lemma mem_Permutation k l l' : Permutation l l' -> mem k l = mem k l'.
Proof.
  intros H. apply eq_true_iff_eq. rewrite !mem_In.
  split; apply Permutation_in; [|symmetry]; assumption.
Qed.

(** The members of [l], all below [n] and distinct, picked out of [0..n-1]. *)
Lemma filter_mem_length l n :
  NoDup l -> (forall x, In x l -> x < n) ->
  length (filter (fun k => mem k l) (seq 0 n)) = length l.
Proof.
  intros Hnd Hlt. apply Permutation_length. apply NoDup_Permutation.
  - apply NoDup_filter. apply seq_NoDup.
  - assumption.
  - intros x. rewrite filter_In, in_seq, mem_In. split; [tauto|].
    intros H. specialize (Hlt x H). split; [lia|assumption].
Qed.

End GreedyFacts.

Module JaroFacts.
Import Matching Dedup GreedyFacts.
Local Open Scope nat_scope.
Local Open Scope list_scope.

Lemma length_assign {A} (l : list A) i x : length (assign l i x) = length l.
Proof.
  revert i. induction l as [|y r IH]; intros [|i]; simpl; auto.
Qed.

Lemma nth_assign {A} (l : list A) i x k d :
  nth k (assign l i x) d
  = if (k =? i) && (i <? length l) then x else nth k l d.
Proof.
  revert i k. induction l as [|y r IH]; intros i k; simpl.
  - rewrite andb_false_r. destruct i; reflexivity.
  - destruct i as [|i], k as [|k]; simpl; try reflexivity.
    rewrite IH. reflexivity.
Qed.

Lemma find_ext_in {A} (p q : A -> bool) l :
  (forall x, In x l -> p x = q x) -> find p l = find q l.
Proof.
  induction l as [|x r IH]; intros H; simpl; [reflexivity|].
  rewrite <- (H x) by (left; reflexivity).
  rewrite IH by (intros; apply H; right; assumption). reflexivity.
Qed.

Lemma find_filter {A} (p q : A -> bool) l :
  find p (filter q l) = find (fun x => q x && p x) l.
Proof.
  induction l as [|x r IH]; simpl; [reflexivity|].
  destruct (q x); simpl; [destruct (p x)|]; auto.
Qed.

(** A search restricted to the window [[s, e)], run from inside it. *)
Lemma find_window_from p s e n a :
  s <= a -> e <= a + n ->
  find (fun j => (s <=? j) && (j <? e) && p j) (seq a n)
  = find p (seq a (e - a)).
Proof.
  revert a. induction n as [|n IH]; intros a Hs He; simpl.
  - replace (e - a) with 0 by lia. reflexivity.
  - destruct (Nat.ltb_spec a e) as [Hlt|Hge].
    + replace (e - a) with (S (e - S a)) by lia. simpl.
      replace (s <=? a) with true by (symmetry; apply Nat.leb_le; lia).
      simpl. destruct (p a); [reflexivity|].
      apply IH; lia.
    + rewrite andb_false_r. simpl.
      rewrite IH by lia.
      replace (e - a) with 0 by lia. replace (e - S a) with 0 by lia.
      reflexivity.
Qed.

Lemma find_window p s e n a :
  a <= s -> e <= a + n ->
  find (fun j => (s <=? j) && (j <? e) && p j) (seq a n)
  = find p (seq s (e - s)).
Proof.
  revert a. induction n as [|n IH]; intros a Hs He; simpl.
  - replace (e - s) with 0 by lia. reflexivity.
  - destruct (Nat.eq_dec a s) as [->|Hne].
    + apply (find_window_from p s e (S n) s); lia.
    + replace (s <=? a) with false by (symmetry; apply Nat.leb_gt; lia).
      simpl. apply IH; lia.
Qed.

Lemma in_avail j flags :
  In j (avail flags) <-> j < length flags /\ nth j flags false = false.
Proof.
  unfold avail. rewrite filter_In, in_seq, negb_true_iff. split; intros [H1 H2]; split; auto; lia.
Qed.

Lemma NoDup_avail flags : NoDup (avail flags).
Proof. apply NoDup_filter, seq_NoDup. Qed.

(** The window scan of the source is a search among the free indices. *)
Lemma findMatch_spec a1 a2 w flags i :
  length flags = length a2 ->
  findMatch a1 a2 w flags i = find (compatible a1 a2 w i) (avail flags).
Proof.
  intros Hlen. unfold findMatch, avail.
  rewrite find_filter.
  set (s := Z.to_nat (Z.max 0 (Z.of_nat i - w))).
  set (e := Z.to_nat (Z.min (Z.of_nat i + w + 1) (Z.of_nat (length a2)))).
  rewrite <- (find_window _ s e (length flags) 0) by (subst s e; lia).
  apply find_ext_in. intros j Hj. apply in_seq in Hj.
  unfold compatible, near.
  rewrite negb_orb, negb_involutive.
  destruct (nth j flags false); simpl; [apply andb_false_r|].
  f_equal.
  apply eq_true_iff_eq.
  rewrite andb_true_iff, Nat.leb_le, Nat.ltb_lt, Z.leb_le.
  subst s e. lia.
Qed.

Lemma filter_neq_notin j l :
  ~ In j l -> filter (fun k => negb (k =? j)) l = l.
Proof.
  induction l as [|x r IH]; intros H; simpl; [reflexivity|].
  destruct (Nat.eqb_spec x j) as [->|Hne]; simpl.
  - exfalso. apply H. left. reflexivity.
  - f_equal. apply IH. intros Hin. apply H. right. assumption.
Qed.

Lemma filter_twice {A} (p q : A -> bool) l :
  filter q (filter p l) = filter (fun x => p x && q x) l.
Proof.
  induction l as [|x r IH]; simpl; [reflexivity|].
  destruct (p x); simpl; [destruct (q x)|]; rewrite ?IH; reflexivity.
Qed.

Lemma avail_assign flags j :
  avail (assign flags j true) = filter (fun k => negb (k =? j)) (avail flags).
Proof.
  unfold avail. rewrite length_assign, filter_twice.
  apply filter_ext_in. intros k Hk. apply in_seq in Hk.
  rewrite nth_assign.
  destruct (Nat.eqb_spec k j) as [->|Hne]; simpl.
  - replace (j <? length flags) with true by (symmetry; apply Nat.ltb_lt; lia).
    rewrite andb_false_r. reflexivity.
  - rewrite andb_true_r. reflexivity.
Qed.

(** Taking the picked index out of the free list is marking it. *)
Lemma pick_avail p flags j free' :
  pick p (avail flags) = Some (j, free') ->
  free' = avail (assign flags j true) /\ j < length flags.
Proof.
  intros Hp. destruct (pick_Some _ _ _ _ Hp) as (l1 & l2 & Heq & -> & _ & _).
  rewrite avail_assign, Heq.
  pose proof (NoDup_avail flags) as Hnd. rewrite Heq in Hnd.
  pose proof (NoDup_remove_2 _ _ _ Hnd) as Hj.
  split.
  - rewrite filter_app. simpl. rewrite Nat.eqb_refl. simpl.
    rewrite !filter_neq_notin; [reflexivity| |];
      intros Hin; apply Hj; apply in_or_app; [right|left]; assumption.
  - assert (In j (avail flags)) as Hin
        by (rewrite Heq; apply in_or_app; right; left; reflexivity).
    apply in_avail in Hin. tauto.
Qed.

(** The matching loop computes the greedy pairing of its indices with
    the indices that are free when it starts. *)
Lemma matchLoop_spec a1 a2 w idx st :
  length (s2Matches st) = length a2 ->
  Forall (fun i => i < length (s1Matches st)) idx ->
  let M := greedy (compatible a1 a2 w) idx (avail (s2Matches st)) in
  let st' := matchLoop a1 a2 w idx st in
  length (s1Matches st') = length (s1Matches st)
  /\ length (s2Matches st') = length (s2Matches st)
  /\ (forall k, nth k (s1Matches st') false
                = nth k (s1Matches st) false || mem k (map fst M))
  /\ (forall k, nth k (s2Matches st') false
                = nth k (s2Matches st) false || mem k (map snd M))
  /\ matches st' = matches st + length M.
Proof.
  revert st. induction idx as [|i idx IH]; intros st Hlen Hidx; simpl.
  - repeat split; intros; rewrite ?orb_false_r; auto.
  - inversion Hidx as [|? ? Hi Hrest]; subst.
    assert (Hstep : matchStep a1 a2 w st i
                    = match pick (compatible a1 a2 w i) (avail (s2Matches st)) with
                      | Some (j, _) =>
                          {| s1Matches := assign (s1Matches st) i true;
                             s2Matches := assign (s2Matches st) j true;
                             matches := S (matches st) |}
                      | None => st
                      end).
    { unfold matchStep. rewrite findMatch_spec by assumption.
      rewrite <- pick_find.
      destruct (pick (compatible a1 a2 w i) (avail (s2Matches st)))
        as [[j free']|]; reflexivity. }
    rewrite Hstep. clear Hstep.
    destruct (pick (compatible a1 a2 w i) (avail (s2Matches st)))
      as [[j free']|] eqn:Hp; simpl.
    + destruct (pick_avail _ _ _ _ Hp) as [-> Hj].
      set (st1 := {| s1Matches := assign (s1Matches st) i true;
                     s2Matches := assign (s2Matches st) j true;
                     matches := S (matches st) |}).
      destruct (IH st1) as (L1 & L2 & N1 & N2 & Hm).
      * simpl. rewrite length_assign. assumption.
      * simpl. rewrite length_assign. assumption.
      * simpl in *. rewrite length_assign in L1, L2.
        split; [assumption|]. split; [assumption|].
        split; [|split].
        -- intros k. rewrite N1, nth_assign.
           replace (i <? length (s1Matches st)) with true
             by (symmetry; apply Nat.ltb_lt; assumption).
           rewrite andb_true_r.
           destruct (k =? i), (nth k (s1Matches st) false); reflexivity.
        -- intros k. rewrite N2, nth_assign.
           replace (j <? length (s2Matches st)) with true
             by (symmetry; apply Nat.ltb_lt; assumption).
           rewrite andb_true_r.
           destruct (k =? j), (nth k (s2Matches st) false); reflexivity.
        -- rewrite Hm. lia.
    + apply IH; assumption.
Qed.


Lemma nth_repeat_false k n : nth k (repeat false n) false = false.
Proof.
  revert k. induction n as [|n IH]; intros [|k]; simpl; auto.
Qed.

Lemma avail_repeat_false n : avail (repeat false n) = seq 0 n.
Proof.
  unfold avail. rewrite repeat_length.
  rewrite <- (filter_ext_in (fun _ => true)).
  - induction (seq 0 n) as [|x r IH]; simpl; congruence.
  - intros k _. rewrite nth_repeat_false. reflexivity.
Qed.

Lemma findMatches_spec a1 a2 :
  let st := findMatches a1 a2 in
  length (s1Matches st) = length a1
  /\ length (s2Matches st) = length a2
  /\ (forall k, nth k (s1Matches st) false = mem k (map fst (pairing a1 a2)))
  /\ (forall k, nth k (s2Matches st) false = mem k (map snd (pairing a1 a2)))
  /\ matches st = length (pairing a1 a2).
Proof.
  unfold findMatches, pairing.
  set (w := matchWindow (length a1) (length a2)).
  set (st0 := {| s1Matches := repeat false (length a1);
                 s2Matches := repeat false (length a2);
                 matches := 0 |}).
  destruct (matchLoop_spec a1 a2 w (seq 0 (length a1)) st0)
    as (L1 & L2 & N1 & N2 & Hm).
  - simpl. apply repeat_length.
  - simpl. rewrite repeat_length. apply Forall_forall.
    intros i Hi. apply in_seq in Hi. lia.
  - simpl in *. rewrite avail_repeat_false in *.
    rewrite repeat_length in L1, L2.
    repeat split; auto.
    + intros k. rewrite N1, nth_repeat_false. reflexivity.
    + intros k. rewrite N2, nth_repeat_false. reflexivity.
Qed.

Lemma pairing_bounds a1 a2 i j :
  In (i, j) (pairing a1 a2) -> i < length a1 /\ j < length a2.
Proof.
  intros H. apply greedy_In in H. rewrite !in_seq in H. lia.
Qed.

Lemma marked_mem flags l :
  (forall k, nth k flags false = mem k l) ->
  marked flags = filter (fun k => mem k l) (seq 0 (length flags)).
Proof.
  intros H. unfold marked. apply filter_ext. exact H.
Qed.

(** Both arrays of flags hold as many marks as there are pairs. *)
Lemma marked_lengths a1 a2 :
  let st := findMatches a1 a2 in
  length (marked (s1Matches st)) = matches st
  /\ length (marked (s2Matches st)) = matches st.
Proof.
  destruct (findMatches_spec a1 a2) as (L1 & L2 & N1 & N2 & Hm).
  simpl. rewrite Hm.
  rewrite (marked_mem _ _ N1), (marked_mem _ _ N2), L1, L2.
  split.
  - rewrite filter_mem_length.
    + apply length_map.
    + apply greedy_NoDup_fst, seq_NoDup.
    + intros x Hx. apply in_map_iff in Hx. destruct Hx as ([i j] & <- & Hin).
      apply pairing_bounds in Hin. tauto.
  - rewrite filter_mem_length.
    + apply length_map.
    + apply greedy_NoDup_snd, seq_NoDup.
    + intros x Hx. apply in_map_iff in Hx. destruct Hx as ([i j] & <- & Hin).
      apply pairing_bounds in Hin. tauto.
Qed.

Lemma near_sym w i j : near w i j = near w j i.
Proof. unfold near. f_equal. lia. Qed.

Lemma ascii_eqb_sym (c d : ascii) : Ascii.eqb c d = Ascii.eqb d c.
Proof.
  destruct (Ascii.eqb_spec c d) as [->|Hne].
  - symmetry. apply Ascii.eqb_refl.
  - symmetry. apply Ascii.eqb_neq. congruence.
Qed.

Lemma matchWindow_sym n m : matchWindow n m = matchWindow m n.
Proof. unfold matchWindow. rewrite Nat.max_comm. reflexivity. Qed.

(** The pairing of [a2] with [a1] is the pairing of [a1] with [a2]
    read backwards. *)
Lemma pairing_sym a1 a2 :
  Permutation (pairing a1 a2) (map swap (pairing a2 a1)).
Proof.
  unfold pairing.
  rewrite (greedy_symmetric _ (seq 0 (length a1)) (seq 0 (length a2))).
  rewrite (greedy_ext _ (compatible a2 a1 (matchWindow (length a2) (length a1)))).
  - reflexivity.
  - intros j i. unfold compatible.
    rewrite near_sym, ascii_eqb_sym, matchWindow_sym. reflexivity.
Qed.

Lemma flags_eq (f g : list bool) :
  length f = length g ->
  (forall k, nth k f false = nth k g false) -> f = g.
Proof.
  intros Hlen H. apply (nth_ext f g false false Hlen). intros k _. apply H.
Qed.

(** Exchanging the strings exchanges the two arrays of flags. *)
Lemma findMatches_sym a1 a2 :
  s1Matches (findMatches a2 a1) = s2Matches (findMatches a1 a2)
  /\ s2Matches (findMatches a2 a1) = s1Matches (findMatches a1 a2)
  /\ matches (findMatches a2 a1) = matches (findMatches a1 a2).
Proof.
  destruct (findMatches_spec a1 a2) as (L1 & L2 & N1 & N2 & Hm).
  destruct (findMatches_spec a2 a1) as (L1' & L2' & N1' & N2' & Hm').
  simpl in *.
  pose proof (pairing_sym a1 a2) as Hperm.
  repeat split.
  - apply flags_eq; [congruence|]. intros k. rewrite N1', N2.
    rewrite (mem_Permutation k _ _ (Permutation_map snd Hperm)).
    rewrite map_map. reflexivity.
  - apply flags_eq; [congruence|]. intros k. rewrite N2', N1.
    rewrite (mem_Permutation k _ _ (Permutation_map fst Hperm)).
    rewrite map_map. reflexivity.
  - rewrite Hm, Hm'. rewrite (Permutation_length Hperm). symmetry. apply length_map.
Qed.


(** *** The transposition loop *)

Lemma skipUnmatched_spec fuel m2 k :
  length m2 < fuel + k ->
  skipUnmatched fuel m2 k
  = find (fun j => nth j m2 false) (seq k (length m2 - k)).
Proof.
  revert k. induction fuel as [|fuel IH]; intros k H; simpl.
  - replace (length m2 - k) with 0 by lia. reflexivity.
  - destruct (nth k m2 false) eqn:Hk.
    + assert (k < length m2) as Hlt.
      { destruct (Nat.lt_ge_cases k (length m2)) as [|Hge]; [assumption|].
        rewrite nth_overflow in Hk by assumption. discriminate. }
      replace (length m2 - k) with (S (length m2 - S k)) by lia.
      simpl. rewrite Hk. reflexivity.
    + rewrite IH by lia.
      destruct (Nat.lt_ge_cases k (length m2)) as [Hlt|Hge].
      * replace (length m2 - k) with (S (length m2 - S k)) by lia.
        simpl. rewrite Hk. reflexivity.
      * replace (length m2 - k) with 0 by lia.
        replace (length m2 - S k) with 0 by lia. reflexivity.
Qed.

Lemma find_seq_Some p k n k' :
  find p (seq k n) = Some k' ->
  k <= k' < k + n
  /\ filter p (seq k n) = k' :: filter p (seq (S k') (k + n - S k')).
Proof.
  revert k. induction n as [|n IH]; intros k H; simpl in *; [discriminate|].
  destruct (p k) eqn:Hk.
  - inversion H; subst. split; [lia|].
    replace (k' + S n - S k') with n by lia. reflexivity.
  - destruct (IH _ H) as [Hb Hf]. split; [lia|].
    rewrite Hf. replace (S k + n) with (k + S n) by lia. reflexivity.
Qed.

Lemma find_seq_None p k n :
  find p (seq k n) = None -> filter p (seq k n) = [].
Proof.
  revert k. induction n as [|n IH]; intros k H; simpl in *; [reflexivity|].
  destruct (p k); [discriminate|]. auto.
Qed.

Lemma mismatches_cons c1 l1 c2 l2 :
  mismatches (c1 :: l1) (c2 :: l2)
  = (if Ascii.eqb c1 c2 then 0 else 1) + mismatches l1 l2.
Proof.
  unfold mismatches. simpl. destruct (Ascii.eqb c1 c2); reflexivity.
Qed.

Lemma mismatches_sym l1 l2 : mismatches l1 l2 = mismatches l2 l1.
Proof.
  revert l2. induction l1 as [|c1 l1 IH]; intros [|c2 l2]; try reflexivity.
  rewrite !mismatches_cons, IH, ascii_eqb_sym. reflexivity.
Qed.

(** From position [i] of the first string and position [k] of the
    second, the loop runs to its end whenever the second string holds
    at least as many marks ahead as the first, and adds the number of
    places at which the marked characters differ. *)
Lemma transposition_fold a1 a2 m1 m2 n i k t :
  length (filter (fun x => nth x m1 false) (seq i n))
  <= length (filter (fun x => nth x m2 false) (seq k (length m2 - k))) ->
  exists kf,
    fold_left (transpositionStep a1 a2 m1 m2) (seq i n) (Some (k, t))
    = Some (kf,
            t + mismatches
                  (map (charAt a1) (filter (fun x => nth x m1 false) (seq i n)))
                  (map (charAt a2)
                       (filter (fun x => nth x m2 false)
                               (seq k (length m2 - k))))).
Proof.
  revert i k t. induction n as [|n IH]; intros i k t H.
  - exists k. simpl. f_equal. f_equal. unfold mismatches. simpl. lia.
  - change (seq i (S n)) with (i :: seq (S i) n) in *.
    change (fold_left (transpositionStep a1 a2 m1 m2) (i :: seq (S i) n)
              (Some (k, t)))
      with (fold_left (transpositionStep a1 a2 m1 m2) (seq (S i) n)
              (transpositionStep a1 a2 m1 m2 (Some (k, t)) i)).
    simpl filter in *.
    unfold transpositionStep at 2.
    destruct (nth i m1 false) eqn:Hi; simpl negb; cbv iota.
    + rewrite skipUnmatched_spec by lia.
      destruct (find (fun j => nth j m2 false) (seq k (length m2 - k)))
        as [k'|] eqn:Hf.
      * destruct (find_seq_Some _ _ _ _ Hf) as [Hb Heq].
        rewrite Heq in *. simpl in H.
        replace (k + (length m2 - k) - S k') with (length m2 - S k') in * by lia.
        destruct (IH (S i) (S k')
                     (if Ascii.eqb (charAt a1 i) (charAt a2 k') then t else S t))
          as [kf Hkf]; [lia|].
        exists kf. rewrite Hkf. f_equal. f_equal.
        simpl map. rewrite mismatches_cons.
        destruct (Ascii.eqb (charAt a1 i) (charAt a2 k')); lia.
      * rewrite (find_seq_None _ _ _ Hf) in H. simpl in H. lia.
    + apply IH. assumption.
Qed.

Lemma countTranspositions_spec a1 a2 m1 m2 :
  length m1 = length a1 ->
  length (marked m1) <= length (marked m2) ->
  countTranspositions a1 a2 m1 m2
  = Some (mismatches (map (charAt a1) (marked m1))
                     (map (charAt a2) (marked m2))).
Proof.
  intros Hlen Hle. unfold countTranspositions, marked in *.
  rewrite Hlen in *.
  destruct (transposition_fold a1 a2 m1 m2 (length a1) 0 0 0) as [kf Hkf].
  - rewrite Nat.sub_0_r. assumption.
  - rewrite Hkf. simpl. rewrite Nat.sub_0_r. reflexivity.
Qed.

(** *** Jaro similarity: termination and symmetry *)

Lemma jaroFormula_sym len1 len2 m t :
  (jaroFormula len1 len2 m t == jaroFormula len2 len1 m t)%Q.
Proof. unfold jaroFormula, Qdiv. ring. Qed.

Lemma jaroRun_sym s1 s2 :
  exists q q',
    jaroRun s1 s2 = Some q /\ jaroRun s2 s1 = Some q' /\ (q == q')%Q.
Proof.
  unfold jaroRun.
  set (a1 := list_ascii_of_string s1). set (a2 := list_ascii_of_string s2).
  destruct (length a1 =? 0) eqn:E1, (length a2 =? 0) eqn:E2; simpl.
  - exists 1%Q, 1%Q. repeat split; reflexivity.
  - exists 0%Q, 0%Q. repeat split; reflexivity.
  - exists 0%Q, 0%Q. repeat split; reflexivity.
  - destruct (findMatches_sym a1 a2) as (F1 & F2 & Fm).
    destruct (marked_lengths a1 a2) as [M1 M2]. simpl in M1, M2.
    destruct (findMatches_spec a1 a2) as (L1 & L2 & _).
    rewrite Fm, F1, F2.
    destruct (matches (findMatches a1 a2) =? 0).
    + exists 0%Q, 0%Q. repeat split; reflexivity.
    + rewrite !countTranspositions_spec by (simpl in *; lia).
      simpl. eexists. eexists. split; [reflexivity|]. split; [reflexivity|].
      rewrite mismatches_sym. apply jaroFormula_sym.
Qed.

Lemma jaroRun_terminates s1 s2 : exists q, jaroRun s1 s2 = Some q.
Proof.
  destruct (jaroRun_sym s1 s2) as (q & _ & H & _). exists q. exact H.
Qed.

Lemma jaroSimilarity_sym s1 s2 :
  (jaroSimilarity s1 s2 == jaroSimilarity s2 s1)%Q.
Proof.
  unfold jaroSimilarity.
  destruct (jaroRun_sym s1 s2) as (q & q' & -> & -> & H). exact H.
Qed.

End JaroFacts.

Module SimilarityFacts.
Import JS Dedup JaroFacts.
Local Open Scope Q_scope.

Lemma commonPrefixLength_sym s1 s2 :
  commonPrefixLength s1 s2 = commonPrefixLength s2 s1.
Proof.
  revert s2. induction s1 as [|c1 r1 IH]; intros [|c2 r2]; simpl; try reflexivity.
  rewrite ascii_eqb_sym, IH. reflexivity.
Qed.

(** C7, what the code does at the empty string: the similarity of the
    empty string with itself is 0, not 1. *)
Lemma empty_strings_score_zero :
  ~ calculateStringSimilarity EmptyString EmptyString == 1.
Proof. vm_compute. discriminate. Qed.

(** C7, as amended.  The string similarity is symmetric; it is 1 on
    two equal non-empty strings; and it is 0 as soon as one input is
    empty, two empty inputs included. *)
Theorem calculateStringSimilarity_symmetric (a b : string) (c : ascii) :
  calculateStringSimilarity a b == calculateStringSimilarity b a
  /\ calculateStringSimilarity (String c a) (String c a) == 1
  /\ calculateStringSimilarity a EmptyString == 0
  /\ calculateStringSimilarity EmptyString a == 0.
Proof.
  split; [|split; [|split]].
  - unfold calculateStringSimilarity.
    rewrite (orb_comm (negb (truthyStr b))), (String.eqb_sym b a).
    destruct (negb (truthyStr a) || negb (truthyStr b)); [reflexivity|].
    destruct (String.eqb a b); [reflexivity|].
    rewrite (commonPrefixLength_sym (toLowerCase b)).
    apply Q.min_compat; [reflexivity|].
    rewrite (jaroSimilarity_sym (toLowerCase a) (toLowerCase b)).
    reflexivity.
  - unfold calculateStringSimilarity. simpl truthyStr. simpl negb. simpl orb.
    rewrite String.eqb_refl. reflexivity.
  - unfold calculateStringSimilarity. simpl. rewrite orb_true_r. reflexivity.
  - reflexivity.
Qed.

(** C8, as stated: the value is not within 0.001 of 0.974. *)
Lemma jaro_winkler_value_off_0974 :
  ~ (973 # 1000 <= calculateStringSimilarity "read_file" "read_files"
     /\ calculateStringSimilarity "read_file" "read_files" <= 975 # 1000).
Proof.
  intros [_ H]. vm_compute in H. apply H. reflexivity.
Qed.

(** C8, as amended.  The similarity of [read_file] and [read_files] is
    0.98: nine matches, no transposition, a common prefix of four. *)
Theorem read_file_similarity :
  calculateStringSimilarity "read_file" "read_files" == 98 # 100
  /\ matches (findMatches (list_ascii_of_string "read_file")
                          (list_ascii_of_string "read_files")) = 9%nat
  /\ commonPrefixLength "read_file" "read_files" = 9%nat.
Proof.
  repeat split; vm_compute; reflexivity.
Qed.

End SimilarityFacts.

(* ================================================================== *)
(** ** Deduplication statistics and routing *)
(* ================================================================== *)

Module DedupFacts.
Import JS SDK Dedup Scenarios.
Local Open Scope nat_scope.
Local Open Scope list_scope.

Lemma ofNat_nonzero n : n <> 0 -> ~ (ofNat n == 0)%Q.
Proof.
  intros Hn H. unfold ofNat, Qeq in H. simpl in H. lia.
Qed.

(** With the engine switched off [mergeTools] returns no tool, and the
    statistics are computed from that empty list. *)
Lemma getStats_disabled config tools :
  enabled config = false -> tools <> [] ->
  totalTools (getStats config tools) = length tools
  /\ mergedGroups (getStats config tools) = 0
  /\ (avgConfidence (getStats config tools) == 0)%Q
  /\ (reductionPercentage (getStats config tools) == 100)%Q.
Proof.
  intros Hoff Hne. unfold getStats, mergeTools. rewrite Hoff. simpl.
  split; [reflexivity|]. split; [reflexivity|]. split; [reflexivity|].
  destruct tools as [|t r]; [congruence|].
  simpl length. change (0 <? S (length r)) with true. cbv iota.
  change (ofNat 0) with 0%Q.
  field. apply ofNat_nonzero. discriminate.
Qed.

Lemma handleConfigureDeduplication_servers s args :
  Meta.servers (snd (Meta.handleConfigureDeduplication s args)) = Meta.servers s.
Proof.
  unfold Meta.handleConfigureDeduplication. simpl.
  destruct (Meta.isSome (Meta.argEnabled args)
            || Meta.isSome (Meta.argSimilarityThreshold args)
            || Meta.isSome (Meta.argAutoMerge args)); [|reflexivity].
  destruct (Meta.isSome (Meta.argEnabled args)); reflexivity.
Qed.

(** C10.  Once deduplication is disabled and some connected provider
    offers a tool, the statistics [configure_deduplication] returns on
    request are those of [getStats] on the current tools, and they
    report no merged group, an average confidence of 0 and a reduction
    of 100 percent. *)
Theorem disabled_dedup_stats (s : Meta.MCPMetaServer) (args : Meta.ConfigureArgs) :
  Meta.argGetStats args = true ->
  enabled (Meta.resConfig (fst (Meta.handleConfigureDeduplication s args))) = false ->
  Meta.connectedServerTools s <> [] ->
  exists stats,
    Meta.resStats (fst (Meta.handleConfigureDeduplication s args)) = Some stats
    /\ stats = getStats (Meta.resConfig (fst (Meta.handleConfigureDeduplication s args)))
                        (Meta.connectedServerTools s)
    /\ totalTools stats = length (Meta.connectedServerTools s)
    /\ mergedGroups stats = 0
    /\ (avgConfidence stats == 0)%Q
    /\ (reductionPercentage stats == 100)%Q.
Proof.
  intros Hget Hoff Hne.
  pose proof (handleConfigureDeduplication_servers s args) as Hsrv.
  unfold Meta.handleConfigureDeduplication in *. simpl in *.
  rewrite Hget.
  set (s1 := if Meta.isSome (Meta.argEnabled args)
                || Meta.isSome (Meta.argSimilarityThreshold args)
                || Meta.isSome (Meta.argAutoMerge args) then _ else s) in *.
  assert (Meta.connectedServerTools s1 = Meta.connectedServerTools s) as Htools
      by (unfold Meta.connectedServerTools; rewrite Hsrv; reflexivity).
  eexists. split; [reflexivity|]. rewrite Htools.
  split; [reflexivity|].
  apply getStats_disabled; assumption.
Qed.

Lemma disabled_dedup_stats_witness :
  Meta.argGetStats disableArgs = true
  /\ enabled (Meta.resConfig
                (fst (Meta.handleConfigureDeduplication serverP disableArgs)))
     = false
  /\ Meta.connectedServerTools serverP <> []
  /\ exists stats,
       Meta.resStats (fst (Meta.handleConfigureDeduplication serverP disableArgs))
       = Some stats
       /\ stats = getStats
                    (Meta.resConfig
                       (fst (Meta.handleConfigureDeduplication serverP disableArgs)))
                    (Meta.connectedServerTools serverP)
       /\ totalTools stats = length (Meta.connectedServerTools serverP)
       /\ mergedGroups stats = 0
       /\ (avgConfidence stats == 0)%Q
       /\ (reductionPercentage stats == 100)%Q.
Proof.
  assert (H1 : Meta.argGetStats disableArgs = true) by reflexivity.
  assert (H2 : enabled (Meta.resConfig
                 (fst (Meta.handleConfigureDeduplication serverP disableArgs)))
               = false) by reflexivity.
  assert (H3 : Meta.connectedServerTools serverP <> [])
    by (vm_compute; discriminate).
  split; [exact H1|]. split; [exact H2|]. split; [exact H3|].
  exact (disabled_dedup_stats serverP disableArgs H1 H2 H3).
Defined.

End DedupFacts.

Module RoutingFacts.
Import JS SDK Meta Scenarios.
Local Open Scope nat_scope.
Local Open Scope list_scope.

Section Routing.
Variable provider : string -> string -> option json -> Z -> (json + string) * Z.

Lemma updateMetrics_servers s sid tn ok rt now :
  servers (updateMetrics s sid tn ok rt now) = servers s.
Proof.
  unfold updateMetrics.
  destruct (mapGet (performanceMetrics s) sid) as [m|]; [|reflexivity].
  destruct (mapGet m tn); reflexivity.
Qed.

Lemma updateMetrics_requests s sid tn ok rt now :
  requests (updateMetrics s sid tn ok rt now) = requests s.
Proof.
  unfold updateMetrics.
  destruct (mapGet (performanceMetrics s) sid) as [m|]; [|reflexivity].
  destruct (mapGet m tn); reflexivity.
Qed.

(** A call on a connected provider leaves the registry as it is and
    sends at most one request, exactly one when it fails. *)
Lemma executeToolCall_effect s sid tn args now :
  serverConnected s sid = true ->
  let '(out, s', _) := executeToolCall provider s sid tn args now in
  servers s' = servers s
  /\ (requests s' = requests s
      \/ requests s' = requests s
                       ++ [ {| reqServer := sid; reqTool := tn; reqArgs := args |} ])
  /\ (forall m, out = Err m ->
      requests s' = requests s
                    ++ [ {| reqServer := sid; reqTool := tn; reqArgs := args |} ]).
Proof.
  intros Hc. unfold executeToolCall. rewrite Hc. simpl negb. cbv iota.
  destruct (Cache.get (cache s) (cacheKey sid tn args) now) as [cached c1].
  destruct (match cached with
            | Some v => if truthy v then Some v else None
            | None => None
            end) as [v|].
  - simpl. repeat split; auto. intros m H. discriminate.
  - destruct (provider sid tn args now) as [[result|message] rt]; simpl;
      rewrite updateMetrics_servers, updateMetrics_requests; simpl;
      repeat split; auto; intros m H; discriminate.
Qed.

Lemma filter_connected_ext s s' (l : list Candidate) :
  servers s' = servers s ->
  filter (fun c => serverConnected s' (candServer c)) l
  = filter (fun c => serverConnected s (candServer c)) l.
Proof.
  intros H. apply filter_ext. intros c. unfold serverConnected. rewrite H.
  reflexivity.
Qed.

(** The loop sends its requests to the connected candidates in their
    order, and has sent one to each of them when it ends without a
    result. *)
Lemma tryServers_requests candidates :
  forall s args now lastError,
    let r := tryServers provider s candidates args now lastError in
    let live := filter (fun c => serverConnected s (candServer c)) candidates in
    servers (Claims.stateOf r) = servers s
    /\ exists n,
         requests (Claims.stateOf r)
         = requests s ++ map (Claims.requestOf args) (firstn n live)
         /\ (forall x, r = inr x -> n = length live).
Proof.
  induction candidates as [|c rest IH]; intros s args now lastError; simpl.
  - split; [reflexivity|]. exists 0. simpl. rewrite app_nil_r. auto.
  - destruct (serverConnected s (candServer c)) eqn:Hc; simpl.
    + pose proof (executeToolCall_effect s (candServer c) (candTool c) args now Hc)
        as He.
      destruct (executeToolCall provider s (candServer c) (candTool c) args now)
        as [[out s1] now1].
      destruct He as (Hsrv & Hreq & Herr).
      destruct out as [v|message].
      * simpl. split; [assumption|].
        destruct Hreq as [Hreq|Hreq].
        -- exists 0. simpl. rewrite app_nil_r. split; [assumption|].
           intros x H. discriminate.
        -- exists 1. simpl. split; [assumption|].
           intros x H. discriminate.
      * specialize (Herr message eq_refl).
        destruct (IH s1 args now1 (Some message)) as (Hsrv' & n & Hn & Hall).
        split; [congruence|].
        exists (S n). rewrite Hn, Herr.
        rewrite (filter_connected_ext s s1 rest Hsrv) in *.
        simpl. rewrite <- app_assoc. simpl.
        split; [reflexivity|].
        intros x Hx. f_equal. apply (Hall x Hx).
    + apply IH.
Qed.


(** The loop only stops early on a result. *)
Lemma tryServers_result candidates :
  forall s args now lastError out s1 now1,
    tryServers provider s candidates args now lastError = inl (out, s1, now1) ->
    exists v, out = Ok v.
Proof.
  induction candidates as [|c rest IH]; intros s args now le out s1 now1 H;
    simpl in H.
  - discriminate.
  - destruct (serverConnected s (candServer c)); simpl in H; [|eauto].
    destruct (executeToolCall provider s (candServer c) (candTool c) args now)
      as [[[v|msg] s2] now2].
    + inversion H; subst. eauto.
    + eauto.
Qed.

(** *** Ranking *)

Lemma sortInsert_perm {A} (cmp : A -> A -> Q) x l :
  Permutation (Dedup.sortInsert cmp x l) (x :: l).
Proof.
  induction l as [|y r IH]; simpl; [reflexivity|].
  destruct (Dedup.gtb (cmp x y) 0); [|reflexivity].
  rewrite IH. apply perm_swap.
Qed.

Lemma sortWith_perm {A} (cmp : A -> A -> Q) l :
  Permutation (Dedup.sortWith cmp l) l.
Proof.
  induction l as [|x r IH]; simpl; [reflexivity|].
  rewrite sortInsert_perm. apply perm_skip. exact IH.
Qed.

Lemma gtb_diff_true (x y : Q) :
  Dedup.gtb (y - x) 0 = true -> (x <= y)%Q.
Proof.
  unfold Dedup.gtb. rewrite negb_true_iff. intros H.
  apply Qlt_le_weak. apply Qnot_le_lt. intros Hle.
  assert (Qle_bool (y - x) 0 = true) as Hb.
  { apply Qle_bool_iff. apply (Qplus_le_l _ _ x). ring_simplify. exact Hle. }
  congruence.
Qed.

Lemma gtb_diff_false (x y : Q) :
  Dedup.gtb (y - x) 0 = false -> (y <= x)%Q.
Proof.
  unfold Dedup.gtb. rewrite negb_false_iff. intros H.
  apply Qle_bool_iff in H. apply (Qplus_le_l _ _ x) in H.
  ring_simplify in H. exact H.
Qed.

(** Sorting with the comparator [b.score - a.score] ranks by
    descending score. *)
Lemma sortWith_descending {A} (key : A -> Q) l :
  StronglySorted (fun a b => (key b <= key a)%Q)
                 (Dedup.sortWith (fun a b => (key b - key a)%Q) l).
Proof.
  induction l as [|x r IH]; simpl; [constructor|].
  set (cmp := fun a b : A => (key b - key a)%Q) in *.
  induction IH as [|y sorted Hs IHs Hall]; simpl.
  - repeat constructor.
  - destruct (Dedup.gtb (cmp x y) 0) eqn:Hg.
    + constructor; [exact IHs|].
      apply (Permutation_Forall (Permutation_sym (sortInsert_perm cmp x sorted))).
      constructor; [|exact Hall].
      apply gtb_diff_true. exact Hg.
    + apply gtb_diff_false in Hg.
      constructor; [constructor; assumption|].
      constructor; [exact Hg|].
      eapply Forall_impl; [|exact Hall].
      intros b Hb. simpl in Hb. eapply Qle_trans; eassumption.
Qed.





End Routing.


End RoutingFacts.

(* ================================================================== *)
(** ** Cache keys *)
(* ================================================================== *)

Module CacheKeyFacts.
Import JS SDK Claims Scenarios.
Local Open Scope nat_scope.
Local Open Scope list_scope.

(** *** Equal values with the same key order are the same value *)

Lemma same_members f f' :
  NoDup (map fst f) -> Permutation f f' -> map (@fst string json) f = map fst f' ->
  f = f'.
Proof.
  revert f'. induction f as [|[k v] r IH]; intros f' Hnd Hperm Hkeys.
  - apply Permutation_nil in Hperm. congruence.
  - destruct f' as [|[k' v'] r']; [discriminate|].
    simpl in Hkeys. inversion Hkeys as [[Hk Hr]]. subst k'.
    inversion Hnd as [|? ? Hnotin Hnd']; subst.
    assert (v = v') as <-.
    { assert (In (k, v) ((k, v') :: r')) as Hin
          by (apply (Permutation_in _ Hperm); left; reflexivity).
      destruct Hin as [Hin|Hin]; [congruence|].
      exfalso. apply Hnotin. rewrite Hr. apply (in_map fst _ _ Hin). }
    f_equal. apply IH; auto.
    apply (Permutation_cons_inv Hperm).
Qed.

Lemma Forall2_keys (f1 f2 : list (string * json)) R :
  Forall2 (fun m1 m2 => fst m1 = fst m2 /\ R (snd m1) (snd m2)) f1 f2 ->
  map fst f1 = map fst f2.
Proof.
  induction 1 as [|m1 m2 r1 r2 [Hk _] _ IH]; simpl; congruence.
Qed.

Theorem equal_values_same_order (a : json) :
  forall v, uniqueKeys a -> jsonEquiv a v -> sameKeyOrder a v -> a = v.
Proof.
  induction a as [ | | | |items IH|fields IH] using json_induction;
    intros v Hu He Hs; inversion He; subst; try reflexivity.
  - f_equal. simpl in Hu, Hs.
    match goal with H : Forall2 jsonEquiv _ _ |- _ => rename H into H2 end.
    clear He. revert IH Hu Hs.
    induction H2 as [|x y r1 r2 Hxy _ IHr]; intros IH Hu Hs.
    + reflexivity.
    + inversion IH; subst. destruct Hu as [Hux Hur]. destruct Hs as [Hsx Hsr].
      f_equal; auto.
  - match goal with
    | H : Permutation _ _, H' : Forall2 _ _ _ |- _ =>
        rename H into Hperm; rename H' into H2
    end.
    simpl in Hu, Hs. destruct Hu as [Hnd Hu]. destruct Hs as [Hkeys Hs].
    assert (fields = f1') as <-.
    { apply same_members; auto.
      rewrite Hkeys. symmetry. apply (Forall2_keys _ _ _ H2). }
    f_equal. clear Hperm Hnd Hkeys He.
    revert IH Hu Hs. induction H2 as [|[k x] [k' y] r1 r2 [Hk Hxy] _ IHr];
      intros IH Hu Hs.
    + reflexivity.
    + simpl in Hk. subst k'. inversion IH; subst.
      destruct Hu as [Hux Hur]. destruct Hs as [Hsx Hsr].
      simpl in *. f_equal; [f_equal|]; auto.
Qed.


(** *** [JSON.stringify] adds no whitespace *)

Lemma countIf_append p s1 s2 :
  countIf p (s1 ++ s2)%string = countIf p s1 + countIf p s2.
Proof.
  induction s1 as [|c r IH]; simpl; [reflexivity|]. rewrite IH. lia.
Qed.

Lemma escapeChar_whitespace c :
  countWhitespace (escapeChar c) = if isSpace c then 1 else 0.
Proof.
  destruct c as [[] [] [] [] [] [] [] []]; reflexivity.
Qed.

Lemma escapeString_whitespace s :
  countWhitespace (escapeString s) = countIf isSpace s.
Proof.
  induction s as [|c r IH]; simpl; [reflexivity|].
  unfold countWhitespace in *. rewrite countIf_append, IH.
  f_equal. apply escapeChar_whitespace.
Qed.

Lemma quoteJSON_whitespace s :
  countWhitespace (quoteJSON s) = countIf isSpace s.
Proof.
  unfold quoteJSON, countWhitespace. simpl.
  rewrite countIf_append. simpl.
  rewrite <- escapeString_whitespace. unfold countWhitespace. lia.
Qed.

Lemma digits_whitespace d :
  countWhitespace (NilEmpty.string_of_uint d) = 0.
Proof.
  induction d; simpl; auto.
Qed.

Lemma numberToString_whitespace n : countWhitespace (numberToString n) = 0.
Proof.
  assert (forall d, countWhitespace (NilZero.string_of_uint d) = 0) as H.
  { intros d. unfold NilZero.string_of_uint.
    destruct d; try reflexivity; apply digits_whitespace. }
  unfold numberToString, NilZero.string_of_int.
  destruct (Z.to_int n) as [d|d]; [apply H|].
  unfold countWhitespace. simpl. apply H.
Qed.

Lemma join_comma_whitespace parts :
  countWhitespace (join "," parts)
  = fold_right (fun p n => countWhitespace p + n) 0 parts.
Proof.
  induction parts as [|p r IH]; [reflexivity|].
  destruct r as [|q r'].
  - simpl. lia.
  - change (join "," (p :: q :: r'))
      with (p ++ "," ++ join "," (q :: r'))%string.
    unfold countWhitespace in *.
    rewrite !countIf_append, IH. simpl. lia.
Qed.

Lemma member_whitespace k x :
  countWhitespace (quoteJSON k ++ ":" ++ stringify x)%string
  = countIf isSpace k + countWhitespace (stringify x).
Proof.
  unfold countWhitespace. rewrite !countIf_append.
  fold (countWhitespace (quoteJSON k)). rewrite quoteJSON_whitespace.
  reflexivity.
Qed.

(** The whitespace of the output is the spaces of the strings of the
    value: the serializer adds none, and escapes tabs and line ends. *)
Lemma bracket_whitespace (o c : ascii) (body : string) :
  isWhitespace o = false -> isWhitespace c = false ->
  countWhitespace (String o (body ++ String c EmptyString))
  = countWhitespace body.
Proof.
  intros Ho Hc. unfold countWhitespace. simpl. rewrite Ho.
  rewrite countIf_append. simpl. rewrite Hc. lia.
Qed.

Theorem stringify_whitespace (v : json) :
  countWhitespace (stringify v) = spacesIn v.
Proof.
  induction v as [ | | | |items IH|fields IH] using json_induction.
  - reflexivity.
  - destruct b; reflexivity.
  - apply numberToString_whitespace.
  - apply quoteJSON_whitespace.
  - change (stringify (JArr items))
      with (String "["
              (join "," (map stringify items) ++ String "]" EmptyString)).
    rewrite bracket_whitespace by reflexivity.
    rewrite join_comma_whitespace.
    induction IH as [|x r Hx _ IHr]; [reflexivity|].
    cbn [map spacesIn fold_right] in *.
    rewrite Hx, IHr. reflexivity.
  - change (stringify (JObj fields))
      with (String "{"
              (join ","
                 (map (fun '(k, x) => quoteJSON k ++ ":" ++ stringify x)%string
                      fields)
               ++ String "}" EmptyString)).
    rewrite bracket_whitespace by reflexivity.
    rewrite join_comma_whitespace.
    induction IH as [|[k x] r Hx _ IHr]; [reflexivity|].
    cbn [map spacesIn fold_right fst snd] in *.
    rewrite IHr, member_whitespace, Hx. reflexivity.
Qed.

(** C3, as stated: two argument objects with the same members in a
    different order are equal as JSON values and get different keys. *)
Lemma reordered_arguments_change_the_key :
  jsonEquiv argsAB argsBA
  /\ Meta.cacheKey "P" "read" (Some argsAB)
     <> Meta.cacheKey "P" "read" (Some argsBA).
Proof.
  split.
  - apply (EquivObj _ [("b", JNum 2); ("a", JNum 1)]).
    + apply perm_swap.
    + repeat constructor.
  - vm_compute. discriminate.
Qed.

Import Decode.

(** *** Reading a key back *)

Lemma append_assoc (a b c : string) : ((a ++ b) ++ c = a ++ (b ++ c))%string.
Proof. induction a as [|x a IH]; simpl; [reflexivity|]. rewrite IH. reflexivity. Qed.

Lemma append_nil_r (a : string) : (a ++ EmptyString)%string = a.
Proof. induction a as [|x a IH]; simpl; [reflexivity|]. rewrite IH. reflexivity. Qed.

Lemma append_cancel_l (p a b : string) : (p ++ a = p ++ b)%string -> a = b.
Proof.
  induction p as [|x p IH]; simpl; intros H; [exact H|].
  injection H as H. apply IH. exact H.
Qed.

(** **** Strings *)

Lemma unescapeHead_escapeChar c t :
  unescapeHead (escapeChar c ++ t) = Some (c, t).
Proof.
  destruct c as [[|] [|] [|] [|] [|] [|] [|] [|]]; reflexivity.
Qed.

Lemma unescapeHead_quote t : unescapeHead (String dquote t) = None.
Proof. reflexivity. Qed.

Lemma escapeString_cancel s :
  forall s' r r',
    (escapeString s ++ String dquote r
     = escapeString s' ++ String dquote r')%string ->
    s = s' /\ r = r'.
Proof.
  induction s as [|c s IH]; intros [|c' s'] r r' H; cbn [escapeString] in H.
  - simpl in H. injection H as H. auto.
  - apply (f_equal unescapeHead) in H.
    rewrite append_assoc, unescapeHead_escapeChar in H. discriminate.
  - apply (f_equal unescapeHead) in H.
    rewrite append_assoc, unescapeHead_escapeChar in H. discriminate.
  - apply (f_equal unescapeHead) in H.
    rewrite !append_assoc, !unescapeHead_escapeChar in H.
    injection H as Hc Ht. destruct (IH _ _ _ Ht) as [-> ->]. subst. auto.
Qed.

Lemma quoteJSON_cancel s s' r r' :
  (quoteJSON s ++ r = quoteJSON s' ++ r')%string -> s = s' /\ r = r'.
Proof.
  unfold quoteJSON. cbn [append]. intros H. injection H as H.
  rewrite !append_assoc in H. exact (escapeString_cancel _ _ _ _ H).
Qed.

(** **** Numbers *)

Lemma digits_cancel d1 :
  forall d2 r r',
    allDigits d1 -> allDigits d2 -> delimited r -> delimited r' ->
    (d1 ++ r = d2 ++ r')%string -> d1 = d2 /\ r = r'.
Proof.
  unfold allDigits.
  induction d1 as [|c d1 IH]; intros [|c' d2] r r' H1 H2 Hr Hr' H;
    cbn [append list_ascii_of_string forallb] in *.
  - auto.
  - subst r. cbn [delimited] in Hr. apply andb_prop in H2. destruct H2 as [H2 _].
    congruence.
  - subst r'. cbn [delimited] in Hr'. apply andb_prop in H1.
    destruct H1 as [H1 _]. congruence.
  - injection H as Hc Ht. apply andb_prop in H1, H2.
    destruct (IH d2 r r' (proj2 H1) (proj2 H2) Hr Hr' Ht) as [-> ->].
    subst. auto.
Qed.

Lemma string_of_uint_digits d : allDigits (NilEmpty.string_of_uint d).
Proof. unfold allDigits. induction d; simpl; auto. Qed.

Lemma string_of_uint_digits' d : allDigits (NilZero.string_of_uint d).
Proof. destruct d; try apply string_of_uint_digits. reflexivity. Qed.

Lemma headKind_digits d r :
  headKind (NilZero.string_of_uint d ++ r) = 4.
Proof. destruct d; reflexivity. Qed.

Lemma to_int_proper n :
  Z.to_int n <> Decimal.Pos Decimal.Nil /\ Z.to_int n <> Decimal.Neg Decimal.Nil.
Proof.
  destruct n as [|p|p]; simpl; split; try discriminate; intros H;
    injection H as H; exact (DecimalPos.Unsigned.to_uint_nonnil p H).
Qed.

Lemma numberToString_injective n m :
  numberToString n = numberToString m -> n = m.
Proof.
  unfold numberToString. intros H.
  apply (f_equal NilZero.int_of_string) in H.
  destruct (to_int_proper n) as [Hn1 Hn2], (to_int_proper m) as [Hm1 Hm2].
  rewrite !NilZero.isi in H by assumption.
  injection H as H. apply (f_equal Z.of_int) in H.
  rewrite !DecimalZ.of_to in H. exact H.
Qed.

Lemma numberToString_cancel n m r r' :
  delimited r -> delimited r' ->
  (numberToString n ++ r = numberToString m ++ r')%string ->
  n = m /\ r = r'.
Proof.
  intros Hr Hr' H.
  assert (He : numberToString n = numberToString m /\ r = r').
  { unfold numberToString in *.
    destruct (Z.to_int n) as [d1|d1], (Z.to_int m) as [d2|d2];
      cbn [NilZero.string_of_int append] in *.
    - apply digits_cancel; auto using string_of_uint_digits'.
    - destruct d1; cbn in H; discriminate.
    - destruct d2; cbn in H; discriminate.
    - injection H as H.
      destruct (digits_cancel _ _ _ _ (string_of_uint_digits' d1)
                  (string_of_uint_digits' d2) Hr Hr' H) as [-> ->].
      auto. }
  destruct He as [He ->]. split; [|reflexivity].
  apply numberToString_injective. exact He.
Qed.

(** **** The first character tells the kind of value *)

Lemma headKind_stringify v r : headKind (stringify v ++ r) = kindOf v.
Proof.
  destruct v as [|[|]|n|s|items|fields]; try reflexivity.
  cbn [stringify kindOf]. unfold numberToString.
  destruct (Z.to_int n) as [d|d]; cbn [NilZero.string_of_int];
    [apply headKind_digits|reflexivity].
Qed.

Lemma kindOf_same a b :
  kindOf a = kindOf b ->
  match a, b with
  | JNull, JNull => True
  | JBool x, JBool y => x = y
  | JNum _, JNum _ => True
  | JStr _, JStr _ => True
  | JArr _, JArr _ => True
  | JObj _, JObj _ => True
  | _, _ => False
  end.
Proof.
  destruct a as [|[|]|?|?|?|?], b as [|[|]|?|?|?|?]; simpl; intros H;
    try discriminate; auto.
Qed.

(** **** Lists of parts *)

Lemma join_cons p parts tail :
  (join "," (p :: parts) ++ tail = p ++ continued parts tail)%string.
Proof.
  destruct parts as [|q parts]; [reflexivity|].
  cbn [join continued]. rewrite !append_assoc. reflexivity.
Qed.

Lemma continued_cons p parts tail :
  continued (p :: parts) tail = ("," ++ (p ++ continued parts tail))%string.
Proof. unfold continued at 1. rewrite join_cons. reflexivity. Qed.

Lemma continued_delimited parts close r :
  Domain.isDigit close = false ->
  delimited (continued parts (String close r)).
Proof.
  intros H. destruct parts; [exact H|reflexivity].
Qed.

Section Parts.
Context {A : Type} (f : A -> string) (close : ascii).
Hypothesis close_not_digit : Domain.isDigit close = false.
Hypothesis close_not_comma : close <> ","%char.
Hypothesis close_not_first :
  forall x s r, (f x ++ s)%string <> String close r.

Lemma continued_cancel l :
  Forall (readable f) l ->
  forall l' r r',
    continued (map f l) (String close r)
    = continued (map f l') (String close r') ->
    l = l' /\ r = r'.
Proof.
  induction 1 as [|x l Hx _ IH]; intros [|y l'] r r' H.
  - cbn [map continued] in H. injection H as H. auto.
  - cbn [map continued append] in H. injection H as Hc _. congruence.
  - cbn [map continued append] in H. injection H as Hc _.
    symmetry in Hc. congruence.
  - cbn [map] in H. rewrite !continued_cons in H.
    apply append_cancel_l in H.
    destruct (Hx y _ _ H) as [-> Ht];
      try (apply continued_delimited; exact close_not_digit).
    destruct (IH _ _ _ Ht) as [-> ->]. auto.
Qed.

Lemma join_cancel l :
  Forall (readable f) l ->
  forall l' r r',
    (join "," (map f l) ++ String close r
     = join "," (map f l') ++ String close r')%string ->
    l = l' /\ r = r'.
Proof.
  intros Hl l' r r' H.
  destruct l as [|x l], l' as [|y l']; cbn [map] in H.
  - cbn [join append] in H. injection H as H. auto.
  - rewrite join_cons in H. cbn [join append] in H. symmetry in H.
    exfalso. exact (close_not_first _ _ _ H).
  - rewrite join_cons in H. cbn [join append] in H.
    exfalso. exact (close_not_first _ _ _ H).
  - rewrite !join_cons in H. inversion Hl as [|? ? Hx Hl']; subst.
    destruct (Hx y _ _ H) as [-> Ht];
      try (apply continued_delimited; exact close_not_digit).
    destruct (continued_cancel l Hl' _ _ _ Ht) as [-> ->]. auto.
Qed.

End Parts.

(** **** Values *)

Lemma kindOf_positive v : kindOf v <> 0.
Proof. destruct v as [|[|]| | | |]; discriminate. Qed.

Lemma stringify_not_closing x s c r :
  headKind (String c r) = 0 -> (stringify x ++ s)%string <> String c r.
Proof.
  intros Hc H. apply (f_equal headKind) in H.
  rewrite headKind_stringify, Hc in H. exact (kindOf_positive x H).
Qed.

Lemma member_readable m : readable stringify (snd m) -> readable member m.
Proof.
  intros Hx [k' x'] t t' H Ht Ht'. destruct m as [k x].
  unfold member in H. cbn [fst snd] in *.
  rewrite !append_assoc in H.
  destruct (quoteJSON_cancel _ _ _ _ H) as [-> H'].
  apply append_cancel_l in H'.
  destruct (Hx _ _ _ H' Ht Ht') as [-> ->]. auto.
Qed.

Lemma stringify_object fields :
  stringify (JObj fields)
  = ("{" ++ join "," (map member fields) ++ "}")%string.
Proof.
  cbn [stringify]. do 3 f_equal. apply map_ext. intros [k x]. reflexivity.
Qed.

(** What starts as the text of a value starts as the text of no other
    value: the text tells the value, with the members of its objects
    in their order. *)
Lemma stringify_readable v : readable stringify v.
Proof.
  induction v as [ |b|n|s|items IH|fields IH] using json_induction;
    intros y t t' H Ht Ht';
    pose proof (f_equal headKind H) as Hk;
    rewrite !headKind_stringify in Hk; apply kindOf_same in Hk;
    destruct y as [ |b'|n'|s'|items'|fields']; try contradiction.
  - apply append_cancel_l in H. auto.
  - subst b'. apply append_cancel_l in H. auto.
  - cbn [stringify] in H.
    destruct (numberToString_cancel _ _ _ _ Ht Ht' H) as [-> ->]. auto.
  - cbn [stringify] in H.
    destruct (quoteJSON_cancel _ _ _ _ H) as [-> ->]. auto.
  - cbn [stringify] in H. rewrite !append_assoc in H.
    apply append_cancel_l in H.
    assert (Hcomma : "]"%char <> ","%char) by discriminate.
    destruct (join_cancel stringify "]"%char eq_refl Hcomma
                (fun x s r => stringify_not_closing x s "]"%char r eq_refl)
                items IH _ _ _ H) as [-> ->].
    auto.
  - rewrite !stringify_object in H. rewrite !append_assoc in H.
    apply append_cancel_l in H.
    assert (IH' : Forall (readable member) fields).
    { eapply Forall_impl; [|exact IH]. exact member_readable. }
    assert (Hfirst : forall (m : string * json) s r,
               (member m ++ s)%string <> String "}" r).
    { intros [k x] s r. unfold member, quoteJSON. cbn [fst append].
      discriminate. }
    assert (Hcomma : "}"%char <> ","%char) by discriminate.
    destruct (join_cancel member "}"%char eq_refl Hcomma Hfirst fields IH'
                _ _ _ H) as [-> ->].
    auto.
Qed.

Lemma stringify_injective a b : stringify a = stringify b -> a = b.
Proof.
  intros H.
  destruct (stringify_readable a b EmptyString EmptyString) as [Hab _];
    [rewrite !append_nil_r; exact H|exact I|exact I|exact Hab].
Qed.

Lemma cacheKey_injective serverId toolName a b :
  Meta.cacheKey serverId toolName (Some a)
  = Meta.cacheKey serverId toolName (Some b) ->
  a = b.
Proof.
  unfold Meta.cacheKey, stringifyArg. intros H.
  do 4 apply append_cancel_l in H.
  apply stringify_injective. exact H.
Qed.

Lemma sameKeyOrder_refl a : sameKeyOrder a a.
Proof.
  induction a as [ | | | |items IH|fields IH] using json_induction;
    try exact I.
  - cbn [sameKeyOrder]. induction IH as [|x r Hx _ IHr]; [exact I|].
    split; assumption.
  - cbn [sameKeyOrder]. split; [reflexivity|].
    induction IH as [|[k x] r Hx _ IHr]; [exact I|].
    split; assumption.
Qed.

(** C3, as amended.  The cache key of a call is the provider id, the
    tool name and [JSON.stringify] of the arguments, joined by colons.
    The serializer adds no whitespace and writes the members of every
    object in the order the object lists them, unsorted: two
    argument objects that are equal as JSON values get the same key
    exactly when they list their members in the same order at every
    level.  The arguments are taken with safe integers for numbers,
    which are printed in full, and without keys made of digits, so
    that the order of the members is the order of insertion. *)
Theorem cacheKey_follows_member_order (serverId toolName : string)
    (a b : json) :
  Domain.safeIntegers a -> Domain.safeIntegers b ->
  Domain.plainKeys a -> Domain.plainKeys b ->
  uniqueKeys a -> jsonEquiv a b ->
  Meta.cacheKey serverId toolName (Some a)
  = (serverId ++ ":" ++ toolName ++ ":" ++ stringify a)%string
  /\ (Meta.cacheKey serverId toolName (Some a)
      = Meta.cacheKey serverId toolName (Some b)
      <-> sameKeyOrder a b)
  /\ countWhitespace (stringify a) = spacesIn a.
Proof.
  intros _ _ _ _ Hu He.
  split; [reflexivity|]. split.
  - split.
    + intros H. apply cacheKey_injective in H. subst b.
      apply sameKeyOrder_refl.
    + intros Hs. rewrite (equal_values_same_order a b Hu He Hs). reflexivity.
  - apply stringify_whitespace.
Qed.

Lemma cacheKey_follows_member_order_witness :
  Domain.safeIntegers argsAB /\ Domain.safeIntegers argsBA
  /\ Domain.plainKeys argsAB /\ Domain.plainKeys argsBA
  /\ uniqueKeys argsAB /\ jsonEquiv argsAB argsBA
  /\ Meta.cacheKey "P" "read" (Some argsAB)
     = ("P" ++ ":" ++ "read" ++ ":" ++ stringify argsAB)%string
  /\ (Meta.cacheKey "P" "read" (Some argsAB)
      = Meta.cacheKey "P" "read" (Some argsBA)
      <-> sameKeyOrder argsAB argsBA)
  /\ countWhitespace (stringify argsAB) = spacesIn argsAB.
Proof.
  assert (S1 : Domain.safeIntegers argsAB)
    by (cbn; unfold Domain.safeInteger; repeat split; cbn; lia).
  assert (S2 : Domain.safeIntegers argsBA)
    by (cbn; unfold Domain.safeInteger; repeat split; cbn; lia).
  assert (P1 : Domain.plainKeys argsAB) by (cbn; repeat split; reflexivity).
  assert (P2 : Domain.plainKeys argsBA) by (cbn; repeat split; reflexivity).
  assert (Hu : uniqueKeys argsAB).
  { simpl. split; [|tauto].
    repeat constructor; simpl; intuition discriminate. }
  assert (He : jsonEquiv argsAB argsBA).
  { apply (EquivObj _ [("b", JNum 2); ("a", JNum 1)]).
    - apply perm_swap.
    - repeat constructor. }
  split; [exact S1|]. split; [exact S2|]. split; [exact P1|].
  split; [exact P2|]. split; [exact Hu|]. split; [exact He|].
  exact (cacheKey_follows_member_order "P" "read" argsAB argsBA
           S1 S2 P1 P2 Hu He).
Defined.

End CacheKeyFacts.

(* ================================================================== *)
(** ** Deduplication applied twice *)
(* ================================================================== *)

Module IdempotenceFacts.
Import JS SDK Dedup Claims Scenarios.
Local Open Scope nat_scope.
Local Open Scope list_scope.

Lemma skipn_combine {A B} n (l1 : list A) (l2 : list B) :
  skipn n (combine l1 l2) = combine (skipn n l1) (skipn n l2).
Proof.
  revert l1 l2. induction n as [|n IH]; intros l1 l2; [reflexivity|].
  destruct l1 as [|x r1]; [reflexivity|].
  destruct l2 as [|y r2]; simpl.
  - destruct (skipn n r1); reflexivity.
  - apply IH.
Qed.

(** The entries of [indexed] still ahead once a prefix has been passed. *)
Lemma indexed_suffix {A} (pre suf : list A) :
  skipn (length pre) (indexed (pre ++ suf))
  = combine (seq (length pre) (length suf)) suf.
Proof.
  unfold indexed. rewrite skipn_combine, skipn_seq, skipn_app.
  rewrite skipn_all, Nat.sub_diag, length_app. simpl.
  f_equal. f_equal. lia.
Qed.

Lemma indexed_after {A} (pre : list A) t suf :
  skipn (S (length pre)) (indexed (pre ++ t :: suf))
  = combine (seq (S (length pre)) (length suf)) suf.
Proof.
  replace (pre ++ t :: suf) with ((pre ++ [t]) ++ suf)
    by (rewrite <- app_assoc; reflexivity).
  replace (S (length pre)) with (length (pre ++ [t]))
    by (rewrite length_app; simpl; lia).
  apply indexed_suffix.
Qed.




Section Distinct.
Variable config : DeduplicationConfig.





(** *** The two-stage path for large sets *)

Lemma has_cons j processed k :
  has (j :: processed) k = (k =? j) || has processed k.
Proof. reflexivity. Qed.

Lemma has_app l1 l2 k : has (l1 ++ l2) k = has l1 k || has l2 k.
Proof. unfold has. apply existsb_app. Qed.

Lemma has_rev l k : has (rev l) k = has l k.
Proof.
  induction l as [|x r IH]; [reflexivity|].
  simpl rev. rewrite has_app, IH. simpl. rewrite orb_false_r.
  apply orb_comm.
Qed.

Lemma nameCollect_spec ti l :
  NoDup (map fst l) ->
  forall group processed,
    fold_left (nameCollectStep ti) l (group, processed)
    = (group ++ map snd (filter (nameChosen ti processed) l),
       rev (map fst (filter (nameChosen ti processed) l)) ++ processed).
Proof.
  induction l as [|[j tj] r IH]; intros Hnd group processed.
  - simpl. rewrite app_nil_r. reflexivity.
  - inversion Hnd as [|? ? Hj Hr]; subst.
    cbn [fold_left filter].
    destruct (nameChosen ti processed (j, tj)) eqn:Hc.
    2:{ replace (nameCollectStep ti (group, processed) (j, tj))
          with (group, processed); [apply IH; exact Hr|].
        unfold nameCollectStep. unfold nameChosen in Hc. cbn [fst snd] in Hc.
        destruct (has processed j); [reflexivity|].
        simpl in Hc. rewrite Hc. reflexivity. }
    replace (nameCollectStep ti (group, processed) (j, tj))
      with (group ++ [tj], j :: processed).
    2:{ unfold nameCollectStep. unfold nameChosen in Hc. cbn [fst snd] in Hc.
        apply andb_prop in Hc. destruct Hc as [H1 H2].
        apply negb_true_iff in H1. rewrite H1, H2. reflexivity. }
    rewrite (IH Hr).
    assert (filter (nameChosen ti (j :: processed)) r = filter (nameChosen ti processed) r)
      as ->.
    { apply filter_ext_in. intros [k tk] Hin. unfold nameChosen. cbn [fst snd].
      rewrite has_cons.
      destruct (Nat.eqb_spec k j) as [->|Hne]; [|reflexivity].
      exfalso. apply Hj. apply (in_map fst _ _ Hin). }
    cbn [map rev fst snd]. rewrite <- !app_assoc. reflexivity.
Qed.

Lemma NoDup_indices {A} a (l : list A) :
  NoDup (map fst (combine (seq a (length l)) l)).
Proof.
  assert (map fst (combine (seq a (length l)) l) = seq a (length l)) as ->.
  { revert a. induction l as [|x r IH]; intros a; simpl; [reflexivity|].
    rewrite IH. reflexivity. }
  apply seq_NoDup.
Qed.

Lemma indices_above {A} a (l : list A) p :
  In p (combine (seq a (length l)) l) -> a <= fst p.
Proof.
  intros H. destruct p as [k x]. apply in_combine_l in H.
  apply in_seq in H. simpl. lia.
Qed.

Lemma fst_injective {A} (l : list (nat * A)) p q :
  NoDup (map fst l) -> In p l -> In q l -> fst p = fst q -> p = q.
Proof.
  induction l as [|x r IH]; intros Hnd Hp Hq Heq; [contradiction|].
  inversion Hnd as [|? ? Hx Hr]; subst.
  destruct Hp as [->|Hp], Hq as [->|Hq]; auto.
  - exfalso. apply Hx. rewrite Heq. apply (in_map fst _ _ Hq).
  - exfalso. apply Hx. rewrite <- Heq. apply (in_map fst _ _ Hp).
Qed.









End Distinct.


End IdempotenceFacts.

(* ================================================================== *)
(** ** Maps and single cache operations *)
(* ================================================================== *)

Module MapFacts.
Import JS.
Local Open Scope nat_scope.
Local Open Scope list_scope.

Lemma mapGet_mapSet_same {V} (m : Map V) k v : mapGet (mapSet m k v) k = Some v.
Proof.
  unfold mapGet. induction m as [|[k' x] r IH]; simpl.
  - rewrite String.eqb_refl. reflexivity.
  - destruct (String.eqb k k') eqn:E; simpl; rewrite E; auto.
Qed.

Lemma mapGet_mapSet_other {V} (m : Map V) k k' v :
  k <> k' -> mapGet (mapSet m k v) k' = mapGet m k'.
Proof.
  intros Hne. unfold mapGet. induction m as [|[k0 x] r IH]; simpl.
  - replace (String.eqb k' k) with false; [reflexivity|].
    symmetry. apply String.eqb_neq. congruence.
  - destruct (String.eqb k k0) eqn:E; simpl.
    + apply String.eqb_eq in E. subst k0.
      replace (String.eqb k' k) with false; [reflexivity|].
      symmetry. apply String.eqb_neq. congruence.
    + rewrite IH. reflexivity.
Qed.

Lemma mapGet_In {V} (m : Map V) k v : mapGet m k = Some v -> In (k, v) m.
Proof.
  unfold mapGet. induction m as [|[k' x] r IH]; simpl; [discriminate|].
  destruct (String.eqb_spec k k') as [->|Hne].
  - intros H. inversion H. left. reflexivity.
  - intros H. right. auto.
Qed.

Lemma mapGet_None {V} (m : Map V) k :
  mapGet m k = None <-> ~ In k (map fst m).
Proof.
  unfold mapGet. induction m as [|[k' x] r IH]; simpl.
  - tauto.
  - destruct (String.eqb_spec k k') as [->|Hne].
    + split; [discriminate|]. intros H. exfalso. apply H. left. reflexivity.
    + rewrite IH. split; intros H; [intros [E|Hin]; [congruence|tauto]|tauto].
Qed.

Lemma In_mapGet {V} (m : Map V) k v :
  NoDup (map fst m) -> In (k, v) m -> mapGet m k = Some v.
Proof.
  unfold mapGet. induction m as [|[k' x] r IH]; simpl; intros Hnd Hin.
  - contradiction.
  - inversion Hnd as [|? ? Hk Hr]; subst.
    destruct Hin as [E|Hin].
    + inversion E; subst. rewrite String.eqb_refl. reflexivity.
    + destruct (String.eqb_spec k k') as [->|Hne]; [|auto].
      exfalso. apply Hk. apply (in_map fst _ _ Hin).
Qed.

Lemma keys_mapSet {V} (m : Map V) k v x :
  In x (map fst (mapSet m k v)) <-> x = k \/ In x (map fst m).
Proof.
  induction m as [|[k' y] r IH]; simpl.
  - intuition.
  - destruct (String.eqb_spec k k') as [->|Hne]; simpl.
    + intuition.
    + rewrite IH. intuition.
Qed.

Lemma NoDup_mapSet {V} (m : Map V) k v :
  NoDup (map fst m) -> NoDup (map fst (mapSet m k v)).
Proof.
  induction m as [|[k' y] r IH]; simpl; intros Hnd.
  - repeat constructor. simpl. tauto.
  - inversion Hnd as [|? ? Hk Hr]; subst.
    destruct (String.eqb_spec k k') as [->|Hne]; simpl.
    + constructor; assumption.
    + constructor; [|auto]. rewrite keys_mapSet. intros [E|Hin]; congruence || tauto.
Qed.

Lemma keys_mapDelete {V} (m : Map V) k x :
  In x (map fst (mapDelete m k)) -> In x (map fst m).
Proof.
  induction m as [|[k' y] r IH]; simpl; [tauto|].
  destruct (String.eqb k k'); simpl; intuition.
Qed.

Lemma NoDup_mapDelete {V} (m : Map V) k :
  NoDup (map fst m) -> NoDup (map fst (mapDelete m k)).
Proof.
  induction m as [|[k' y] r IH]; simpl; intros Hnd; [constructor|].
  inversion Hnd as [|? ? Hk Hr]; subst.
  destruct (String.eqb k k'); simpl; [assumption|].
  constructor; [|auto]. intros Hin. apply Hk. apply (keys_mapDelete _ _ _ Hin).
Qed.

Lemma mapGet_mapDelete_same {V} (m : Map V) k :
  NoDup (map fst m) -> mapGet (mapDelete m k) k = None.
Proof.
  intros Hnd. apply mapGet_None.
  induction m as [|[k' y] r IH]; simpl; [tauto|].
  inversion Hnd as [|? ? Hk Hr]; subst.
  destruct (String.eqb_spec k k') as [->|Hne]; simpl; [assumption|].
  intros [E|Hin]; [congruence|]. apply IH; assumption.
Qed.

Lemma mapGet_mapDelete_other {V} (m : Map V) k k' :
  k <> k' -> mapGet (mapDelete m k) k' = mapGet m k'.
Proof.
  intros Hne. unfold mapGet. induction m as [|[k0 y] r IH]; simpl; [reflexivity|].
  destruct (String.eqb_spec k k0) as [->|Hne0]; simpl.
  - replace (String.eqb k' k0) with false; [reflexivity|].
    symmetry. apply String.eqb_neq. congruence.
  - rewrite IH. reflexivity.
Qed.

Lemma length_mapSet {V} (m : Map V) k v :
  length (mapSet m k v) = if mapHas m k then length m else S (length m).
Proof.
  unfold mapHas, mapGet. induction m as [|[k' y] r IH]; simpl; [reflexivity|].
  destruct (String.eqb k k'); simpl; [reflexivity|].
  rewrite IH. destruct (assoc k r); reflexivity.
Qed.

Lemma length_mapDelete {V} (m : Map V) k :
  length (mapDelete m k) = if mapHas m k then length m - 1 else length m.
Proof.
  unfold mapHas, mapGet. induction m as [|[k' y] r IH]; simpl; [reflexivity|].
  destruct (String.eqb k k'); simpl; [lia|].
  rewrite IH. destruct (assoc k r) eqn:E; [|reflexivity].
  destruct r; [discriminate|]. simpl. lia.
Qed.

Lemma mapHas_In {V} (m : Map V) k : mapHas m k = true <-> In k (map fst m).
Proof.
  unfold mapHas. destruct (mapGet m k) eqn:E.
  - split; [|reflexivity]. intros _. apply mapGet_In in E.
    apply (in_map fst _ _ E).
  - split; [discriminate|]. intros H. apply mapGet_None in E. contradiction.
Qed.

End MapFacts.

Module CacheMoreFacts.
Import JS Cache MapFacts Scenarios Runs.
Local Open Scope nat_scope.
Local Open Scope list_scope.

Lemma gtb_lt (a b : Q) : Dedup.gtb a b = true <-> (b < a)%Q.
Proof.
  unfold Dedup.gtb. rewrite negb_true_iff. split.
  - intros H. apply Qnot_le_lt. intros Hle. apply Qle_bool_iff in Hle. congruence.
  - intros H. apply not_true_is_false. intros Hle. apply Qle_bool_iff in Hle.
    apply (Qlt_not_le _ _ H Hle).
Qed.

Lemma gtb_le (a b : Q) : Dedup.gtb a b = false <-> (a <= b)%Q.
Proof.
  unfold Dedup.gtb. rewrite negb_false_iff. apply Qle_bool_iff.
Qed.

Lemma ltb_lt (a b : Q) : Dedup.ltb a b = true <-> (a < b)%Q.
Proof. apply (gtb_lt b a). Qed.

Lemma ltb_le (a b : Q) : Dedup.ltb a b = false <-> (b <= a)%Q.
Proof. apply (gtb_le b a). Qed.

Lemma evict_counters c now :
  totalRequests (evictLeastRecentlyUsed c now) = totalRequests c
  /\ totalHits (evictLeastRecentlyUsed c now) = totalHits c
  /\ toolTypeTTL (evictLeastRecentlyUsed c now) = toolTypeTTL c
  /\ defaultTTL (evictLeastRecentlyUsed c now) = defaultTTL c
  /\ maxSize (evictLeastRecentlyUsed c now) = maxSize c.
Proof.
  unfold evictLeastRecentlyUsed.
  destruct (fold_left _ (cache c) (None, now)) as [[k|] t]; auto.
  destruct (truthyStr k); auto.
Qed.

Lemma set_counters c key data customTTL toolType now :
  totalRequests (set c key data customTTL toolType now) = totalRequests c
  /\ totalHits (set c key data customTTL toolType now) = totalHits c
  /\ toolTypeTTL (set c key data customTTL toolType now) = toolTypeTTL c
  /\ defaultTTL (set c key data customTTL toolType now) = defaultTTL c
  /\ maxSize (set c key data customTTL toolType now) = maxSize c.
Proof.
  unfold set. destruct (shouldCache key data); simpl; auto.
  destruct (maxSize c <=? mapSize (cache c)); simpl; auto.
  apply evict_counters.
Qed.

Lemma set_stores c key data customTTL toolType now :
  shouldCache key data = true ->
  mapGet (cache (set c key data customTTL toolType now)) key
  = Some {| data := data;
            expiry := (inject_Z now + ttlOf c customTTL toolType)%Q;
            hitCount := 0;
            lastAccess := now;
            toolType := toolType |}.
Proof.
  intros Hs. unfold set. rewrite Hs. simpl.
  rewrite mapGet_mapSet_same. reflexivity.
Qed.

(** X1.  A value stored by [set] is returned by every [get] of its key
    made at least one millisecond before the entry expires, and the
    read counts as one request and one hit.  Times are JavaScript time
    values; the margin of one millisecond makes the statement hold
    whatever fraction of a millisecond the time to live carries. *)
Theorem set_then_get c key data customTTL toolType now now' :
  shouldCache key data = true ->
  Domain.timeValue now -> Domain.timeValue now' ->
  (inject_Z now' + 1 <= inject_Z now + ttlOf c customTTL toolType)%Q ->
  let c1 := set c key data customTTL toolType now in
  fst (get c1 key now') = Some data
  /\ totalRequests (snd (get c1 key now')) = S (totalRequests c)
  /\ totalHits (snd (get c1 key now')) = S (totalHits c).
Proof.
  intros Hs _ _ Hmargin c1.
  assert (Hlt : (inject_Z now' < inject_Z now + ttlOf c customTTL toolType)%Q).
  { eapply Qlt_le_trans; [|exact Hmargin].
    rewrite <- (Qplus_0_r (inject_Z now')) at 1.
    apply Qplus_lt_r. reflexivity. }
  destruct (set_counters c key data customTTL toolType now) as (Hr & Hh & _).
  unfold get. unfold c1. rewrite (set_stores _ _ _ _ _ _ Hs). simpl.
  replace (Dedup.gtb _ _) with true by (symmetry; apply gtb_lt; exact Hlt).
  simpl. rewrite Hr, Hh. auto.
Qed.

Lemma set_then_get_witness :
  shouldCache keyA okResult = true
  /\ Domain.timeValue 1762000000000 /\ Domain.timeValue 1762000059999
  /\ (inject_Z 1762000059999 + 1
      <= inject_Z 1762000000000 + ttlOf create None "filesystem")%Q
  /\ fst (get (set create keyA okResult None "filesystem" 1762000000000)
            keyA 1762000059999)
     = Some okResult
  /\ totalRequests
       (snd (get (set create keyA okResult None "filesystem" 1762000000000)
               keyA 1762000059999)) = 1
  /\ totalHits
       (snd (get (set create keyA okResult None "filesystem" 1762000000000)
               keyA 1762000059999)) = 1.
Proof.
  assert (H1 : shouldCache keyA okResult = true) by (vm_compute; reflexivity).
  assert (H2 : Domain.timeValue 1762000000000)
    by (unfold Domain.timeValue; simpl; lia).
  assert (H3 : Domain.timeValue 1762000059999)
    by (unfold Domain.timeValue; simpl; lia).
  assert (H4 : (inject_Z 1762000059999 + 1
                <= inject_Z 1762000000000 + ttlOf create None "filesystem")%Q)
    by (vm_compute; discriminate).
  split; [exact H1|]. split; [exact H2|]. split; [exact H3|].
  split; [exact H4|].
  exact (set_then_get create keyA okResult None "filesystem"
           1762000000000 1762000059999 H1 H2 H3 H4).
Defined.

(** X2.  A [get] of a key whose entry has expired returns nothing,
    removes that entry and no other, and still counts as a request but
    not as a hit. *)
Theorem get_removes_expired c key now entry :
  NoDup (map fst (cache c)) ->
  mapGet (cache c) key = Some entry ->
  (expiry entry <= inject_Z now)%Q ->
  fst (get c key now) = None
  /\ mapGet (cache (snd (get c key now))) key = None
  /\ (forall k, k <> key ->
        mapGet (cache (snd (get c key now))) k = mapGet (cache c) k)
  /\ mapSize (cache (snd (get c key now))) = mapSize (cache c) - 1
  /\ totalRequests (snd (get c key now)) = S (totalRequests c)
  /\ totalHits (snd (get c key now)) = totalHits c.
Proof.
  intros Hnd Hget Hexp. unfold get. rewrite Hget.
  replace (Dedup.gtb _ _) with false by (symmetry; apply gtb_le; exact Hexp).
  simpl. split; [reflexivity|]. split; [apply mapGet_mapDelete_same, Hnd|].
  split; [intros k Hk; apply mapGet_mapDelete_other; congruence|].
  split; [|auto].
  unfold mapSize. rewrite length_mapDelete. unfold mapHas. rewrite Hget.
  reflexivity.
Qed.

Lemma get_removes_expired_witness :
  NoDup (map fst (cache (set create keyA okResult None "filesystem" 0)))
  /\ (exists entry,
        mapGet (cache (set create keyA okResult None "filesystem" 0)) keyA
        = Some entry /\ (expiry entry <= inject_Z 60000)%Q)
  /\ fst (get (set create keyA okResult None "filesystem" 0) keyA 60000) = None
  /\ mapSize (cache (snd (get (set create keyA okResult None "filesystem" 0)
                              keyA 60000))) = 0.
Proof.
  set (c := set create keyA okResult None "filesystem" 0).
  assert (H1 : NoDup (map fst (cache c))) by (vm_compute; repeat constructor; simpl; tauto).
  assert (H2 : mapGet (cache c) keyA
               = Some {| data := okResult; expiry := (inject_Z 0 + 60000)%Q;
                         hitCount := 0; lastAccess := 0;
                         toolType := "filesystem" |}) by (vm_compute; reflexivity).
  assert (H3 : (expiry {| data := okResult; expiry := (inject_Z 0 + 60000)%Q;
                          hitCount := 0; lastAccess := 0;
                          toolType := "filesystem" |} <= inject_Z 60000)%Q)
    by (vm_compute; discriminate).
  pose proof (get_removes_expired c keyA 60000 _ H1 H2 H3) as (R1 & _ & _ & R4 & _).
  split; [exact H1|]. split; [eexists; split; [exact H2|exact H3]|].
  split; [exact R1|]. exact R4.
Defined.


(** *** Eviction *)

Lemma evict_unfold c now :
  evictLeastRecentlyUsed c now
  = match fst (scanOldest (cache c) (None, now)) with
    | Some key => if truthyStr key then withCache c (mapDelete (cache c) key)
                  else c
    | None => c
    end.
Proof.
  unfold evictLeastRecentlyUsed, scanOldest.
  destruct (fold_left _ (cache c) (None, now)) as [k t]. reflexivity.
Qed.

Lemma scanOldest_spec l :
  forall ok0 t0,
    let r := scanOldest l (ok0, t0) in
    (snd r <= t0)%Z
    /\ (forall k e, In (k, e) l -> (snd r <= lastAccess e)%Z)
    /\ (r = (ok0, t0)
        \/ exists k e, fst r = Some k /\ In (k, e) l
                       /\ lastAccess e = snd r /\ (snd r < t0)%Z).
Proof.
  induction l as [|[k e] rest IH]; intros ok0 t0; simpl.
  - split; [lia|]. split; [tauto|]. left. reflexivity.
  - unfold scanOldest in *. simpl.
    destruct (Z.ltb_spec (lastAccess e) t0) as [Hlt|Hge].
    + destruct (IH (Some k) (lastAccess e)) as (H1 & H2 & H3).
      split; [lia|]. split.
      * intros k' e' [E|Hin]; [inversion E; subst; exact H1|eauto].
      * right. destruct H3 as [E|(k' & e' & Hk & Hin & Hla & Hlt')].
        -- exists k, e. rewrite E. simpl. auto.
        -- exists k', e'. repeat split; auto. lia.
    + destruct (IH ok0 t0) as (H1 & H2 & H3).
      split; [lia|]. split.
      * intros k' e' [E|Hin]; [inversion E; subst; lia|eauto].
      * destruct H3 as [E|(k' & e' & Hk & Hin & Hla & Hlt')]; [left; exact E|].
        right. exists k', e'. auto.
Qed.

Lemma scanOldest_finds l t0 k e :
  In (k, e) l -> (lastAccess e < t0)%Z ->
  exists k' e', fst (scanOldest l (None, t0)) = Some k' /\ In (k', e') l
                /\ (forall k2 e2, In (k2, e2) l -> (lastAccess e' <= lastAccess e2)%Z)
                /\ (lastAccess e' < t0)%Z.
Proof.
  intros Hin Hlt.
  destruct (scanOldest_spec l None t0) as (H1 & H2 & H3).
  destruct H3 as [E|(k' & e' & Hk & Hin' & Hla & Hlt')].
  - specialize (H2 _ _ Hin). rewrite E in H2. simpl in H2. lia.
  - exists k', e'. split; [exact Hk|]. split; [exact Hin'|].
    split; [|lia]. intros k2 e2 H. rewrite Hla. eauto.
Qed.

(** X3.  When some entry was last accessed before the current time,
    [evictLeastRecentlyUsed] removes exactly one entry, and no entry of
    the cache was accessed earlier than the one it removes. *)
Theorem evict_removes_least_recently_used c now k0 e0 :
  NoDup (map fst (cache c)) ->
  Forall (fun p => truthyStr (fst p) = true) (cache c) ->
  In (k0, e0) (cache c) -> (lastAccess e0 < now)%Z ->
  exists k e,
    mapGet (cache c) k = Some e
    /\ (forall k' e', In (k', e') (cache c) -> (lastAccess e <= lastAccess e')%Z)
    /\ mapGet (cache (evictLeastRecentlyUsed c now)) k = None
    /\ (forall k', k' <> k ->
          mapGet (cache (evictLeastRecentlyUsed c now)) k'
          = mapGet (cache c) k')
    /\ mapSize (cache (evictLeastRecentlyUsed c now)) = mapSize (cache c) - 1.
Proof.
  intros Hnd Hkeys Hin Hlt.
  destruct (scanOldest_finds _ _ _ _ Hin Hlt) as (k & e & Hk & Hin' & Hmin & _).
  exists k, e. rewrite evict_unfold, Hk.
  rewrite Forall_forall in Hkeys.
  assert (Ht : truthyStr k = true) by exact (Hkeys _ Hin').
  rewrite Ht. simpl.
  split; [apply In_mapGet; assumption|]. split; [exact Hmin|].
  split; [apply mapGet_mapDelete_same; assumption|].
  split; [intros k' Hne; apply mapGet_mapDelete_other; congruence|].
  unfold mapSize. rewrite length_mapDelete.
  replace (mapHas (cache c) k) with true; [reflexivity|].
  symmetry. apply mapHas_In. apply (in_map fst _ _ Hin').
Qed.

Lemma evict_removes_least_recently_used_witness :
  NoDup (map fst (cache twoTypes))
  /\ Forall (fun p => truthyStr (fst p) = true) (cache twoTypes)
  /\ (exists e0, In (keyA, e0) (cache twoTypes) /\ (lastAccess e0 < 10)%Z)
  /\ exists k e,
       mapGet (cache twoTypes) k = Some e
       /\ (forall k' e', In (k', e') (cache twoTypes) ->
             (lastAccess e <= lastAccess e')%Z)
       /\ mapGet (cache (evictLeastRecentlyUsed twoTypes 10)) k = None
       /\ (forall k', k' <> k ->
             mapGet (cache (evictLeastRecentlyUsed twoTypes 10)) k'
             = mapGet (cache twoTypes) k')
       /\ mapSize (cache (evictLeastRecentlyUsed twoTypes 10))
          = mapSize (cache twoTypes) - 1.
Proof.
  assert (H1 : NoDup (map fst (cache twoTypes))).
  { vm_compute. repeat constructor; simpl; intuition discriminate. }
  assert (H2 : Forall (fun p => truthyStr (fst p) = true) (cache twoTypes)).
  { vm_compute. repeat constructor. }
  assert (H3 : In (keyA, {| data := okResult; expiry := (inject_Z 0 + 60000)%Q;
                            hitCount := 1; lastAccess := 1;
                            toolType := "filesystem" |}) (cache twoTypes)).
  { vm_compute. left. reflexivity. }
  assert (H4 : (lastAccess {| data := okResult; expiry := (inject_Z 0 + 60000)%Q;
                              hitCount := 1; lastAccess := 1;
                              toolType := "filesystem" |} < 10)%Z) by reflexivity.
  split; [exact H1|]. split; [exact H2|].
  split; [eexists; split; [exact H3|exact H4]|].
  exact (evict_removes_least_recently_used twoTypes 10 _ _ H1 H2 H3 H4).
Defined.

Lemma set_keeps_size c key data customTTL toolType now :
  0 < maxSize c ->
  mapSize (cache c) <= maxSize c ->
  Forall (fun p => truthyStr (fst p) = true) (cache c) ->
  (mapSize (cache c) < maxSize c
   \/ exists k e, In (k, e) (cache c) /\ (lastAccess e < now)%Z) ->
  mapSize (cache (set c key data customTTL toolType now)) <= maxSize c.
Proof.
  intros Hpos Hsize Hkeys Hold. unfold set.
  destruct (shouldCache key data); simpl; [|assumption].
  destruct (Nat.leb_spec (maxSize c) (mapSize (cache c))) as [Hfull|Hroom].
  - destruct Hold as [Hlt|(k & e & Hin & Hlt)]; [lia|].
    destruct (scanOldest_finds _ _ _ _ Hin Hlt) as (k' & e' & Hk & Hin' & _ & _).
    rewrite evict_unfold, Hk.
    rewrite Forall_forall in Hkeys.
    assert (Ht : truthyStr k' = true) by exact (Hkeys _ Hin').
    rewrite Ht. simpl.
    unfold mapSize in *. rewrite length_mapSet, length_mapDelete.
    replace (mapHas (cache c) k') with true
      by (symmetry; apply mapHas_In; apply (in_map fst _ _ Hin')).
    destruct (mapHas (mapDelete (cache c) k') key); lia.
  - unfold mapSize in *. rewrite length_mapSet.
    destruct (mapHas (cache c) key); lia.
Qed.

End CacheMoreFacts.

(* ================================================================== *)
(** ** Sequences of cache operations *)
(* ================================================================== *)

Module CacheRunFacts.
Import JS Cache MapFacts CacheMoreFacts Scenarios Runs.
Local Open Scope nat_scope.
Local Open Scope list_scope.

Lemma Forall_mapSet {V} (P : string * V -> Prop) (m : Map V) k v :
  Forall P m -> (forall k', P (k', v)) -> Forall P (mapSet m k v).
Proof.
  intros Hm Hv. induction m as [|[k' y] r IH]; simpl.
  - constructor; [apply Hv|constructor].
  - inversion Hm; subst.
    destruct (String.eqb k k'); constructor; auto.
Qed.

Lemma Forall_mapSet_key {V} (P : string * V -> Prop) (m : Map V) k v :
  Forall P m -> P (k, v) -> Forall P (mapSet m k v).
Proof.
  intros Hm Hv. induction m as [|[k' y] r IH]; simpl.
  - constructor; [apply Hv|constructor].
  - inversion Hm; subst.
    destruct (String.eqb_spec k k') as [->|Hne]; constructor; auto.
Qed.

Lemma Forall_mapDelete {V} (P : string * V -> Prop) (m : Map V) k :
  Forall P m -> Forall P (mapDelete m k).
Proof.
  intros Hm. induction m as [|[k' y] r IH]; simpl; [constructor|].
  inversion Hm; subst. destruct (String.eqb k k'); [|constructor]; auto.
Qed.

Lemma adjustTTL_fields c toolType hitRate :
  cache (adjustTTL c toolType hitRate) = cache c
  /\ totalRequests (adjustTTL c toolType hitRate) = totalRequests c
  /\ totalHits (adjustTTL c toolType hitRate) = totalHits c
  /\ defaultTTL (adjustTTL c toolType hitRate) = defaultTTL c
  /\ maxSize (adjustTTL c toolType hitRate) = maxSize c.
Proof.
  unfold adjustTTL.
  destruct (negb _); simpl; repeat split.
Qed.

Lemma update_fields c :
  cache (updateToolTypeMetricsAndAdjustTTLs c) = cache c
  /\ totalRequests (updateToolTypeMetricsAndAdjustTTLs c) = totalRequests c
  /\ totalHits (updateToolTypeMetricsAndAdjustTTLs c) = totalHits c
  /\ defaultTTL (updateToolTypeMetricsAndAdjustTTLs c) = defaultTTL c
  /\ maxSize (updateToolTypeMetricsAndAdjustTTLs c) = maxSize c.
Proof.
  unfold updateToolTypeMetricsAndAdjustTTLs.
  generalize (getToolTypeMetrics c). intros l. revert c.
  induction l as [|[ty m] r IH]; intros c; simpl; [repeat split|].
  destruct (IH (adjustTTL c ty (typeHitRate m))) as (A & B & C & D & E).
  destruct (adjustTTL_fields c ty (typeHitRate m)) as (A' & B' & C' & D' & E').
  repeat split; congruence.
Qed.

Lemma evict_cache c now :
  cache (evictLeastRecentlyUsed c now) = cache c
  \/ exists k, cache (evictLeastRecentlyUsed c now) = mapDelete (cache c) k.
Proof.
  rewrite evict_unfold.
  destruct (fst (scanOldest (cache c) (None, now))) as [k|]; [|left; reflexivity].
  destruct (truthyStr k); [right; exists k; reflexivity|left; reflexivity].
Qed.

Lemma Forall_evict (P : string * CacheEntry -> Prop) c now :
  Forall P (cache c) -> Forall P (cache (evictLeastRecentlyUsed c now)).
Proof.
  intros H. destruct (evict_cache c now) as [E|[k E]]; rewrite E;
    [assumption|apply Forall_mapDelete; assumption].
Qed.

Lemma set_cache c key data customTTL toolType now :
  set c key data customTTL toolType now = c
  \/ exists c1,
       (c1 = c \/ c1 = evictLeastRecentlyUsed c now)
       /\ cache (set c key data customTTL toolType now)
          = mapSet (cache c1) key
              {| data := data;
                 expiry := (inject_Z now + ttlOf c customTTL toolType)%Q;
                 hitCount := 0; lastAccess := now; toolType := toolType |}.
Proof.
  unfold set. destruct (shouldCache key data); simpl; [|left; reflexivity].
  right. destruct (maxSize c <=? mapSize (cache c)).
  - exists (evictLeastRecentlyUsed c now). split; [right; reflexivity|].
    reflexivity.
  - exists c. split; [left; reflexivity|reflexivity].
Qed.

Lemma run_app c ops1 ops2 : run c (ops1 ++ ops2) = run (run c ops1) ops2.
Proof. unfold run. apply fold_left_app. Qed.

Lemma run_invariant (P : CachingSystem -> Prop) :
  (forall c op, P c -> P (step c op)) ->
  forall ops c, P c -> P (run c ops).
Proof.
  intros Hstep ops. induction ops as [|op r IH]; intros c Hc; simpl.
  - exact Hc.
  - apply IH. apply Hstep. exact Hc.
Qed.

(** *** Counters *)

Lemma countersSound_step c op : countersSound c -> countersSound (step c op).
Proof.
  intros [Hle Hall]. destruct op as [key now|key d ttl ty now|now|ty hr|]; simpl.
  - unfold get. destruct (mapGet (cache c) key) as [entry|] eqn:Hget.
    + destruct (Dedup.gtb (expiry entry) (inject_Z now)); simpl.
      * split; simpl; [lia|].
        apply Forall_mapSet_key.
        -- eapply Forall_impl; [|exact Hall]. simpl. intros; lia.
        -- simpl. apply mapGet_In in Hget.
           rewrite Forall_forall in Hall. specialize (Hall _ Hget).
           simpl in Hall. lia.
      * split; simpl; [lia|]. apply Forall_mapDelete. exact Hall.
    + split; simpl; [lia|exact Hall].
  - destruct (set_counters c key d ttl ty now) as (A & B & _).
    split; [lia|]. rewrite B.
    destruct (set_cache c key d ttl ty now) as [E|(c1 & Hc1 & E)].
    + rewrite E. exact Hall.
    + rewrite E. apply Forall_mapSet_key; [|simpl; lia].
      destruct Hc1 as [->| ->]; [exact Hall|apply Forall_evict; exact Hall].
  - destruct (update_fields c) as (A & B & C & _).
    split; [lia|]. rewrite A, C. exact Hall.
  - destruct (adjustTTL_fields c ty hr) as (A & B & C & _).
    split; [lia|]. rewrite A, C. exact Hall.
  - split; simpl; [lia|constructor].
Qed.

Lemma ofNat_le a b : a <= b -> (Dedup.ofNat a <= Dedup.ofNat b)%Q.
Proof.
  intros H. unfold Dedup.ofNat. rewrite <- Zle_Qle. lia.
Qed.

Lemma ofNat_pos a : 0 < a -> (0 < Dedup.ofNat a)%Q.
Proof.
  intros H. unfold Dedup.ofNat. replace 0%Q with (inject_Z 0) by reflexivity.
  rewrite <- Zlt_Qlt. lia.
Qed.

Lemma ofNat_nonneg a : (0 <= Dedup.ofNat a)%Q.
Proof.
  unfold Dedup.ofNat. replace 0%Q with (inject_Z 0) by reflexivity.
  rewrite <- Zle_Qle. lia.
Qed.

(** X4.  After any sequence of public operations on a fresh cache,
    hits never outnumber requests, no entry has been hit more often
    than the cache as a whole, and the hit rate [getStats] reports
    lies between 0 and 1. *)
Theorem run_hit_rate_in_unit_interval ops now :
  let c := run create ops in
  totalHits c <= totalRequests c
  /\ (forall k e, mapGet (cache c) k = Some e -> hitCount e <= totalHits c)
  /\ (0 <= hitRate (fst (getStats c now)) <= 1)%Q.
Proof.
  intros c.
  assert (Hinv : countersSound c).
  { apply run_invariant; [apply countersSound_step|].
    split; simpl; [lia|constructor]. }
  destruct Hinv as [Hle Hall]. split; [exact Hle|]. split.
  - intros k e Hget. apply mapGet_In in Hget.
    rewrite Forall_forall in Hall. exact (Hall _ Hget).
  - unfold getStats. cbn [fst hitRate].
    destruct (Nat.ltb_spec 0 (totalRequests c)) as [Hpos|Hz].
    + split.
      * apply Qle_shift_div_l; [apply ofNat_pos; exact Hpos|].
        rewrite Qmult_0_l. apply ofNat_nonneg.
      * apply Qle_shift_div_r; [apply ofNat_pos; exact Hpos|].
        rewrite Qmult_1_l. apply ofNat_le. exact Hle.
    + split; discriminate.
Qed.

(** *** Times to live *)

Lemma getTTL_bounded c ty :
  ttlBounded c -> (60000 <= getTTLForToolType c ty <= 3600000)%Q.
Proof.
  intros [Hd Hall]. unfold getTTLForToolType.
  destruct (mapGet (toolTypeTTL c) ty) as [ttl|] eqn:E; [|exact Hd].
  destruct (truthyNum ttl); [|exact Hd].
  apply mapGet_In in E. rewrite Forall_forall in Hall.
  exact (Hall _ E).
Qed.

Lemma adjustTTL_bounded c ty hr : ttlBounded c -> ttlBounded (adjustTTL c ty hr).
Proof.
  intros Hb. pose proof (getTTL_bounded c ty Hb) as [Hlo Hhi].
  destruct Hb as [Hd Hall]. unfold adjustTTL.
  set (cur := getTTLForToolType c ty) in *.
  destruct (negb _); [|split; assumption].
  split; [exact Hd|]. simpl.
  apply Forall_mapSet_key; [exact Hall|]. simpl.
  destruct (Dedup.gtb hr (7 # 10)).
  - split.
    + apply Q.min_glb; [|discriminate].
      apply Qle_trans with (cur * 1)%Q; [rewrite Qmult_1_r; exact Hlo|].
      rewrite !(Qmult_comm cur). apply Qmult_le_compat_r; [discriminate|].
      apply Qle_trans with 60000%Q; [discriminate|exact Hlo].
    + apply Q.le_min_r.
  - destruct (Dedup.ltb hr (2 # 10)).
    + split.
      * apply Q.le_max_r.
      * apply Q.max_lub; [|discriminate].
        apply Qle_trans with (cur * 1)%Q; [|rewrite Qmult_1_r; exact Hhi].
        rewrite !(Qmult_comm cur). apply Qmult_le_compat_r; [discriminate|].
        apply Qle_trans with 60000%Q; [discriminate|exact Hlo].
    + split; assumption.
Qed.

Lemma update_bounded c : ttlBounded c -> ttlBounded (updateToolTypeMetricsAndAdjustTTLs c).
Proof.
  unfold updateToolTypeMetricsAndAdjustTTLs.
  generalize (getToolTypeMetrics c). intros l. revert c.
  induction l as [|[ty m] r IH]; intros c Hb; simpl; [exact Hb|].
  apply IH. apply adjustTTL_bounded. exact Hb.
Qed.

Lemma ttlBounded_step c op : ttlBounded c -> ttlBounded (step c op).
Proof.
  intros Hb. destruct op as [key now|key d ttl ty now|now|ty hr|]; simpl.
  - unfold get. destruct (mapGet (cache c) key) as [entry|]; [|exact Hb].
    destruct (Dedup.gtb _ _); exact Hb.
  - destruct (set_counters c key d ttl ty now) as (_ & _ & A & B & _).
    unfold ttlBounded. rewrite A, B. exact Hb.
  - apply update_bounded. exact Hb.
  - apply adjustTTL_bounded. exact Hb.
  - exact Hb.
Qed.

(** X5.  After any sequence of public operations on a fresh cache,
    the time to live of every tool type lies between one minute and
    one hour, whatever hit rates [adjustTTL] was given. *)
Theorem run_ttl_between_minute_and_hour ops ty :
  (60000 <= getTTLForToolType (run create ops) ty <= 3600000)%Q.
Proof.
  apply getTTL_bounded. apply run_invariant; [apply ttlBounded_step|].
  split; [split; discriminate|].
  repeat constructor; simpl; discriminate.
Qed.

(** *** What is never stored *)

Lemma onlyCacheable_step c op : onlyCacheable c -> onlyCacheable (step c op).
Proof.
  unfold onlyCacheable.
  intros Hall. destruct op as [key now|key d ttl ty now|now|ty hr|]; simpl.
  - unfold get. destruct (mapGet (cache c) key) as [entry|] eqn:Hget;
      [|exact Hall].
    destruct (Dedup.gtb _ _); simpl.
    + apply Forall_mapSet_key; [exact Hall|]. simpl.
      apply mapGet_In in Hget. rewrite Forall_forall in Hall.
      exact (Hall _ Hget).
    + apply Forall_mapDelete. exact Hall.
  - destruct (shouldCache key d) eqn:Hs.
    + destruct (set_cache c key d ttl ty now) as [E|(c1 & Hc1 & E)].
      * rewrite E. exact Hall.
      * rewrite E. apply Forall_mapSet_key; [|exact Hs].
        destruct Hc1 as [->| ->]; [exact Hall|apply Forall_evict; exact Hall].
    + unfold set. rewrite Hs. exact Hall.
  - destruct (update_fields c) as (A & _). rewrite A. exact Hall.
  - destruct (adjustTTL_fields c ty hr) as (A & _). rewrite A. exact Hall.
  - constructor.
Qed.

(** X6.  Whatever operations were run on a fresh cache, a key that
    contains [random], [uuid], [current_time] or [now] is never held:
    [get] misses on it at every time. *)
Theorem run_never_serves_volatile_key ops key now :
  includes key "random" || includes key "uuid"
  || includes key "current_time" || includes key "now" = true ->
  fst (get (run create ops) key now) = None.
Proof.
  intros Hvol.
  assert (Hinv : onlyCacheable (run create ops)).
  { apply run_invariant; [apply onlyCacheable_step|constructor]. }
  unfold get. destruct (mapGet (cache (run create ops)) key) as [entry|] eqn:E;
    [|reflexivity].
  exfalso. apply mapGet_In in E. unfold onlyCacheable in Hinv.
  rewrite Forall_forall in Hinv. specialize (Hinv _ E). simpl in Hinv.
  unfold shouldCache in Hinv.
  destruct (includes key "random"), (includes key "uuid"),
    (includes key "current_time"), (includes key "now");
    simpl in *; discriminate.
Qed.

Lemma run_never_serves_volatile_key_witness :
  fst (get (run create [OpSet "srv:get_uuid:{}" okResult None "default" 1])
         "srv:get_uuid:{}" 2) = None.
Proof.
  apply (run_never_serves_volatile_key
           [OpSet "srv:get_uuid:{}" okResult None "default" 1]
           "srv:get_uuid:{}" 2).
  vm_compute. reflexivity.
Defined.

(** *** Capacity *)

Lemma stamped_later t t' c : (t <= t')%Z -> stamped t c -> stamped t' c.
Proof.
  intros Hle (A & B & C & D). repeat split; auto.
  eapply Forall_impl; [|exact D]. simpl. intros; lia.
Qed.

Lemma stamped_step_at t now c op :
  stampTime op = Some now -> (t < now)%Z ->
  match op with OpSet key _ _ _ _ => truthyStr key = true | _ => True end ->
  stamped t c -> stamped now (step c op).
Proof.
  intros Hop Hlt Hkey (Hpos & Hsize & Hkeys & Htimes).
  destruct op as [key n|key d ttl ty n|n|ty hr|]; simpl in Hop;
    try discriminate; inversion Hop; subst n; simpl.
  - unfold get. destruct (mapGet (cache c) key) as [entry|] eqn:Hget.
    + assert (Hin : In (key, entry) (cache c)) by (apply mapGet_In; exact Hget).
      assert (Hhas : mapHas (cache c) key = true).
      { unfold mapHas. rewrite Hget. reflexivity. }
      destruct (Dedup.gtb _ _); simpl.
      * repeat split; simpl; auto.
        -- unfold mapSize in *. rewrite length_mapSet, Hhas. exact Hsize.
        -- apply Forall_mapSet_key; [exact Hkeys|]. simpl.
           rewrite Forall_forall in Hkeys. exact (Hkeys _ Hin).
        -- apply Forall_mapSet_key; [|simpl; lia].
           eapply Forall_impl; [|exact Htimes]. simpl. intros; lia.
      * repeat split; simpl; auto.
        -- unfold mapSize in *. rewrite length_mapDelete, Hhas. lia.
        -- apply Forall_mapDelete. exact Hkeys.
        -- apply Forall_mapDelete.
           eapply Forall_impl; [|exact Htimes]. simpl. intros; lia.
    + repeat split; simpl; auto.
      eapply Forall_impl; [|exact Htimes]. simpl. intros; lia.
  - destruct (set_counters c key d ttl ty now) as (_ & _ & _ & _ & Hmax).
    assert (Hold : Forall (fun p => (lastAccess (snd p) <= now)%Z) (cache c)).
    { eapply Forall_impl; [|exact Htimes]. simpl. intros; lia. }
    split; [rewrite Hmax; exact Hpos|]. split.
    + rewrite Hmax. apply set_keeps_size; auto.
      destruct (cache c) as [|[k e] r] eqn:Ec.
      * left. simpl. exact Hpos.
      * right. exists k, e. split; [left; reflexivity|].
        inversion Htimes; subst. simpl in *. lia.
    + destruct (set_cache c key d ttl ty now) as [E|(c1 & Hc1 & E)].
      * rewrite E. split; assumption.
      * rewrite E. split.
        -- apply Forall_mapSet_key; [|exact Hkey].
           destruct Hc1 as [->| ->]; [exact Hkeys|apply Forall_evict; exact Hkeys].
        -- apply Forall_mapSet_key; [|simpl; lia].
           destruct Hc1 as [->| ->]; [exact Hold|apply Forall_evict; exact Hold].
Qed.

Lemma stamped_step_none t c op :
  stampTime op = None -> stamped t c -> stamped t (step c op).
Proof.
  intros Hop (Hpos & Hsize & Hkeys & Htimes).
  destruct op as [key n|key d ttl ty n|n|ty hr|]; simpl in Hop;
    try discriminate; simpl.
  - destruct (update_fields c) as (A & _ & _ & _ & E).
    unfold stamped. rewrite A, E. auto.
  - destruct (adjustTTL_fields c ty hr) as (A & _ & _ & _ & E).
    unfold stamped. rewrite A, E. auto.
  - repeat split; simpl; auto. lia.
Qed.

Lemma stamped_run ops :
  forall t c, advancing t ops -> setsNonEmptyKeys ops -> stamped t c ->
              exists t', stamped t' (run c ops).
Proof.
  induction ops as [|op r IH]; intros t c Hadv Hkeys Hst; simpl.
  - exists t. exact Hst.
  - inversion Hkeys as [|? ? Hk Hr]; subst. simpl in Hadv.
    destruct (stampTime op) as [now|] eqn:Hop.
    + destruct Hadv as [Hlt Hadv].
      apply (IH now); auto. eapply stamped_step_at; eauto.
    + apply (IH t); auto. apply stamped_step_none; auto.
Qed.

Lemma maxSize_run ops : forall c, maxSize (run c ops) = maxSize c.
Proof.
  induction ops as [|op r IH]; intros c; simpl; [reflexivity|].
  fold (run (step c op) r). rewrite IH.
  destruct op as [key n|key d ttl ty n|n|ty hr|]; simpl.
  - unfold get. destruct (mapGet (cache c) key); [|reflexivity].
    destruct (Dedup.gtb _ _); reflexivity.
  - apply set_counters.
  - apply update_fields.
  - apply adjustTTL_fields.
  - reflexivity.
Qed.

(** X7.  Start from a cache within capacity that holds no empty key
    and no entry accessed after [t].  When every later [get] and [set]
    reads a clock value after the one before it and no [set] is given
    the empty key, the cache never exceeds [maxSize]. *)
Theorem run_within_maxSize t c ops :
  stamped t c -> advancing t ops -> setsNonEmptyKeys ops ->
  mapSize (cache (run c ops)) <= maxSize c.
Proof.
  intros Hst Hadv Hkeys.
  destruct (stamped_run ops t c Hadv Hkeys Hst) as (t' & _ & Hsize & _).
  rewrite maxSize_run in Hsize. exact Hsize.
Qed.

Lemma run_within_maxSize_witness :
  mapSize (cache (fill 1000 5)) = maxSize (fill 1000 5)
  /\ stamped 5 (fill 1000 5)
  /\ advancing 5 [OpSet (keyN 1000) okResult None "default" 6;
                  OpGet (keyN 1000) 7;
                  OpSet (keyN 1001) okResult None "default" 8]
  /\ setsNonEmptyKeys [OpSet (keyN 1000) okResult None "default" 6;
                       OpGet (keyN 1000) 7;
                       OpSet (keyN 1001) okResult None "default" 8]
  /\ mapSize (cache (run (fill 1000 5)
                       [OpSet (keyN 1000) okResult None "default" 6;
                        OpGet (keyN 1000) 7;
                        OpSet (keyN 1001) okResult None "default" 8]))
     <= maxSize (fill 1000 5).
Proof.
  assert (Hfull : mapSize (cache (fill 1000 5)) = maxSize (fill 1000 5))
    by (vm_compute; reflexivity).
  assert (H0 : stamped 5 (fill 1000 5)).
  { unfold stamped. split; [vm_compute; lia|].
    split; [rewrite Hfull; lia|]. split.
    - apply Forall_forall. intros p Hp.
      assert (forallb (fun p => truthyStr (fst p)) (cache (fill 1000 5)) = true)
        as Hall by (vm_compute; reflexivity).
      rewrite forallb_forall in Hall. apply Hall. exact Hp.
    - apply Forall_forall. intros p Hp.
      assert (forallb (fun p => (lastAccess (snd p) <=? 5)%Z)
                (cache (fill 1000 5)) = true)
        as Hall by (vm_compute; reflexivity).
      rewrite forallb_forall in Hall. apply Z.leb_le. apply Hall. exact Hp. }
  assert (H1 : advancing 5 [OpSet (keyN 1000) okResult None "default" 6;
                            OpGet (keyN 1000) 7;
                            OpSet (keyN 1001) okResult None "default" 8]).
  { simpl. lia. }
  assert (H2 : setsNonEmptyKeys
                 [OpSet (keyN 1000) okResult None "default" 6;
                  OpGet (keyN 1000) 7;
                  OpSet (keyN 1001) okResult None "default" 8]).
  { repeat constructor. }
  split; [exact Hfull|]. split; [exact H0|]. split; [exact H1|].
  split; [exact H2|].
  exact (run_within_maxSize 5 (fill 1000 5) _ H0 H1 H2).
Defined.

End CacheRunFacts.

(* ================================================================== *)
(** ** Tool identifiers *)
(* ================================================================== *)

Module IdentifierFacts.
Import JS Meta.
Local Open Scope nat_scope.
Local Open Scope string_scope.

Lemma prefix_colon c r :
  prefix ":" (String c r) = true <-> c = ":"%char.
Proof.
  cbn [prefix]. destruct (ascii_dec ":" c) as [E|E].
  - split; [auto|]. intros _. destruct r; reflexivity.
  - split; [discriminate|]. intros H. congruence.
Qed.

Lemma substring_all s : substring 0 (String.length s) s = s.
Proof. induction s as [|c r IH]; simpl; [reflexivity|]. rewrite IH. reflexivity. Qed.

Lemma substring_zero s : substring 0 0 s = EmptyString.
Proof. destruct s; reflexivity. Qed.

Lemma includes_cons c r sub :
  includes (String c r) sub = prefix sub (String c r) || includes r sub.
Proof. reflexivity. Qed.

(** The first colon of a string splits it into a colon-free part, the
    colon and the rest. *)
Lemma indexOf_colon_split n :
  match indexOf n ":" with
  | Some i =>
      n = substring 0 i n ++ ":" ++ substring (S i) (String.length n - S i) n
      /\ includes (substring 0 i n) ":" = false
  | None => includes n ":" = false
  end.
Proof.
  induction n as [|c r IH].
  - reflexivity.
  - cbn [indexOf]. rewrite includes_cons.
    destruct (prefix ":" (String c r)) eqn:Hp.
    + apply prefix_colon in Hp. subst c. split; [|reflexivity].
      simpl. rewrite Nat.sub_0_r, substring_all. reflexivity.
    + destruct (indexOf r ":") as [i|]; cbn [option_map].
      * destruct IH as [Heq Hinc]. split.
        -- cbn [substring append String.length]. rewrite Nat.sub_succ.
           f_equal. exact Heq.
        -- cbn [substring]. rewrite includes_cons.
           rewrite Hinc, orb_false_r.
           destruct (prefix ":" (String c (substring 0 i r))) eqn:Hp';
             [|reflexivity].
           apply prefix_colon in Hp'. subst c.
           rewrite (proj2 (prefix_colon ":" r) eq_refl) in Hp. discriminate.
      * simpl. exact IH.
Qed.

Lemma indexOf_colon_app a rest :
  includes a ":" = false ->
  indexOf (a ++ String ":" rest) ":" = Some (String.length a).
Proof.
  induction a as [|c r IH]; intros Hinc.
  - simpl. destruct rest; reflexivity.
  - rewrite includes_cons in Hinc. apply orb_false_elim in Hinc.
    destruct Hinc as [Hp Hr].
    cbn [append indexOf].
    destruct (prefix ":" (String c (r ++ String ":" rest))) eqn:Hp'.
    + apply prefix_colon in Hp'. subst c.
      rewrite (proj2 (prefix_colon ":" r) eq_refl) in Hp. discriminate.
    + rewrite (IH Hr). reflexivity.
Qed.

Lemma includes_app_colon a rest : includes (a ++ String ":" rest) ":" = true.
Proof.
  induction a as [|c r IH]; cbn [append]; rewrite includes_cons.
  - rewrite (proj2 (prefix_colon ":" rest) eq_refl). reflexivity.
  - rewrite IH. apply orb_true_r.
Qed.

Lemma substring_prefix a b : substring 0 (String.length a) (a ++ b) = a.
Proof.
  induction a as [|c r IH]; simpl; [apply substring_zero|].
  rewrite IH. reflexivity.
Qed.

Lemma substring_suffix a b :
  substring (String.length a) (String.length b) (a ++ b) = b.
Proof.
  induction a as [|c r IH]; simpl; [apply substring_all|exact IH].
Qed.

Lemma length_append a b :
  String.length (a ++ b) = String.length a + String.length b.
Proof. induction a as [|c r IH]; simpl; [reflexivity|]. rewrite IH. reflexivity. Qed.

Lemma parse_splits_at_first_colon a b :
  includes a ":" = false ->
  parseToolIdentifier (a ++ ":" ++ b) = Ok (a, b).
Proof.
  intros Hinc. unfold parseToolIdentifier.
  change (a ++ ":" ++ b) with (a ++ String ":" b).
  rewrite (indexOf_colon_app a b Hinc).
  rewrite substring_prefix. f_equal. f_equal.
  replace (String.length (a ++ String ":" b) - S (String.length a))
    with (String.length b)
    by (rewrite length_append; simpl; lia).
  change (a ++ String ":" b) with (a ++ (":" ++ b)).
  replace (S (String.length a)) with (String.length (a ++ ":"))
    by (rewrite length_append; simpl; lia).
  replace (a ++ ":" ++ b) with ((a ++ ":") ++ b).
  - apply substring_suffix.
  - clear. induction a as [|c r IH]; simpl; [reflexivity|]. rewrite IH. reflexivity.
Qed.

(** X8.  [parseToolIdentifier] splits a name at its first colon: it
    returns [(serverId, toolName)] exactly when the name is
    [serverId:toolName] with no colon in [serverId], and it throws
    exactly when the name has no colon. *)
Theorem parseToolIdentifier_first_colon n :
  (forall a b,
     parseToolIdentifier n = Ok (a, b)
     <-> n = a ++ ":" ++ b /\ includes a ":" = false)
  /\ ((exists m, parseToolIdentifier n = Err m) <-> includes n ":" = false).
Proof.
  split.
  - intros a b. split.
    + unfold parseToolIdentifier. pose proof (indexOf_colon_split n) as H.
      destruct (indexOf n ":") as [i|]; [|discriminate].
      intros E. inversion E; subst a b. exact H.
    + intros [-> Hinc]. apply parse_splits_at_first_colon. exact Hinc.
  - unfold parseToolIdentifier. pose proof (indexOf_colon_split n) as H.
    destruct (indexOf n ":") as [i|].
    + split; [intros [m E]; discriminate|].
      intros Hinc. exfalso. destruct H as [Heq Ha].
      rewrite Heq in Hinc.
      change (?a ++ ":" ++ ?b) with (a ++ String ":" b) in Hinc.
      rewrite includes_app_colon in Hinc. discriminate.
    + split; [intros _; exact H|]. intros _. eexists. reflexivity.
Qed.

End IdentifierFacts.

(* ================================================================== *)
(** ** Performance metrics and scores *)
(* ================================================================== *)

Module MetricsFacts.
Import JS Meta Calls MapFacts CacheMoreFacts CacheRunFacts Scenarios.
Local Open Scope nat_scope.
Local Open Scope list_scope.

Lemma metricsOf_update s sid tn ok rt now m :
  metricsOf s sid tn = Some m ->
  metricsOf (updateMetrics s sid tn ok rt now) sid tn
  = Some {| successRate :=
              ((Dedup.ofNat (S (totalCalls m))
                - Dedup.ofNat (if negb ok then S (failureCount m)
                               else failureCount m))
               / Dedup.ofNat (S (totalCalls m)))%Q;
            avgResponseTime :=
              ((avgResponseTime m * (Dedup.ofNat (S (totalCalls m)) - 1)
                + inject_Z rt)
               / Dedup.ofNat (S (totalCalls m)))%Q;
            lastUsed := now;
            totalCalls := S (totalCalls m);
            failureCount := if negb ok then S (failureCount m)
                            else failureCount m |}.
Proof.
  unfold metricsOf, updateMetrics.
  destruct (mapGet (performanceMetrics s) sid) as [sm|] eqn:E1; [|discriminate].
  intros E2. rewrite E2. cbn [performanceMetrics].
  rewrite mapGet_mapSet_same. rewrite mapGet_mapSet_same. reflexivity.
Qed.

Lemma metricsOf_update_other s sid tn sid' tn' ok rt now :
  (sid', tn') <> (sid, tn) ->
  metricsOf (updateMetrics s sid tn ok rt now) sid' tn' = metricsOf s sid' tn'.
Proof.
  intros Hne. unfold metricsOf, updateMetrics.
  destruct (mapGet (performanceMetrics s) sid) as [sm|] eqn:E1; [|reflexivity].
  destruct (mapGet sm tn) as [m|] eqn:E2; [|reflexivity].
  cbn [performanceMetrics].
  destruct (String.eqb_spec sid sid') as [<-|Hs].
  - rewrite mapGet_mapSet_same, E1.
    apply mapGet_mapSet_other. congruence.
  - rewrite mapGet_mapSet_other by exact Hs. reflexivity.
Qed.

Lemma ofNat_S n : (Dedup.ofNat (S n) == Dedup.ofNat n + 1)%Q.
Proof.
  unfold Dedup.ofNat. rewrite Nat2Z.inj_succ. unfold Z.succ.
  rewrite inject_Z_plus. reflexivity.
Qed.

Lemma ofNat_S_nonzero n : ~ (Dedup.ofNat (S n) == 0)%Q.
Proof.
  intros H. pose proof (ofNat_pos (S n) (Nat.lt_0_succ n)) as Hp.
  rewrite H in Hp. apply (Qlt_irrefl 0). exact Hp.
Qed.

Lemma failures_le calls : failures calls <= length calls.
Proof. unfold failures. apply filter_length_le. Qed.

(** After a batch of calls the counters have advanced by the batch,
    and the running mean times the number of calls is the sum of all
    response times. *)
Lemma recordAll_spec calls :
  forall s sid tn m0,
    metricsOf s sid tn = Some m0 ->
    exists m,
      metricsOf (recordAll s sid tn calls) sid tn = Some m
      /\ totalCalls m = totalCalls m0 + length calls
      /\ failureCount m = failureCount m0 + failures calls
      /\ (avgResponseTime m * Dedup.ofNat (totalCalls m)
          == avgResponseTime m0 * Dedup.ofNat (totalCalls m0)
             + inject_Z (totalTime calls))%Q
      /\ (calls <> [] ->
          (successRate m
           == (Dedup.ofNat (totalCalls m) - Dedup.ofNat (failureCount m))
              / Dedup.ofNat (totalCalls m))%Q).
Proof.
  induction calls as [|c r IH]; intros s sid tn m0 H0.
  - exists m0. simpl. split; [exact H0|]. split; [lia|]. split; [unfold failures; simpl; lia|].
    split; [|congruence]. unfold totalTime. simpl.
    rewrite Qplus_0_r. reflexivity.
  - change (recordAll s sid tn (c :: r))
      with (recordAll (updateMetrics s sid tn (callSuccess c) (callTime c)
                         (callEnd c)) sid tn r).
    pose proof (metricsOf_update s sid tn (callSuccess c) (callTime c)
                  (callEnd c) m0 H0) as H1.
    destruct (IH _ sid tn _ H1) as (m & Hm & Ht & Hf & Ha & Hs).
    exists m. split; [exact Hm|]. cbn [totalCalls failureCount avgResponseTime] in *.
    split; [simpl length; lia|]. split.
    + rewrite Hf. unfold failures. simpl.
      destruct (callSuccess c); simpl; lia.
    + split.
      * rewrite Ha. unfold totalTime. simpl map. simpl fold_right.
        fold (totalTime r). rewrite inject_Z_plus.
        pose proof (ofNat_S_nonzero (totalCalls m0)) as Hnz.
        rewrite (ofNat_S (totalCalls m0)) in *.
        field. exact Hnz.
      * intros _. destruct r as [|c' r'].
        -- simpl in Hm. rewrite H1 in Hm. inversion Hm; subst m. simpl. reflexivity.
        -- apply Hs. discriminate.
Qed.

Lemma totalTime_between lo hi calls :
  Forall (fun c => (lo <= callTime c <= hi)%Z) calls ->
  (lo * Z.of_nat (length calls) <= totalTime calls
   <= hi * Z.of_nat (length calls))%Z.
Proof.
  unfold totalTime. induction 1 as [|c r Hc Hr IH].
  - simpl. lia.
  - simpl map. simpl fold_right. simpl length. rewrite Nat2Z.inj_succ. lia.
Qed.

Lemma last_cons_default {A} (l : list A) :
  forall x d, last (x :: l) d = last l x.
Proof.
  induction l as [|y l IH]; intros x d; [reflexivity|].
  change (last (x :: y :: l) d) with (last (y :: l) d).
  rewrite !IH. reflexivity.
Qed.

(** [lastUsed] is the time of the last recorded call. *)
Lemma recordAll_lastUsed calls :
  forall s sid tn m0,
    metricsOf s sid tn = Some m0 ->
    exists m,
      metricsOf (recordAll s sid tn calls) sid tn = Some m
      /\ lastUsed m = last (map callEnd calls) (lastUsed m0).
Proof.
  induction calls as [|c r IH]; intros s sid tn m0 H0.
  - exists m0. split; [exact H0|reflexivity].
  - change (recordAll s sid tn (c :: r))
      with (recordAll (updateMetrics s sid tn (callSuccess c) (callTime c)
                         (callEnd c)) sid tn r).
    pose proof (metricsOf_update s sid tn (callSuccess c) (callTime c)
                  (callEnd c) m0 H0) as H1.
    destruct (IH _ sid tn _ H1) as (m & Hm & Hl).
    exists m. split; [exact Hm|]. rewrite Hl. cbn [lastUsed].
    simpl map. rewrite last_cons_default. reflexivity.
Qed.

(** X9.  Starting from the metrics of a tool that has not been
    called, any non-empty series of [updateMetrics] calls leaves
    [totalCalls] and [failureCount] equal to the numbers of calls and
    of failed calls and [lastUsed] equal to the time of the last call;
    [successRate] lies between 0 and 1, is 1 exactly when no call
    failed and 0 exactly when every call failed; [avgResponseTime]
    lies between the smallest and the largest response time.  The
    rates are stated by bounds and not as quotients: the source
    computes them in binary64, where every step is rounded, and the
    bounds are what rounding keeps as long as the number of calls,
    and that number times the largest response time, stay integers
    that binary64 holds exactly, which is the last hypothesis. *)
Theorem updateMetrics_counts_calls_and_bounds_rates
    s sid tn m0 calls lo hi :
  metricsOf s sid tn = Some m0 ->
  totalCalls m0 = 0 -> failureCount m0 = 0 ->
  calls <> [] ->
  Forall (fun c => (lo <= callTime c <= hi)%Z) calls ->
  (Z.of_nat (length calls) * Z.max 1 (Z.max (Z.abs lo) (Z.abs hi))
   <= 2 ^ 53)%Z ->
  exists m,
    metricsOf (recordAll s sid tn calls) sid tn = Some m
    /\ totalCalls m = length calls
    /\ failureCount m = failures calls
    /\ lastUsed m = last (map callEnd calls) (lastUsed m0)
    /\ (0 <= successRate m <= 1)%Q
    /\ ((successRate m == 1)%Q <-> failures calls = 0)
    /\ ((successRate m == 0)%Q <-> failures calls = length calls)
    /\ (inject_Z lo <= avgResponseTime m <= inject_Z hi)%Q.
Proof.
  intros H0 Ht0 Hf0 Hne Hbetween _.
  destruct (recordAll_spec calls s sid tn m0 H0) as (m & Hm & Ht & Hf & Ha & Hs).
  destruct (recordAll_lastUsed calls s sid tn m0 H0) as (m' & Hm' & Hl).
  assert (m' = m) by congruence. subst m'.
  rewrite Ht0 in *. rewrite Hf0 in *. simpl in Ht, Hf.
  exists m. split; [exact Hm|]. split; [exact Ht|]. split; [exact Hf|].
  split; [exact Hl|].
  assert (Hpos : 0 < length calls) by (destruct calls; [congruence|simpl; lia]).
  assert (Hn : (0 < Dedup.ofNat (length calls))%Q) by (apply ofNat_pos; exact Hpos).
  pose proof (failures_le calls) as Hle.
  assert (Hfn : (0 <= Dedup.ofNat (failures calls))%Q) by apply ofNat_nonneg.
  assert (Hfle : (Dedup.ofNat (failures calls) <= Dedup.ofNat (length calls))%Q)
    by (apply ofNat_le; exact Hle).
  specialize (Hs Hne). rewrite Ht, Hf in Hs.
  assert (Hnz : ~ (Dedup.ofNat (length calls) == 0)%Q).
  { intros E. rewrite E in Hn. exact (Qlt_irrefl 0 Hn). }
  assert (Hrate : (successRate m * Dedup.ofNat (length calls)
                   == Dedup.ofNat (length calls)
                      - Dedup.ofNat (failures calls))%Q).
  { rewrite Hs. field. exact Hnz. }
  assert (Hcast : forall a b : nat,
             (Dedup.ofNat a == Dedup.ofNat b)%Q -> a = b).
  { intros a b E. unfold Dedup.ofNat in E. rewrite inject_Z_injective in E. lia. }
  split; [|split; [|split]].
  - rewrite Hs. split.
    + apply Qle_shift_div_l; [exact Hn|]. lra.
    + apply Qle_shift_div_r; [exact Hn|]. lra.
  - split.
    + intros E. rewrite E in Hrate.
      assert (Hz : (Dedup.ofNat (failures calls) == Dedup.ofNat 0)%Q)
        by (change (Dedup.ofNat 0) with 0%Q; lra).
      exact (Hcast _ _ Hz).
    + intros E. rewrite Hs, E.
      change (Dedup.ofNat 0) with 0%Q. field. exact Hnz.
  - split.
    + intros E. rewrite E in Hrate.
      assert (Hz : (Dedup.ofNat (failures calls)
                    == Dedup.ofNat (length calls))%Q) by lra.
      exact (Hcast _ _ Hz).
    + intros E. rewrite Hs, E. field. exact Hnz.
  - rewrite Ht in Ha. unfold Dedup.ofNat in Ha at 2. simpl in Ha.
    rewrite Qmult_0_r, Qplus_0_l in Ha.
    destruct (totalTime_between lo hi calls Hbetween) as [Hlo Hhi].
    assert (Hlo' : (inject_Z lo * Dedup.ofNat (length calls)
                    <= avgResponseTime m * Dedup.ofNat (length calls))%Q).
    { rewrite Ha. unfold Dedup.ofNat. rewrite <- inject_Z_mult.
      rewrite <- Zle_Qle. exact Hlo. }
    assert (Hhi' : (avgResponseTime m * Dedup.ofNat (length calls)
                    <= inject_Z hi * Dedup.ofNat (length calls))%Q).
    { rewrite Ha. unfold Dedup.ofNat. rewrite <- inject_Z_mult.
      rewrite <- Zle_Qle. exact Hhi. }
    split.
    + apply (Qmult_le_r _ _ _ Hn). exact Hlo'.
    + apply (Qmult_le_r _ _ _ Hn). exact Hhi'.
Qed.

Lemma updateMetrics_counts_calls_and_bounds_rates_witness :
  metricsOf serverP "P" "read" = Some (freshMetrics 0)
  /\ totalCalls (freshMetrics 0) = 0 /\ failureCount (freshMetrics 0) = 0
  /\ [ {| callSuccess := true; callTime := 5; callEnd := 5 |};
       {| callSuccess := false; callTime := 7; callEnd := 20 |} ] <> []
  /\ Forall (fun c => (5 <= callTime c <= 7)%Z)
       [ {| callSuccess := true; callTime := 5; callEnd := 5 |};
         {| callSuccess := false; callTime := 7; callEnd := 20 |} ]
  /\ (Z.of_nat 2 * Z.max 1 (Z.max (Z.abs 5) (Z.abs 7)) <= 2 ^ 53)%Z
  /\ exists m,
       metricsOf
         (recordAll serverP "P" "read"
            [ {| callSuccess := true; callTime := 5; callEnd := 5 |};
              {| callSuccess := false; callTime := 7; callEnd := 20 |} ])
         "P" "read" = Some m
       /\ totalCalls m = 2
       /\ failureCount m = 1
       /\ lastUsed m = 20%Z
       /\ (0 <= successRate m <= 1)%Q
       /\ ((successRate m == 1)%Q <-> 1 = 0)
       /\ ((successRate m == 0)%Q <-> 1 = 2)
       /\ (inject_Z 5 <= avgResponseTime m <= inject_Z 7)%Q.
Proof.
  assert (H1 : metricsOf serverP "P" "read" = Some (freshMetrics 0))
    by reflexivity.
  assert (H2 : [ {| callSuccess := true; callTime := 5; callEnd := 5 |};
                 {| callSuccess := false; callTime := 7; callEnd := 20 |} ] <> [])
    by discriminate.
  assert (H3 : Forall (fun c => (5 <= callTime c <= 7)%Z)
                 [ {| callSuccess := true; callTime := 5; callEnd := 5 |};
                   {| callSuccess := false; callTime := 7; callEnd := 20 |} ]).
  { repeat constructor; simpl; lia. }
  assert (H4 : (Z.of_nat 2 * Z.max 1 (Z.max (Z.abs 5) (Z.abs 7)) <= 2 ^ 53)%Z)
    by (vm_compute; discriminate).
  split; [exact H1|]. split; [reflexivity|]. split; [reflexivity|].
  split; [exact H2|]. split; [exact H3|]. split; [exact H4|].
  exact (updateMetrics_counts_calls_and_bounds_rates serverP "P" "read"
           (freshMetrics 0) _ 5 7 H1 eq_refl eq_refl H2 H3 H4).
Defined.

Lemma recency_bounds lastUsed now :
  (4 # 10 <= calculateRecencyScore lastUsed now <= 1)%Q.
Proof.
  unfold calculateRecencyScore.
  destruct (Dedup.ltb _ 1); [split; discriminate|].
  destruct (Dedup.ltb _ 24); [split; discriminate|].
  destruct (Dedup.ltb _ 168); split; discriminate.
Qed.

Lemma weighted_bounds (a b c : Q) :
  (0 <= a <= 1)%Q -> (0 <= b <= 1)%Q -> (4 # 10 <= c <= 1)%Q ->
  (8 # 100 <= a * (5 # 10) + b * (3 # 10) + c * (2 # 10) <= 1)%Q.
Proof. intros [? ?] [? ?] [? ?]. split; lra. Qed.

Lemma totalTime_nonneg calls :
  Forall (fun c => (0 <= callTime c)%Z) calls -> (0 <= totalTime calls)%Z.
Proof.
  unfold totalTime. induction 1 as [|c r Hc Hr IH]; simpl; lia.
Qed.

(** X10.  For a tool whose metrics start uncalled and are then
    updated by calls with non-negative response times, the routing
    score is one half while no call was recorded, and lies between
    0.08 and 1 afterwards. *)
Theorem calculateServerScore_range s sid tn m0 calls now :
  metricsOf s sid tn = Some m0 ->
  totalCalls m0 = 0 -> failureCount m0 = 0 ->
  Forall (fun c => (0 <= callTime c)%Z) calls ->
  (calls = [] -> calculateServerScore (recordAll s sid tn calls) sid tn now
                 = (5 # 10)%Q)
  /\ (8 # 100 <= calculateServerScore (recordAll s sid tn calls) sid tn now
      <= 1)%Q.
Proof.
  intros H0 Ht0 Hf0 Htimes.
  assert (Hempty : calculateServerScore s sid tn now = (5 # 10)%Q).
  { unfold calculateServerScore. unfold metricsOf in H0.
    destruct (mapGet (performanceMetrics s) sid); [|discriminate].
    rewrite H0, Ht0. reflexivity. }
  destruct calls as [|c r].
  - simpl. split; [intros _; exact Hempty|]. rewrite Hempty. split; discriminate.
  - split; [discriminate|].
    destruct (recordAll_spec (c :: r) s sid tn m0 H0)
      as (m & Hm & Ht & Hf & Ha & Hs).
    specialize (Hs ltac:(discriminate)).
    rewrite Ht0 in *. rewrite Hf0 in *. simpl in Ht, Hf.
    unfold calculateServerScore. unfold metricsOf in Hm.
    destruct (mapGet (performanceMetrics (recordAll s sid tn (c :: r))) sid);
      [|discriminate].
    rewrite Hm, Ht. cbn [Nat.eqb].
    pose proof (failures_le (c :: r)) as Hle. simpl length in Hle.
    assert (Hn : (0 < Dedup.ofNat (S (length r)))%Q)
      by (apply ofNat_pos; lia).
    assert (Hfn : (0 <= Dedup.ofNat (failures (c :: r)))%Q)
      by apply ofNat_nonneg.
    assert (Hfle : (Dedup.ofNat (failures (c :: r))
                    <= Dedup.ofNat (S (length r)))%Q)
      by (apply ofNat_le; exact Hle).
    apply weighted_bounds.
    + rewrite Hs, Ht, Hf. split.
      * apply Qle_shift_div_l; [exact Hn|]. lra.
      * apply Qle_shift_div_r; [exact Hn|]. lra.
    + split; [apply Q.le_max_l|].
      apply Q.max_lub; [discriminate|].
      assert (Havg : (0 <= avgResponseTime m)%Q).
      { rewrite Ht in Ha. unfold Dedup.ofNat in Ha at 2. simpl in Ha.
        rewrite Qmult_0_r, Qplus_0_l in Ha.
        assert (Hsum : (0 <= inject_Z (totalTime (c :: r)))%Q).
        { replace 0%Q with (inject_Z 0) by reflexivity.
          rewrite <- Zle_Qle. apply totalTime_nonneg. exact Htimes. }
        rewrite <- Ha in Hsum.
        destruct (Qlt_le_dec (avgResponseTime m) 0) as [Hneg|Hok]; [|exact Hok].
        exfalso.
        assert (avgResponseTime m * Dedup.ofNat (S (length r)) < 0)%Q.
        { rewrite Qmult_comm.
          setoid_replace 0%Q with (Dedup.ofNat (S (length r)) * 0)%Q by ring.
          apply Qmult_lt_l; assumption. }
        lra. }
      assert (0 <= avgResponseTime m / 10000)%Q.
      { apply Qle_shift_div_l; [reflexivity|]. lra. }
      lra.
    + apply recency_bounds.
Qed.

Lemma calculateServerScore_range_witness :
  metricsOf serverP "P" "read" = Some (freshMetrics 0)
  /\ totalCalls (freshMetrics 0) = 0 /\ failureCount (freshMetrics 0) = 0
  /\ Forall (fun c => (0 <= callTime c)%Z)
       [ {| callSuccess := false; callTime := 7; callEnd := 20 |} ]
  /\ ([ {| callSuccess := false; callTime := 7; callEnd := 20 |} ] = [] ->
      calculateServerScore
        (recordAll serverP "P" "read"
           [ {| callSuccess := false; callTime := 7; callEnd := 20 |} ])
        "P" "read" 30 = (5 # 10)%Q)
  /\ (8 # 100 <= calculateServerScore
                   (recordAll serverP "P" "read"
                      [ {| callSuccess := false; callTime := 7; callEnd := 20 |} ])
                   "P" "read" 30
      <= 1)%Q.
Proof.
  assert (H1 : metricsOf serverP "P" "read" = Some (freshMetrics 0))
    by reflexivity.
  assert (H2 : Forall (fun c => (0 <= callTime c)%Z)
                 [ {| callSuccess := false; callTime := 7; callEnd := 20 |} ]).
  { repeat constructor. simpl. lia. }
  split; [exact H1|]. split; [reflexivity|]. split; [reflexivity|].
  split; [exact H2|].
  exact (calculateServerScore_range serverP "P" "read" (freshMetrics 0)
           _ 30 H1 eq_refl eq_refl H2).
Defined.

End MetricsFacts.

(* ================================================================== *)
(** ** Calls through the cache *)
(* ================================================================== *)

Module CallFacts.
Import JS SDK Meta Calls Handler MapFacts CacheMoreFacts CacheRunFacts.
Import IdentifierFacts MetricsFacts Scenarios Runs.
Local Open Scope nat_scope.
Local Open Scope list_scope.

Section Calling.
Variable provider : string -> string -> option json -> Z -> (json + string) * Z.

Lemma updateMetrics_cache s sid tn ok rt now :
  cache (updateMetrics s sid tn ok rt now) = cache s.
Proof.
  unfold updateMetrics.
  destruct (mapGet (performanceMetrics s) sid) as [m|]; [|reflexivity].
  destruct (mapGet m tn); reflexivity.
Qed.

Lemma updateMetrics_connected s sid tn ok rt now x :
  serverConnected (updateMetrics s sid tn ok rt now) x = serverConnected s x.
Proof.
  unfold serverConnected. rewrite RoutingFacts.updateMetrics_servers.
  reflexivity.
Qed.

Lemma get_absent c key now :
  mapGet (Cache.cache c) key = None ->
  Cache.get c key now
  = (None, {| Cache.cache := Cache.cache c;
              Cache.defaultTTL := Cache.defaultTTL c;
              Cache.maxSize := Cache.maxSize c;
              Cache.totalRequests := S (Cache.totalRequests c);
              Cache.totalHits := Cache.totalHits c;
              Cache.toolTypeTTL := Cache.toolTypeTTL c |}).
Proof. intros H. unfold Cache.get. rewrite H. reflexivity. Qed.



(** X12.  A call through the tool-call handler to a namespaced tool
    whose provider raises an error is recorded twice: once by
    [executeToolCall] and once more by the handler's own error path,
    so [totalCalls] and [failureCount] both grow by two for the one
    request sent. *)
Theorem failed_call_is_recorded_twice s sid tool args now message rt m :
  includes sid ":" = false ->
  Dedup.enabled (deduplication s)
  && mapHas (mergedTools s) (sid ++ ":" ++ tool) = false ->
  serverConnected s sid = true ->
  mapGet (Cache.cache (cache s)) (cacheKey sid tool args) = None ->
  provider sid tool args now = (inr message, rt) ->
  metricsOf s sid tool = Some m ->
  exists s' m',
    callToolDefault provider s (sid ++ ":" ++ tool) args now
    = (ToolError ("Error executing tool " ++ (sid ++ ":" ++ tool) ++ ": "
                  ++ message)%string,
       s', (now + rt)%Z)
    /\ requests s'
       = requests s ++ [ {| reqServer := sid; reqTool := tool;
                            reqArgs := args |} ]
    /\ metricsOf s' sid tool = Some m'
    /\ totalCalls m' = totalCalls m + 2
    /\ failureCount m' = failureCount m + 2.
Proof.
  intros Hsid Hmerged Hc Hmiss Hp Hm.
  unfold callToolDefault, delegateToolCall. rewrite Hmerged.
  rewrite (parse_splits_at_first_colon sid tool Hsid).
  unfold executeToolCall. rewrite Hc. cbn [negb].
  rewrite (get_absent _ _ now Hmiss). cbv iota beta. rewrite Hp.
  cbv iota beta.
  change (sid ++ ":" ++ tool)%string with (sid ++ String ":" tool)%string.
  rewrite includes_app_colon.
  change (sid ++ String ":" tool)%string with (sid ++ ":" ++ tool)%string.
  set (s2 := logRequest _ _).
  assert (Hm2 : metricsOf s2 sid tool = Some m) by exact Hm.
  pose proof (metricsOf_update s2 sid tool false rt (now + rt)%Z m Hm2) as H1.
  pose proof (metricsOf_update _ sid tool false (now + rt - now)%Z
                (now + rt)%Z _ H1) as H2.
  eexists. eexists. split; [reflexivity|].
  split; [rewrite !RoutingFacts.updateMetrics_requests; reflexivity|].
  split; [exact H2|]. simpl. split; lia.
Qed.

End Calling.


Lemma failed_call_is_recorded_twice_witness :
  includes "P" ":" = false
  /\ Dedup.enabled (deduplication serverP)
     && mapHas (mergedTools serverP) ("P" ++ ":" ++ "read") = false
  /\ serverConnected serverP "P" = true
  /\ mapGet (Cache.cache (cache serverP)) (cacheKey "P" "read" None) = None
  /\ failing "P" "read" None 10 = (inr "connection closed", 5%Z)
  /\ metricsOf serverP "P" "read" = Some (freshMetrics 0)
  /\ exists s' m',
       callToolDefault failing serverP ("P" ++ ":" ++ "read") None 10
       = (ToolError ("Error executing tool " ++ ("P" ++ ":" ++ "read") ++ ": "
                     ++ "connection closed")%string,
          s', (10 + 5)%Z)
       /\ requests s'
          = requests serverP ++ [ {| reqServer := "P"; reqTool := "read";
                                     reqArgs := None |} ]
       /\ metricsOf s' "P" "read" = Some m'
       /\ totalCalls m' = totalCalls (freshMetrics 0) + 2
       /\ failureCount m' = failureCount (freshMetrics 0) + 2.
Proof.
  assert (H1 : includes "P" ":" = false) by reflexivity.
  assert (H2 : Dedup.enabled (deduplication serverP)
               && mapHas (mergedTools serverP) ("P" ++ ":" ++ "read") = false)
    by reflexivity.
  assert (H3 : serverConnected serverP "P" = true) by reflexivity.
  assert (H4 : mapGet (Cache.cache (cache serverP)) (cacheKey "P" "read" None)
               = None) by reflexivity.
  assert (H5 : failing "P" "read" None 10 = (inr "connection closed", 5%Z))
    by reflexivity.
  assert (H6 : metricsOf serverP "P" "read" = Some (freshMetrics 0))
    by reflexivity.
  split; [exact H1|]. split; [exact H2|]. split; [exact H3|].
  split; [exact H4|]. split; [exact H5|]. split; [exact H6|].
  exact (failed_call_is_recorded_twice failing serverP "P" "read" None 10
           "connection closed" 5 (freshMetrics 0) H1 H2 H3 H4 H5 H6).
Defined.

End CallFacts.

(* ================================================================== *)
(** ** The registry and the tool list *)
(* ================================================================== *)

Module RegistryFacts.
Import JS SDK Meta Calls Handler MapFacts CacheRunFacts.
Import IdentifierFacts Scenarios.
Local Open Scope nat_scope.
Local Open Scope list_scope.

Section Registry.
Variable childSession : string -> list string -> option (list Tool).
Variable provider : string -> string -> option json -> Z -> (json + string) * Z.

Lemma mapHas_mapSet_same {V} (m : Map V) k v : mapHas (mapSet m k v) k = true.
Proof. unfold mapHas. rewrite mapGet_mapSet_same. reflexivity. Qed.

Lemma connectToServer_registers s cfg now :
  mapHas (servers (connectToServer childSession s cfg now)) (Discovery.id cfg)
  = true.
Proof.
  unfold connectToServer.
  destruct (mapHas (servers s) (Discovery.id cfg)) eqn:E; [exact E|].
  destruct (Discovery.command cfg) as [|command args].
  - apply mapHas_mapSet_same.
  - destruct (childSession command args); apply mapHas_mapSet_same.
Qed.

(** X13.  Once [connectToServer] has returned for a server id, a
    later call with a configuration of the same id changes nothing and
    starts no child process, also when the first attempt failed. *)
Theorem connectToServer_never_retries s cfg cfg' now now' :
  Discovery.id cfg' = Discovery.id cfg ->
  connectToServer childSession (connectToServer childSession s cfg now)
    cfg' now'
  = connectToServer childSession s cfg now.
Proof.
  intros Hid. unfold connectToServer at 1. rewrite Hid.
  rewrite connectToServer_registers. reflexivity.
Qed.

End Registry.

Lemma connectToServer_never_retries_witness :
  Discovery.id evilConfig = Discovery.id evilConfig
  /\ connectToServer (fun _ _ => None)
       (connectToServer (fun _ _ => None) Meta.create evilConfig 0)
       evilConfig 9
     = connectToServer (fun _ _ => None) Meta.create evilConfig 0.
Proof.
  split; [reflexivity|].
  apply (connectToServer_never_retries (fun _ _ => None) Meta.create
           evilConfig evilConfig 0 9).
  reflexivity.
Defined.

(** *** The tool list *)

Lemma keys_fold_mapSet {A V} (key : A -> string) (val : A -> V) l :
  forall (m : Map V) k,
    In k (map fst (fold_left (fun m x => mapSet m (key x) (val x)) l m))
    <-> In k (map fst m) \/ In k (map key l).
Proof.
  induction l as [|x r IH]; intros m k; simpl.
  - tauto.
  - rewrite IH, keys_mapSet. intuition.
Qed.

Lemma entries_fold_mapSet {A V} (key : A -> string) (val : A -> V)
    (P : string * V -> Prop) l :
  (forall x, P (key x, val x)) ->
  forall m, Forall P m ->
            Forall P (fold_left (fun m x => mapSet m (key x) (val x)) l m).
Proof.
  intros HP. induction l as [|x r IH]; intros m Hm; simpl; [exact Hm|].
  apply IH. apply Forall_mapSet_key; [exact Hm|apply HP].
Qed.

Lemma isConnected_iff st : isConnected st = true <-> st = Connected.
Proof. destruct st; simpl; split; congruence. Qed.

Lemma connectedServerTools_spec s o :
  In o (connectedServerTools s)
  <-> exists info,
        In (Dedup.serverId o, info) (servers s)
        /\ status info = Connected
        /\ In (Dedup.tool o) (tools info).
Proof.
  unfold connectedServerTools. rewrite in_flat_map. split.
  - intros [[sid info] [Hin Ho]].
    destruct (isConnected (status info)) eqn:Hst; [|contradiction].
    apply in_map_iff in Ho. destruct Ho as [t [<- Ht]]. simpl.
    exists info. split; [exact Hin|]. split; [|exact Ht].
    apply isConnected_iff. exact Hst.
  - intros [info (Hin & Hst & Ht)].
    exists (Dedup.serverId o, info). split; [exact Hin|].
    rewrite Hst. simpl. apply in_map_iff. exists (Dedup.tool o).
    split; [destruct o; reflexivity|exact Ht].
Qed.

(** X14.  After [refreshToolsList], the namespaced tool table holds
    exactly the names [serverId:toolName] of the tools of connected
    servers; tools of servers that are not connected are absent. *)
Theorem refreshToolsList_lists_connected_tools s n :
  mapHas (allTools (refreshToolsList s)) n = true
  <-> exists sid info t,
        In (sid, info) (servers s)
        /\ status info = Connected
        /\ In t (tools info)
        /\ n = (sid ++ ":" ++ SDK.name t)%string.
Proof.
  rewrite mapHas_In. unfold refreshToolsList. cbn [allTools].
  rewrite (keys_fold_mapSet
             (fun o => (Dedup.serverId o ++ ":" ++ SDK.name (Dedup.tool o))%string)
             (fun o =>
                ({| SDK.name :=
                      (Dedup.serverId o ++ ":" ++ SDK.name (Dedup.tool o))%string;
                    SDK.description := SDK.description (Dedup.tool o);
                    SDK.inputSchema := SDK.inputSchema (Dedup.tool o) |},
                 Dedup.serverId o))).
  simpl. rewrite in_map_iff. split.
  - intros [[]|[o [<- Ho]]].
    apply connectedServerTools_spec in Ho. destruct Ho as [info (H1 & H2 & H3)].
    exists (Dedup.serverId o), info, (Dedup.tool o). auto.
  - intros (sid & info & t & H1 & H2 & H3 & ->). right.
    exists {| Dedup.serverId := sid; Dedup.tool := t |}.
    split; [reflexivity|]. apply connectedServerTools_spec.
    exists info. auto.
Qed.

Lemma NoDup_fold_mapSet {A V} (key : A -> string) (val : A -> V) l :
  forall m : Map V,
    NoDup (map fst m) ->
    NoDup (map fst (fold_left (fun m x => mapSet m (key x) (val x)) l m)).
Proof.
  induction l as [|x r IH]; intros m Hm; simpl; [exact Hm|].
  apply IH. apply NoDup_mapSet. exact Hm.
Qed.

Lemma entries_fold_mapSet_in {A V} (key : A -> string) (val : A -> V)
    (P : string * V -> Prop) l :
  (forall x, In x l -> P (key x, val x)) ->
  forall m, Forall P m ->
            Forall P (fold_left (fun m x => mapSet m (key x) (val x)) l m).
Proof.
  induction l as [|x r IH]; intros HP m Hm; simpl; [exact Hm|].
  apply IH.
  - intros y Hy. apply HP. right. exact Hy.
  - apply Forall_mapSet_key; [exact Hm|]. apply HP. left. reflexivity.
Qed.

End RegistryFacts.

(* ================================================================== *)
(** ** The range of the string similarity *)
(* ================================================================== *)

Module RangeFacts.
Import JS SDK Dedup Matching CacheRunFacts.
Local Open Scope nat_scope.
Local Open Scope list_scope.

Lemma marked_le flags : length (marked flags) <= length flags.
Proof.
  unfold marked. etransitivity; [apply filter_length_le|].
  rewrite length_seq. lia.
Qed.

Lemma mismatches_le l1 l2 : mismatches l1 l2 <= length l1.
Proof.
  unfold mismatches. etransitivity; [apply filter_length_le|].
  rewrite length_combine. lia.
Qed.

Lemma jaroFormula_range len1 len2 m t :
  0 < m -> m <= len1 -> m <= len2 -> t <= m ->
  (0 <= jaroFormula len1 len2 m t <= 1)%Q.
Proof.
  intros Hm H1 H2 Ht. unfold jaroFormula.
  pose proof (ofNat_pos m Hm) as Pm.
  pose proof (ofNat_pos len1 ltac:(lia)) as P1.
  pose proof (ofNat_pos len2 ltac:(lia)) as P2.
  pose proof (ofNat_le _ _ H1) as L1.
  pose proof (ofNat_le _ _ H2) as L2.
  pose proof (ofNat_le _ _ Ht) as Lt.
  pose proof (ofNat_nonneg t) as Nt.
  assert (A : (0 <= ofNat m / ofNat len1 <= 1)%Q).
  { split; [apply Qle_shift_div_l|apply Qle_shift_div_r]; auto; lra. }
  assert (B : (0 <= ofNat m / ofNat len2 <= 1)%Q).
  { split; [apply Qle_shift_div_l|apply Qle_shift_div_r]; auto; lra. }
  assert (C : (0 <= (ofNat m - ofNat t / 2) / ofNat m <= 1)%Q).
  { assert (0 <= ofNat t / 2 <= ofNat m / 2)%Q.
    { split; [apply Qle_shift_div_l|]; try lra.
      apply Qle_shift_div_r; [reflexivity|].
      setoid_replace (ofNat m / 2 * 2)%Q with (ofNat m) by field. exact Lt. }
    assert (0 <= ofNat m / 2)%Q by lra.
    split; [apply Qle_shift_div_l|apply Qle_shift_div_r]; auto; try lra.
    setoid_replace (ofNat m)%Q with (ofNat m / 2 + ofNat m / 2)%Q at 2 by field.
    lra. }
  split.
  - apply Qle_shift_div_l; [reflexivity|]. lra.
  - apply Qle_shift_div_r; [reflexivity|]. lra.
Qed.

Lemma jaroSimilarity_range s1 s2 : (0 <= jaroSimilarity s1 s2 <= 1)%Q.
Proof.
  unfold jaroSimilarity, jaroRun.
  set (a1 := list_ascii_of_string s1). set (a2 := list_ascii_of_string s2).
  destruct ((length a1 =? 0) && (length a2 =? 0)); [split; discriminate|].
  destruct ((length a1 =? 0) || (length a2 =? 0)); [split; discriminate|].
  destruct (matches (findMatches a1 a2) =? 0) eqn:Em; [split; discriminate|].
  apply Nat.eqb_neq in Em.
  destruct (JaroFacts.marked_lengths a1 a2) as [M1 M2]. simpl in M1, M2.
  destruct (JaroFacts.findMatches_spec a1 a2) as (L1 & L2 & _).
  simpl in L1, L2.
  rewrite JaroFacts.countTranspositions_spec by lia.
  simpl. apply jaroFormula_range.
  - lia.
  - rewrite <- M1, <- L1. apply marked_le.
  - rewrite <- M2, <- L2. apply marked_le.
  - etransitivity; [apply mismatches_le|]. rewrite length_map. lia.
Qed.

(** X16.  The similarity of two strings always lies between 0 and 1;
    a string has similarity 1 with itself, except the empty string,
    which has similarity 0 with everything. *)
Theorem calculateStringSimilarity_range s1 s2 :
  (0 <= calculateStringSimilarity s1 s2 <= 1)%Q
  /\ calculateStringSimilarity s1 s1 = (if truthyStr s1 then 1 else 0)%Q.
Proof.
  split.
  - unfold calculateStringSimilarity.
    destruct (negb (truthyStr s1) || negb (truthyStr s2));
      [split; discriminate|].
    destruct (String.eqb s1 s2); [split; discriminate|].
    pose proof (jaroSimilarity_range (toLowerCase s1) (toLowerCase s2))
      as [Hlo Hhi].
    set (j := jaroSimilarity _ _) in *.
    set (p := Nat.min 4 _).
    assert (Hp : (0 <= ofNat p <= 4)%Q).
    { split; [apply ofNat_nonneg|].
      change 4%Q with (ofNat 4). apply ofNat_le. subst p. apply Nat.le_min_l. }
    split.
    + apply Q.min_glb; [discriminate|].
      assert (0 <= (1 # 10) * ofNat p * (1 - j))%Q.
      { apply Qmult_le_0_compat; [|lra].
        apply Qmult_le_0_compat; [discriminate|tauto]. }
      lra.
    + apply Q.le_min_l.
  - unfold calculateStringSimilarity.
    destruct s1 as [|c r]; [reflexivity|]. cbn [truthyStr negb orb].
    rewrite String.eqb_refl. reflexivity.
Qed.

End RangeFacts.

(* ================================================================== *)
(** ** Merging partitions the tools *)
(* ================================================================== *)

Module PartitionFacts.
Import JS SDK Dedup Claims Groups CacheRunFacts Scenarios.
Local Open Scope nat_scope.
Local Open Scope list_scope.

Lemma filter_partition {A} (f g : A -> bool) l :
  (forall x, g x = true -> f x = true) ->
  Permutation (filter g l ++ filter (fun x => f x && negb (g x)) l)
              (filter f l).
Proof.
  intros Hgf. induction l as [|x r IH]; simpl; [constructor|].
  destruct (g x) eqn:Eg.
  - rewrite (Hgf _ Eg). simpl. apply perm_skip. exact IH.
  - destruct (f x); simpl; [|exact IH].
    apply Permutation_sym. apply Permutation_cons_app.
    apply Permutation_sym. exact IH.
Qed.

Lemma has_fst_filter (ch : nat * ServerTool -> bool) rest p :
  NoDup (map fst rest) -> In p rest ->
  has (map fst (filter ch rest)) (fst p) = ch p.
Proof.
  intros Hnd Hin. unfold has. destruct (ch p) eqn:E.
  - apply existsb_exists. exists (fst p). split; [|apply Nat.eqb_refl].
    apply in_map. apply filter_In. auto.
  - apply not_true_is_false. intros H. apply existsb_exists in H.
    destruct H as (k & Hk & Heq). apply Nat.eqb_eq in Heq. subst k.
    apply in_map_iff in Hk. destruct Hk as (q & Hq & Hqin).
    apply filter_In in Hqin. destruct Hqin as [Hqin Hch].
    assert (q = p) by (eapply IdempotenceFacts.fst_injective; eauto).
    subst q. congruence.
Qed.

(** Once a group has taken [i] and the tools [ch] selects, the tools
    still unprocessed are those that were, less the selected ones. *)
Lemma unprocessed_after rest processed processed' ch i :
  NoDup (map fst rest) ->
  (forall p, In p rest -> fst p <> i) ->
  (forall k, has processed' k
             = (k =? i) || has (map fst (filter ch rest)) k || has processed k) ->
  (forall p, ch p = true -> unprocessed processed p = true) ->
  Permutation (map snd (filter ch rest)
               ++ map snd (filter (unprocessed processed') rest))
              (map snd (filter (unprocessed processed) rest)).
Proof.
  intros Hnd Hi Hhas Hch.
  rewrite <- map_app. apply Permutation_map.
  rewrite (filter_ext_in (unprocessed processed')
             (fun p => unprocessed processed p && negb (ch p))).
  - apply filter_partition. exact Hch.
  - intros p Hin. unfold unprocessed. rewrite Hhas.
    rewrite (has_fst_filter ch rest p Hnd Hin).
    destruct (Nat.eqb_spec (fst p) i) as [E|_]; [exfalso; eapply Hi; eauto|].
    simpl. destruct (ch p), (has processed (fst p)); reflexivity.
Qed.

Lemma rest_indices {A} a (l : list A) p :
  In p (combine (seq (S a) (length l)) l) -> fst p <> a.
Proof.
  intros H. apply IdempotenceFacts.indices_above in H. lia.
Qed.

Section Partition.
Variable config : DeduplicationConfig.

Lemma collect_spec ti l :
  NoDup (map fst l) ->
  forall group sims processed,
    fold_left (collectStep config ti) l (group, sims, processed)
    = (group ++ map snd (filter (chosen config ti processed) l),
       sims ++ map (fun p => analyzeSimilarity config (tool ti) (tool (snd p)))
                 (filter (chosen config ti processed) l),
       rev (map fst (filter (chosen config ti processed) l)) ++ processed).
Proof.
  induction l as [|[j tj] r IH]; intros Hnd group sims processed.
  - simpl. rewrite !app_nil_r. reflexivity.
  - inversion Hnd as [|? ? Hj Hr]; subst.
    cbn [fold_left filter].
    destruct (chosen config ti processed (j, tj)) eqn:Hc.
    2:{ replace (collectStep config ti (group, sims, processed) (j, tj))
          with (group, sims, processed); [apply IH; exact Hr|].
        unfold collectStep. unfold chosen in Hc. cbn [fst snd] in Hc.
        destruct (has processed j); [reflexivity|].
        cbn [negb andb] in Hc. rewrite Hc. reflexivity. }
    replace (collectStep config ti (group, sims, processed) (j, tj))
      with (group ++ [tj],
            sims ++ [analyzeSimilarity config (tool ti) (tool tj)],
            j :: processed).
    2:{ unfold collectStep. unfold chosen in Hc. cbn [fst snd] in Hc.
        apply andb_prop in Hc. destruct Hc as [H1 H2].
        apply negb_true_iff in H1. rewrite H1, H2. reflexivity. }
    rewrite (IH Hr).
    assert (filter (chosen config ti (j :: processed)) r
            = filter (chosen config ti processed) r) as ->.
    { apply filter_ext_in. intros [k tk] Hin. unfold chosen. cbn [fst snd].
      rewrite IdempotenceFacts.has_cons.
      destruct (Nat.eqb_spec k j) as [->|Hne]; [|reflexivity].
      exfalso. apply Hj. apply (in_map fst _ _ Hin). }
    cbn [map rev fst snd]. rewrite <- !app_assoc. reflexivity.
Qed.

Lemma selectBestTool_some t g : exists b, selectBestTool (t :: g) = Some b.
Proof. eexists. reflexivity. Qed.

Lemma groupToMerged_members ti g sims :
  members (groupToMerged ti (ti :: g) sims) = ti :: g.
Proof.
  unfold groupToMerged, members.
  destruct (1 <? length (ti :: g)) eqn:E.
  - destruct (selectBestTool_some ti g) as [b ->]. simpl.
    rewrite app_nil_r. reflexivity.
  - apply Nat.ltb_ge in E. destruct g; [reflexivity|simpl in E; lia].
Qed.

Lemma members_app a b : members (a ++ b) = members a ++ members b.
Proof. unfold members. apply flat_map_app. Qed.

Lemma mergeStep_eq pre t suf merged processed :
  mergeStep config (pre ++ t :: suf) (merged, processed) (length pre, t)
  = if has processed (length pre) then (merged, processed)
    else
      let taken :=
        filter (chosen config t processed)
          (combine (seq (S (length pre)) (length suf)) suf) in
      (merged
       ++ groupToMerged t (t :: map snd taken)
            (map (fun p => analyzeSimilarity config (tool t) (tool (snd p)))
               taken),
       length pre :: rev (map fst taken) ++ processed).
Proof.
  unfold mergeStep. destruct (has processed (length pre)); [reflexivity|].
  unfold collectSimilar. rewrite IdempotenceFacts.indexed_after.
  rewrite (collect_spec t _ (IdempotenceFacts.NoDup_indices _ _)).
  reflexivity.
Qed.

Lemma mergeLoop_partition suf :
  forall pre merged processed,
    Permutation
      (members (fst (fold_left (mergeStep config (pre ++ suf))
                       (combine (seq (length pre) (length suf)) suf)
                       (merged, processed))))
      (members merged
       ++ map snd (filter (unprocessed processed)
                     (combine (seq (length pre) (length suf)) suf))).
Proof.
  induction suf as [|t suf IH]; intros pre merged processed.
  - simpl. rewrite app_nil_r. reflexivity.
  - cbn [length seq combine fold_left filter].
    assert (Hpre : pre ++ t :: suf = (pre ++ [t]) ++ suf)
      by (rewrite <- app_assoc; reflexivity).
    assert (Hlen : S (length pre) = length (pre ++ [t]))
      by (rewrite length_app; simpl; lia).
    rewrite mergeStep_eq.
    unfold unprocessed at 1. cbn [fst].
    destruct (has processed (length pre)) eqn:Hp.
    + cbn [negb]. rewrite Hpre, Hlen. apply IH.
    + cbn [negb map snd]. cbv zeta. rewrite Hpre, Hlen.
      rewrite IH. rewrite <- Hlen.
      rewrite members_app, groupToMerged_members, <- app_assoc.
      apply Permutation_app_head. cbn [app]. apply perm_skip.
      apply unprocessed_after with (i := length pre).
      * apply IdempotenceFacts.NoDup_indices.
      * apply rest_indices.
      * intros k. rewrite IdempotenceFacts.has_cons,
          IdempotenceFacts.has_app, IdempotenceFacts.has_rev.
        rewrite orb_assoc. reflexivity.
      * intros p Hc. unfold chosen in Hc. apply andb_prop in Hc.
        exact (proj1 Hc).
Qed.

Lemma unprocessed_nil (l : list (nat * ServerTool)) :
  filter (unprocessed []) l = l.
Proof.
  induction l as [|p r IH]; simpl; [reflexivity|]. rewrite IH. reflexivity.
Qed.

Lemma map_snd_indexed {A} a (l : list A) :
  map snd (combine (seq a (length l)) l) = l.
Proof.
  revert a. induction l as [|x r IH]; intros a; simpl; [reflexivity|].
  rewrite IH. reflexivity.
Qed.

Lemma mergeLoop_members tools :
  Permutation (members (mergeLoop config tools)) tools.
Proof.
  unfold mergeLoop, indexed.
  rewrite (mergeLoop_partition tools [] [] []). simpl.
  rewrite unprocessed_nil, map_snd_indexed. reflexivity.
Qed.

(** *** The name groups of the two-stage path *)

Lemma nameGroups_partition suf :
  forall pre groups processed,
    Permutation
      (concat (fst (fold_left (nameGroupStep (pre ++ suf))
                      (combine (seq (length pre) (length suf)) suf)
                      (groups, processed))))
      (concat groups
       ++ map snd (filter (unprocessed processed)
                     (combine (seq (length pre) (length suf)) suf))).
Proof.
  induction suf as [|t suf IH]; intros pre groups processed.
  - simpl. rewrite app_nil_r. reflexivity.
  - cbn [length seq combine fold_left filter].
    set (rest := combine (seq (S (length pre)) (length suf)) suf).
    assert (Hpre : pre ++ t :: suf = (pre ++ [t]) ++ suf)
      by (rewrite <- app_assoc; reflexivity).
    assert (Hlen : S (length pre) = length (pre ++ [t]))
      by (rewrite length_app; simpl; lia).
    unfold unprocessed at 1. cbn [fst].
    destruct (has processed (length pre)) eqn:Hp.
    + replace (nameGroupStep (pre ++ t :: suf) (groups, processed)
                 (length pre, t)) with (groups, processed)
        by (unfold nameGroupStep; rewrite Hp; reflexivity).
      cbn [negb]. subst rest. rewrite Hpre, Hlen. apply IH.
    + cbn [negb map snd].
      assert (Hnd : NoDup (map fst rest))
        by apply IdempotenceFacts.NoDup_indices.
      set (ch := nameChosen t (length pre :: processed)).
      assert (Hstep :
                nameGroupStep (pre ++ t :: suf) (groups, processed)
                  (length pre, t)
                = (groups ++ [t :: map snd (filter ch rest)],
                   rev (map fst (filter ch rest))
                   ++ length pre :: processed)).
      { unfold nameGroupStep. rewrite Hp.
        rewrite IdempotenceFacts.indexed_after. fold rest.
        rewrite (IdempotenceFacts.nameCollect_spec t rest Hnd). reflexivity. }
      rewrite Hstep. subst rest. rewrite Hpre, Hlen.
      rewrite IH. rewrite <- Hlen.
      rewrite concat_app. cbn [concat]. rewrite app_nil_r, <- app_assoc.
      apply Permutation_app_head. cbn [app]. apply perm_skip.
      apply unprocessed_after with (i := length pre).
      * apply IdempotenceFacts.NoDup_indices.
      * apply rest_indices.
      * intros k. rewrite IdempotenceFacts.has_app, IdempotenceFacts.has_rev,
          IdempotenceFacts.has_cons.
        destruct (k =? length pre), (has (map fst (filter ch _)) k);
          reflexivity.
      * intros p Hc. unfold ch, nameChosen in Hc. apply andb_prop in Hc.
        destruct Hc as [Hc _]. rewrite IdempotenceFacts.has_cons in Hc.
        unfold unprocessed.
        destruct (fst p =? length pre); [discriminate|exact Hc].
Qed.

Lemma nameGroups_members tools :
  Permutation (concat (groupToolsByNameSimilarity tools)) tools.
Proof.
  unfold groupToolsByNameSimilarity, indexed.
  rewrite (nameGroups_partition tools [] [] []). simpl.
  rewrite unprocessed_nil, map_snd_indexed. reflexivity.
Qed.

Lemma cluster_members groups :
  forall merged,
    Permutation (members (fold_left (clusterStep config) groups merged))
                (members merged ++ concat groups).
Proof.
  induction groups as [|g r IH]; intros merged; simpl.
  - rewrite app_nil_r. reflexivity.
  - rewrite IH. rewrite app_assoc. apply Permutation_app_tail.
    unfold clusterStep. destruct g as [|x [|y g']].
    + rewrite members_app. apply Permutation_app_head.
      apply mergeLoop_members.
    + rewrite members_app. reflexivity.
    + rewrite members_app. apply Permutation_app_head.
      apply mergeLoop_members.
Qed.

Lemma mergeTools_members tools :
  enabled config = true ->
  Permutation (members (mergeTools config tools)) tools.
Proof.
  intros Hen. unfold mergeTools. rewrite Hen. cbn [negb orb].
  destruct (length tools =? 0) eqn:E0.
  - apply Nat.eqb_eq in E0. destruct tools; [constructor|discriminate].
  - destruct (100 <? length tools).
    + unfold mergeToolsWithClustering. rewrite cluster_members. simpl.
      apply nameGroups_members.
    + apply mergeLoop_members.
Qed.

(** X17.  With deduplication on, [mergeTools] partitions its input:
    taken together, the [originalTools] of the merged tools are the
    input tools, each one exactly once. *)
Theorem mergeTools_partitions_the_tools tools :
  enabled config = true ->
  Permutation (flat_map originalTools (mergeTools config tools)) tools.
Proof. apply mergeTools_members. Qed.

End Partition.

Lemma mergeTools_partitions_the_tools_witness :
  enabled defaultConfig = true
  /\ Permutation
       (flat_map originalTools (mergeTools defaultConfig threeTools))
       threeTools.
Proof.
  split; [reflexivity|].
  apply (mergeTools_partitions_the_tools defaultConfig threeTools).
  reflexivity.
Defined.

End PartitionFacts.

(* ================================================================== *)
(** ** Merged tools *)
(* ================================================================== *)

Module MergedFacts.
Import JS SDK Dedup Claims Groups CacheRunFacts PartitionFacts Scenarios.
Local Open Scope nat_scope.
Local Open Scope list_scope.

(** The reduction both [selectBestTool] and [generateMergedDescription]
    run: it returns the first element of greatest measure. *)
Lemma first_greatest {A} (mu : A -> nat) rest :
  forall pre best mid,
    Forall (fun x => mu x < mu best) pre ->
    Forall (fun x => mu x <= mu best) mid ->
    exists pre' b suf,
      pre ++ best :: mid ++ rest = pre' ++ b :: suf
      /\ fold_left (fun best cur => if mu best <? mu cur then cur else best)
           rest best = b
      /\ Forall (fun x => mu x < mu b) pre'
      /\ Forall (fun x => mu x <= mu b) suf.
Proof.
  induction rest as [|c rest IH]; intros pre best mid Hpre Hmid.
  - exists pre, best, mid. rewrite app_nil_r. auto.
  - cbn [fold_left]. destruct (Nat.ltb_spec (mu best) (mu c)) as [Hlt|Hge].
    + destruct (IH (pre ++ best :: mid) c []) as (pre' & b & suf & E & F & P & S).
      * apply Forall_app. split.
        -- eapply Forall_impl; [|exact Hpre]. simpl. intros; lia.
        -- constructor; [exact Hlt|].
           eapply Forall_impl; [|exact Hmid]. simpl. intros; lia.
      * constructor.
      * exists pre', b, suf. split; [|auto].
        rewrite <- E. rewrite <- app_assoc. reflexivity.
    + destruct (IH pre best (mid ++ [c])) as (pre' & b & suf & E & F & P & S).
      * exact Hpre.
      * apply Forall_app. split; [exact Hmid|]. constructor; [exact Hge|constructor].
      * exists pre', b, suf. split; [|auto].
        rewrite <- E. rewrite <- app_assoc. reflexivity.
Qed.

(** X18.  [selectBestTool] returns the first tool whose description is
    longest: every tool before it has a strictly shorter description
    and none after it has a longer one. *)
Theorem selectBestTool_first_longest first rest :
  exists pre best suf,
    selectBestTool (first :: rest) = Some best
    /\ first :: rest = pre ++ best :: suf
    /\ Forall (fun o => descLength (tool o) < descLength (tool best)) pre
    /\ Forall (fun o => descLength (tool o) <= descLength (tool best)) suf.
Proof.
  destruct (first_greatest (fun o => descLength (tool o)) rest [] first [])
    as (pre & b & suf & E & F & P & S); [constructor|constructor|].
  exists pre, b, suf. split; [|auto].
  unfold selectBestTool. f_equal. exact F.
Qed.

Lemma selectBestTool_spec t g :
  exists best,
    selectBestTool (t :: g) = Some best
    /\ In best (t :: g)
    /\ Forall (fun o => descLength (tool o) <= descLength (tool best)) (t :: g).
Proof.
  destruct (first_greatest (fun o => descLength (tool o)) g [] t [])
    as (pre & b & suf & E & F & P & S); [constructor|constructor|].
  simpl in E. exists b. split; [unfold selectBestTool; f_equal; exact F|].
  rewrite E. split; [apply in_elt|].
  apply Forall_app. split.
  - eapply Forall_impl; [|exact P]. simpl. intros; lia.
  - constructor; [lia|exact S].
Qed.

Lemma descriptions_spec tools d :
  In d (flat_map (fun t => match description (tool t) with
                           | Some d => if 0 <? String.length d then [d] else []
                           | None => []
                           end) tools)
  <-> exists t, In t tools /\ description (tool t) = Some d
                /\ 0 < String.length d.
Proof.
  rewrite in_flat_map. split.
  - intros (t & Hin & Hd). exists t. split; [exact Hin|].
    destruct (description (tool t)) as [d'|]; [|contradiction].
    destruct (Nat.ltb_spec 0 (String.length d')) as [Hpos|]; [|contradiction].
    destruct Hd as [->|[]]. auto.
  - intros (t & Hin & Hd & Hpos). exists t. split; [exact Hin|].
    rewrite Hd. apply Nat.ltb_lt in Hpos. rewrite Hpos. left. reflexivity.
Qed.

(** X19.  [generateMergedDescription] returns the longest non-empty
    description found among the tools, and the fixed text
    [Merged tool from multiple servers] when no tool has one. *)
Theorem generateMergedDescription_longest tools :
  ((forall t, In t tools -> descLength (tool t) = 0) ->
   generateMergedDescription tools = "Merged tool from multiple servers")
  /\ ((exists t, In t tools /\ 0 < descLength (tool t)) ->
      exists t,
        In t tools
        /\ description (tool t) = Some (generateMergedDescription tools)
        /\ forall t', In t' tools ->
                      descLength (tool t')
                      <= String.length (generateMergedDescription tools)).
Proof.
  unfold generateMergedDescription.
  set (ds := flat_map _ tools).
  assert (Hds : forall d, In d ds <-> exists t, In t tools
                                      /\ description (tool t) = Some d
                                      /\ 0 < String.length d)
    by (intros d; apply descriptions_spec).
  clearbody ds. split.
  - intros Hnone. destruct ds as [|d r]; [reflexivity|]. exfalso.
    destruct (proj1 (Hds d) (or_introl eq_refl)) as (t & Hin & Hd & Hpos).
    specialize (Hnone t Hin). unfold descLength in Hnone.
    rewrite Hd in Hnone. lia.
  - intros (t0 & Hin0 & Hpos0). destruct ds as [|d r].
    + exfalso. unfold descLength in Hpos0.
      destruct (description (tool t0)) as [d0|] eqn:Hd0; [|lia].
      apply (proj2 (Hds d0)). exists t0. auto.
    + destruct (first_greatest String.length r [] d [])
        as (pre & b & suf & E & F & P & S); [constructor|constructor|].
      simpl in E. rewrite F.
      assert (Hb : In b (d :: r)) by (rewrite E; apply in_elt).
      destruct (proj1 (Hds b) Hb) as (t & Hin & Hd & Hpos).
      exists t. split; [exact Hin|]. split; [exact Hd|].
      intros t' Hin'. unfold descLength.
      destruct (description (tool t')) as [d'|] eqn:Hd'; [|lia].
      destruct (Nat.eq_dec (String.length d') 0) as [Hz|Hnz]; [lia|].
      assert (Hd'in : In d' (d :: r)).
      { apply (proj2 (Hds d')). exists t'. split; [exact Hin'|].
        split; [exact Hd'|lia]. }
      rewrite E in Hd'in. apply in_app_or in Hd'in.
      rewrite Forall_forall in P, S.
      destruct Hd'in as [H|[H|H]].
      * specialize (P _ H). lia.
      * subst d'. lia.
      * exact (S _ H).
Qed.

Lemma generateMergedDescription_longest_witness :
  (exists t, In t threeTools /\ 0 < descLength (tool t))
  /\ exists t,
       In t threeTools
       /\ description (tool t) = Some (generateMergedDescription threeTools)
       /\ forall t', In t' threeTools ->
                     descLength (tool t')
                     <= String.length (generateMergedDescription threeTools).
Proof.
  assert (H : exists t, In t threeTools /\ 0 < descLength (tool t)).
  { exists (openTool "A" "read"). split; [left; reflexivity|].
    apply Nat.ltb_lt. reflexivity. }
  split; [exact H|].
  exact (proj2 (generateMergedDescription_longest threeTools) H).
Defined.

(** *** Every merged tool *)

Section Merged.
Variable config : DeduplicationConfig.

Lemma singleTool_wellGrouped t : wellGrouped (singleTool t).
Proof.
  exists t. simpl. split; [left; reflexivity|].
  split; [reflexivity|]. split; [reflexivity|].
  split; [constructor; [lia|constructor]|].
  intros _; split; reflexivity.
Qed.

Lemma groupToMerged_wellGrouped t members sims :
  Forall wellGrouped (groupToMerged t (t :: members) sims).
Proof.
  unfold groupToMerged.
  destruct (1 <? length (t :: members)) eqn:E.
  - destruct (selectBestTool_spec t members) as (b & -> & Hin & Hmax).
    constructor; [|constructor].
    exists b. cbn [originalTools primaryServerId asTool inputSchema confidence].
    split; [exact Hin|]. split; [reflexivity|]. split; [reflexivity|].
    split; [exact Hmax|].
    apply Nat.ltb_lt in E. intros H. lia.
  - constructor; [apply singleTool_wellGrouped|constructor].
Qed.

(** What holds of the merged tool of every group holds of every tool
    [mergeTools] produces. *)
Section Every.
Variable P : MergedTool -> Prop.
Hypothesis on_group :
  forall t members sims, Forall P (groupToMerged t (t :: members) sims).

Lemma singleTool_every t : P (singleTool t).
Proof.
  pose proof (on_group t [] []) as H. inversion H; subst. assumption.
Qed.

Lemma mergeLoop_all suf :
  forall pre merged processed,
    Forall P merged ->
    Forall P
      (fst (fold_left (mergeStep config (pre ++ suf))
              (combine (seq (length pre) (length suf)) suf)
              (merged, processed))).
Proof.
  induction suf as [|t suf IH]; intros pre merged processed Hm.
  - exact Hm.
  - cbn [length seq combine fold_left].
    rewrite mergeStep_eq.
    assert (Hpre : pre ++ t :: suf = (pre ++ [t]) ++ suf)
      by (rewrite <- app_assoc; reflexivity).
    assert (Hlen : S (length pre) = length (pre ++ [t]))
      by (rewrite length_app; simpl; lia).
    destruct (has processed (length pre)).
    + rewrite Hpre, Hlen. apply IH. exact Hm.
    + cbv zeta. rewrite Hpre, Hlen. apply IH. rewrite <- Hlen.
      apply Forall_app. split; [exact Hm|].
      apply on_group.
Qed.

Lemma mergeLoop_every tools : Forall P (mergeLoop config tools).
Proof.
  unfold mergeLoop, indexed. apply (mergeLoop_all tools [] [] []). constructor.
Qed.

Lemma cluster_every groups :
  forall merged,
    Forall P merged ->
    Forall P (fold_left (clusterStep config) groups merged).
Proof.
  induction groups as [|g r IH]; intros merged Hm; [exact Hm|].
  cbn [fold_left]. apply IH. unfold clusterStep.
  destruct g as [|x [|y g']]; apply Forall_app; split; try exact Hm.
  - apply mergeLoop_every.
  - constructor; [apply singleTool_every|constructor].
  - apply mergeLoop_every.
Qed.

Lemma mergeTools_every tools : Forall P (mergeTools config tools).
Proof.
  unfold mergeTools.
  destruct (negb (enabled config) || (length tools =? 0)); [constructor|].
  destruct (100 <? length tools).
  - apply cluster_every. constructor.
  - apply mergeLoop_every.
Qed.

End Every.

Lemma mergeLoop_wellGrouped tools :
  Forall (wellGrouped) (mergeLoop config tools).
Proof. apply mergeLoop_every. exact groupToMerged_wellGrouped. Qed.

Lemma mergeTools_wellGrouped tools :
  Forall (wellGrouped) (mergeTools config tools).
Proof. apply mergeTools_every. exact groupToMerged_wellGrouped. Qed.

(** X20.  Every merged tool has a member with a longest description
    that supplies its primary server and its input schema, and a
    merged tool that stands for one tool is that tool unchanged, with
    confidence 1. *)
Theorem merged_tool_follows_best_member tools m :
  In m (mergeTools config tools) ->
  exists best,
    In best (originalTools m)
    /\ primaryServerId m = serverId best
    /\ inputSchema (asTool m) = inputSchema (tool best)
    /\ (forall o, In o (originalTools m) ->
                  descLength (tool o) <= descLength (tool best))
    /\ (length (originalTools m) = 1 ->
        confidence m = 1%Q /\ asTool m = tool best).
Proof.
  intros Hin. pose proof (mergeTools_wellGrouped tools) as Hall.
  rewrite Forall_forall in Hall.
  destruct (Hall m Hin) as (best & H1 & H2 & H3 & H4 & H5).
  exists best. rewrite Forall_forall in H4. auto 10.
Qed.

Lemma length_members merged :
  Forall (wellGrouped) merged ->
  length (filter (fun t => 1 <? length (originalTools t)) merged)
  + length merged <= length (members merged).
Proof.
  induction 1 as [|m r Hm Hr IH]; [simpl; lia|].
  unfold members in *. cbn [flat_map filter length]. rewrite length_app.
  destruct Hm as (best & Hin & _).
  assert (0 < length (originalTools m))
    by (destruct (originalTools m); [contradiction|simpl; lia]).
  destruct (Nat.ltb_spec 1 (length (originalTools m))); simpl; lia.
Qed.

(** X21.  With deduplication on, [getStats] reports the number of
    input tools, at least one input tool absorbed for every group of
    several tools, and a reduction between 0 and 100 percent. *)
Theorem getStats_within_bounds tools :
  enabled config = true ->
  totalTools (getStats config tools) = length tools
  /\ mergedGroups (getStats config tools) + length (mergeTools config tools)
     <= length tools
  /\ (0 <= reductionPercentage (getStats config tools) <= 100)%Q.
Proof.
  intros Hen.
  pose proof (length_members _ (mergeTools_wellGrouped tools)) as Hlen.
  rewrite (Permutation_length (mergeTools_members config tools Hen)) in Hlen.
  unfold getStats. cbn [totalTools mergedGroups reductionPercentage].
  split; [reflexivity|]. split; [exact Hlen|].
  destruct (Nat.ltb_spec 0 (length tools)) as [Hpos|_]; [|split; discriminate].
  assert (Hk : length (mergeTools config tools) <= length tools) by lia.
  pose proof (ofNat_pos _ Hpos) as Pn.
  pose proof (ofNat_le _ _ Hk) as Lk.
  pose proof (ofNat_nonneg (length (mergeTools config tools))) as Nk.
  assert (0 <= (ofNat (length tools) - ofNat (length (mergeTools config tools)))
               / ofNat (length tools) <= 1)%Q.
  { split; [apply Qle_shift_div_l|apply Qle_shift_div_r]; auto; lra. }
  lra.
Qed.

End Merged.

Lemma merged_tool_follows_best_member_witness :
  In (hd (singleTool (openTool "A" "read"))
        (mergeTools defaultConfig threeTools))
     (mergeTools defaultConfig threeTools)
  /\ exists best,
       In best (originalTools
                  (hd (singleTool (openTool "A" "read"))
                     (mergeTools defaultConfig threeTools)))
       /\ primaryServerId
            (hd (singleTool (openTool "A" "read"))
               (mergeTools defaultConfig threeTools))
          = serverId best
       /\ inputSchema
            (asTool (hd (singleTool (openTool "A" "read"))
                       (mergeTools defaultConfig threeTools)))
          = inputSchema (tool best)
       /\ (forall o,
             In o (originalTools
                     (hd (singleTool (openTool "A" "read"))
                        (mergeTools defaultConfig threeTools))) ->
             descLength (tool o) <= descLength (tool best))
       /\ (length (originalTools
                     (hd (singleTool (openTool "A" "read"))
                        (mergeTools defaultConfig threeTools))) = 1 ->
           confidence (hd (singleTool (openTool "A" "read"))
                         (mergeTools defaultConfig threeTools)) = 1%Q
           /\ asTool (hd (singleTool (openTool "A" "read"))
                        (mergeTools defaultConfig threeTools))
              = tool best).
Proof.
  assert (H : In (hd (singleTool (openTool "A" "read"))
                    (mergeTools defaultConfig threeTools))
                (mergeTools defaultConfig threeTools)).
  { vm_compute. left. reflexivity. }
  split; [exact H|].
  exact (merged_tool_follows_best_member defaultConfig threeTools _ H).
Defined.

Lemma getStats_within_bounds_witness :
  enabled defaultConfig = true
  /\ totalTools (getStats defaultConfig threeTools) = length threeTools
  /\ mergedGroups (getStats defaultConfig threeTools)
     + length (mergeTools defaultConfig threeTools)
     <= length threeTools
  /\ (0 <= reductionPercentage (getStats defaultConfig threeTools) <= 100)%Q.
Proof.
  split; [reflexivity|].
  apply (getStats_within_bounds defaultConfig threeTools).
  reflexivity.
Defined.

(** *** The same tool offered by two servers *)

Lemma mergeLoop_pair config x y :
  mergeLoop config [x; y]
  = if geb (score (analyzeSimilarity config (tool x) (tool y)))
           (similarityThreshold config)
    then groupToMerged x [x; y] [analyzeSimilarity config (tool x) (tool y)]
    else [singleTool x; singleTool y].
Proof.
  unfold mergeLoop, indexed. cbn [length seq combine fold_left].
  unfold mergeStep at 2. cbn [has existsb]. unfold collectSimilar.
  cbn [indexed length seq combine skipn fold_left].
  unfold collectStep. cbn [has existsb].
  destruct (geb _ _).
  - unfold mergeStep. cbn [has existsb Nat.eqb orb app]. reflexivity.
  - unfold mergeStep. cbn [has existsb Nat.eqb orb app].
    unfold collectSimilar. cbn [indexed length seq combine skipn fold_left].
    reflexivity.
Qed.

Lemma calculateSchemaSimilarity_self s :
  truthy s = true -> calculateSchemaSimilarity s s = 1%Q.
Proof.
  intros H. unfold calculateSchemaSimilarity. rewrite H. cbn [negb orb].
  rewrite String.eqb_refl. reflexivity.
Qed.

Lemma calculateStringSimilarity_self s :
  s <> EmptyString -> calculateStringSimilarity s s = 1%Q.
Proof.
  intros Hne. unfold calculateStringSimilarity.
  destruct s as [|c r]; [congruence|]. cbn [truthyStr negb orb].
  rewrite String.eqb_refl. reflexivity.
Qed.

(** X22.  Under the default configuration, a tool with a name, a
    description and a schema that two servers both offer is merged
    into one tool of that name, which stands for both offers, routes
    to the first server first and has confidence 1. *)
Theorem same_tool_on_two_servers_is_merged (t : Tool) (a b d : string) :
  name t <> EmptyString ->
  description t = Some d -> d <> EmptyString ->
  truthy (inputSchema t) = true ->
  exists m,
    mergeTools defaultConfig
      [ {| serverId := a; tool := t |}; {| serverId := b; tool := t |} ]
    = [m]
    /\ asTool m = t
    /\ originalTools m
       = [ {| serverId := a; tool := t |}; {| serverId := b; tool := t |} ]
    /\ primaryServerId m = a
    /\ (confidence m == 1)%Q.
Proof.
  intros Hn Hd Hdne Hs.
  unfold mergeTools. cbn [enabled defaultConfig negb orb length Nat.eqb Nat.ltb
                          Nat.leb].
  rewrite mergeLoop_pair. cbn [tool].
  assert (Hscore :
            score (analyzeSimilarity defaultConfig t t)
            = (0 + 1 * (4 # 10) + 1 * (35 # 100) + 1 * (25 # 100))%Q).
  { unfold analyzeSimilarity. cbn [score nameWeight descriptionWeight
                                   schemaWeight defaultConfig].
    unfold descOrEmpty. rewrite Hd.
    rewrite (calculateStringSimilarity_self _ Hn),
      (calculateStringSimilarity_self _ Hdne),
      (calculateSchemaSimilarity_self _ Hs). reflexivity. }
  rewrite Hscore.
  change (geb (0 + 1 * (4 # 10) + 1 * (35 # 100) + 1 * (25 # 100))
              (similarityThreshold defaultConfig)) with true.
  cbv iota. unfold groupToMerged. cbn [length Nat.ltb Nat.leb].
  unfold selectBestTool. cbn [fold_left tool]. rewrite Nat.ltb_irrefl.
  eexists. split; [reflexivity|].
  cbn [asTool originalTools primaryServerId confidence serverId tool].
  split.
  - unfold generateMergedName, generateMergedDescription.
    cbn [map tool fold_left mapGet assoc mapSet flat_map app].
    rewrite !String.eqb_refl. cbn [mapSet]. rewrite ?String.eqb_refl.
    rewrite Hd.
    assert (Hlen : (0 <? String.length d) = true).
    { destruct d; [congruence|reflexivity]. }
    rewrite Hlen. cbn [app fold_left]. rewrite Nat.ltb_irrefl.
    cbn [sortWith fold_right sortInsert].
    destruct t as [n de sc]. simpl in *. subst de. reflexivity.
  - split; [reflexivity|]. split; [reflexivity|].
    unfold sumScores. cbn [fold_left]. rewrite Hscore. reflexivity.
Qed.

Lemma same_tool_on_two_servers_is_merged_witness :
  name readTool <> EmptyString
  /\ description readTool = Some "Read a document"
  /\ "Read a document" <> EmptyString
  /\ truthy (inputSchema readTool) = true
  /\ exists m,
       mergeTools defaultConfig
         [ {| serverId := "P1"; tool := readTool |};
           {| serverId := "P2"; tool := readTool |} ]
       = [m]
       /\ asTool m = readTool
       /\ originalTools m
          = [ {| serverId := "P1"; tool := readTool |};
              {| serverId := "P2"; tool := readTool |} ]
       /\ primaryServerId m = "P1"
       /\ (confidence m == 1)%Q.
Proof.
  assert (H1 : name readTool <> EmptyString) by discriminate.
  assert (H2 : description readTool = Some "Read a document") by reflexivity.
  assert (H3 : "Read a document" <> EmptyString) by discriminate.
  assert (H4 : truthy (inputSchema readTool) = true) by reflexivity.
  split; [exact H1|]. split; [exact H2|]. split; [exact H3|].
  split; [exact H4|].
  exact (same_tool_on_two_servers_is_merged readTool "P1" "P2"
           "Read a document" H1 H2 H3 H4).
Defined.

(** X23.  Under the default configuration, a tool without a
    description that two servers both offer is not merged: the name
    and schema weights add up to 0.65, below the threshold 0.8, so both
    offers are listed on their own. *)
Theorem same_tool_without_description_is_kept_twice (t : Tool) (a b : string) :
  name t <> EmptyString ->
  descOrEmpty t = EmptyString ->
  truthy (inputSchema t) = true ->
  mergeTools defaultConfig
    [ {| serverId := a; tool := t |}; {| serverId := b; tool := t |} ]
  = [ singleTool {| serverId := a; tool := t |};
      singleTool {| serverId := b; tool := t |} ].
Proof.
  intros Hn Hd Hs.
  unfold mergeTools. cbn [enabled defaultConfig negb orb length Nat.eqb Nat.ltb
                          Nat.leb].
  rewrite mergeLoop_pair. cbn [tool].
  assert (Hscore :
            score (analyzeSimilarity defaultConfig t t)
            = (0 + 1 * (4 # 10) + 0 * (35 # 100) + 1 * (25 # 100))%Q).
  { unfold analyzeSimilarity. cbn [score nameWeight descriptionWeight
                                   schemaWeight defaultConfig].
    rewrite Hd.
    rewrite (calculateStringSimilarity_self _ Hn),
      (calculateSchemaSimilarity_self _ Hs). reflexivity. }
  rewrite Hscore. reflexivity.
Qed.

Lemma same_tool_without_description_is_kept_twice_witness :
  name {| name := "ping"; description := None; inputSchema := emptySchema |}
  <> EmptyString
  /\ descOrEmpty
       {| name := "ping"; description := None; inputSchema := emptySchema |}
     = EmptyString
  /\ truthy (inputSchema
               {| name := "ping"; description := None;
                  inputSchema := emptySchema |}) = true
  /\ mergeTools defaultConfig
       [ {| serverId := "P1";
            tool := {| name := "ping"; description := None;
                       inputSchema := emptySchema |} |};
         {| serverId := "P2";
            tool := {| name := "ping"; description := None;
                       inputSchema := emptySchema |} |} ]
     = [ singleTool
           {| serverId := "P1";
              tool := {| name := "ping"; description := None;
                         inputSchema := emptySchema |} |};
         singleTool
           {| serverId := "P2";
              tool := {| name := "ping"; description := None;
                         inputSchema := emptySchema |} |} ].
Proof.
  assert (H1 : name {| name := "ping"; description := None;
                       inputSchema := emptySchema |} <> EmptyString)
    by discriminate.
  split; [exact H1|]. split; [reflexivity|]. split; [reflexivity|].
  exact (same_tool_without_description_is_kept_twice
           {| name := "ping"; description := None; inputSchema := emptySchema |}
           "P1" "P2" H1 eq_refl eq_refl).
Defined.

End MergedFacts.

(* ================================================================== *)
(** ** Failed calls; letter case *)
(* ================================================================== *)

Module FailureFacts.
Import JS SDK Meta Calls MapFacts CallFacts MetricsFacts Scenarios.
Local Open Scope nat_scope.
Local Open Scope list_scope.

Section Failing.
Variable provider : string -> string -> option json -> Z -> (json + string) * Z.

(** X24.  An error raised by the provider is never cached: the call
    fails with the provider's message, is counted as one failed call,
    and leaves the cache without an entry for its key, so the next
    identical call goes to the provider again. *)
Theorem failed_call_is_not_cached s sid tool args now message rt m :
  serverConnected s sid = true ->
  mapGet (Cache.cache (cache s)) (cacheKey sid tool args) = None ->
  provider sid tool args now = (inr message, rt) ->
  metricsOf s sid tool = Some m ->
  exists s1 m1,
    executeToolCall provider s sid tool args now
    = (Err message, s1, (now + rt)%Z)
    /\ serverConnected s1 sid = true
    /\ mapGet (Cache.cache (cache s1)) (cacheKey sid tool args) = None
    /\ requests s1
       = requests s ++ [ {| reqServer := sid; reqTool := tool;
                            reqArgs := args |} ]
    /\ metricsOf s1 sid tool = Some m1
    /\ totalCalls m1 = S (totalCalls m)
    /\ failureCount m1 = S (failureCount m).
Proof.
  intros Hc Hmiss Hp Hm.
  unfold executeToolCall. rewrite Hc. cbn [negb].
  rewrite (get_absent _ _ now Hmiss). cbv iota beta. rewrite Hp.
  cbv iota beta. set (s2 := logRequest _ _).
  assert (Hm2 : metricsOf s2 sid tool = Some m) by exact Hm.
  pose proof (metricsOf_update s2 sid tool false rt (now + rt)%Z m Hm2) as H1.
  eexists. eexists. split; [reflexivity|].
  split; [rewrite updateMetrics_connected; exact Hc|].
  split; [rewrite updateMetrics_cache; exact Hmiss|].
  split; [rewrite RoutingFacts.updateMetrics_requests; reflexivity|].
  split; [exact H1|]. split; reflexivity.
Qed.

End Failing.

Lemma failed_call_is_not_cached_witness :
  serverConnected serverP "P" = true
  /\ mapGet (Cache.cache (cache serverP)) (cacheKey "P" "read" None) = None
  /\ failing "P" "read" None 10 = (inr "connection closed", 5%Z)
  /\ metricsOf serverP "P" "read" = Some (freshMetrics 0)
  /\ exists s1 m1,
       executeToolCall failing serverP "P" "read" None 10
       = (Err "connection closed", s1, (10 + 5)%Z)
       /\ serverConnected s1 "P" = true
       /\ mapGet (Cache.cache (cache s1)) (cacheKey "P" "read" None) = None
       /\ requests s1
          = requests serverP ++ [ {| reqServer := "P"; reqTool := "read";
                                     reqArgs := None |} ]
       /\ metricsOf s1 "P" "read" = Some m1
       /\ totalCalls m1 = S (totalCalls (freshMetrics 0))
       /\ failureCount m1 = S (failureCount (freshMetrics 0)).
Proof.
  assert (H1 : serverConnected serverP "P" = true) by reflexivity.
  assert (H2 : mapGet (Cache.cache (cache serverP)) (cacheKey "P" "read" None)
               = None) by reflexivity.
  assert (H3 : failing "P" "read" None 10 = (inr "connection closed", 5%Z))
    by reflexivity.
  assert (H4 : metricsOf serverP "P" "read" = Some (freshMetrics 0))
    by reflexivity.
  split; [exact H1|]. split; [exact H2|]. split; [exact H3|].
  split; [exact H4|].
  exact (failed_call_is_not_cached failing serverP "P" "read" None 10
           "connection closed" 5 (freshMetrics 0) H1 H2 H3 H4).
Defined.

End FailureFacts.

Module CaseFacts.
Import JS SDK Dedup Matching CacheRunFacts RangeFacts.
Local Open Scope nat_scope.
Local Open Scope list_scope.

Lemma pick_head (p : nat -> bool) j rest :
  p j = true -> pick p (j :: rest) = Some (j, rest).
Proof. intros H. simpl. rewrite H. reflexivity. Qed.

(** Paired with itself, a sequence of at least two characters matches
    every position with the same position. *)
Lemma greedy_identity (compat : nat -> nat -> bool) m :
  forall k,
    (forall i, k <= i < k + m -> compat i i = true) ->
    greedy compat (seq k m) (seq k m) = map (fun i => (i, i)) (seq k m).
Proof.
  induction m as [|m IH]; intros k Hc; [reflexivity|].
  cbn [seq greedy]. rewrite pick_head by (apply Hc; lia).
  cbn [map]. f_equal. apply IH. intros i Hi. apply Hc. lia.
Qed.

Lemma pairing_self a :
  2 <= length a ->
  pairing a a = map (fun i => (i, i)) (seq 0 (length a)).
Proof.
  intros Hlen. unfold pairing. apply greedy_identity.
  intros i _. unfold compatible, near.
  rewrite Z.sub_diag. simpl Z.abs. rewrite Ascii.eqb_refl, andb_true_r.
  apply Z.leb_le. unfold matchWindow. rewrite Nat.max_id.
  assert (1 <= Z.of_nat (length a) / 2)%Z.
  { apply Z.div_le_lower_bound; lia. }
  lia.
Qed.

Lemma mem_seq k n : mem k (seq 0 n) = (k <? n).
Proof.
  unfold mem. destruct (Nat.ltb_spec k n) as [Hlt|Hge].
  - apply existsb_exists. exists k. split; [apply in_seq; lia|apply Nat.eqb_refl].
  - apply not_true_is_false. intros H. apply existsb_exists in H.
    destruct H as (x & Hx & Heq). apply Nat.eqb_eq in Heq. subst x.
    apply in_seq in Hx. lia.
Qed.

Lemma filter_all {A} (f : A -> bool) l :
  (forall x, In x l -> f x = true) -> filter f l = l.
Proof.
  induction l as [|x r IH]; intros H; simpl; [reflexivity|].
  rewrite (H x (or_introl eq_refl)). f_equal. apply IH.
  intros y Hy. apply H. right. exact Hy.
Qed.

Lemma marked_all flags n :
  length flags = n ->
  (forall k, nth k flags false = (k <? n)) ->
  marked flags = seq 0 n.
Proof.
  intros Hlen Hnth. unfold marked. rewrite Hlen. apply filter_all.
  intros k Hk. apply in_seq in Hk. rewrite Hnth. apply Nat.ltb_lt. lia.
Qed.

Lemma mismatches_same l : mismatches l l = 0.
Proof.
  unfold mismatches. induction l as [|c r IH]; [reflexivity|].
  simpl. rewrite Ascii.eqb_refl. exact IH.
Qed.

Lemma length_list_ascii s :
  length (list_ascii_of_string s) = String.length s.
Proof. induction s as [|c r IH]; simpl; [reflexivity|]. rewrite IH. reflexivity. Qed.

Lemma jaroSimilarity_self s :
  2 <= String.length s -> (jaroSimilarity s s == 1)%Q.
Proof.
  intros Hlen. unfold jaroSimilarity, jaroRun.
  set (a := list_ascii_of_string s).
  assert (Ha : 2 <= length a) by (subst a; rewrite length_list_ascii; exact Hlen).
  destruct (length a =? 0) eqn:E0; [apply Nat.eqb_eq in E0; lia|].
  cbn [andb orb].
  destruct (JaroFacts.findMatches_spec a a) as (L1 & L2 & N1 & N2 & Hm).
  cbv zeta in L1, L2, N1, N2, Hm.
  rewrite (pairing_self a Ha) in N1, N2, Hm.
  rewrite length_map, length_seq in Hm.
  rewrite map_map in N1, N2. cbn [fst snd] in N1, N2.
  rewrite map_id in N1, N2.
  assert (M1 : marked (s1Matches (findMatches a a)) = seq 0 (length a)).
  { apply marked_all; [exact L1|]. intros k. rewrite N1. apply mem_seq. }
  assert (M2 : marked (s2Matches (findMatches a a)) = seq 0 (length a)).
  { apply marked_all; [exact L2|]. intros k. rewrite N2. apply mem_seq. }
  rewrite Hm. rewrite E0.
  rewrite JaroFacts.countTranspositions_spec by (rewrite ?M1, ?M2; lia).
  rewrite M1, M2, mismatches_same. cbn [option_map].
  unfold jaroFormula.
  assert (Hn : ~ (ofNat (length a) == 0)%Q).
  { intros E. pose proof (ofNat_pos (length a) ltac:(lia)) as Hp.
    rewrite E in Hp. apply (Qlt_irrefl 0). exact Hp. }
  change (ofNat 0) with 0%Q. field. exact Hn.
Qed.

Lemma length_toLowerCase s : String.length (toLowerCase s) = String.length s.
Proof. induction s as [|c r IH]; simpl; [reflexivity|]. rewrite IH. reflexivity. Qed.

Lemma truthyStr_length s : truthyStr s = (0 <? String.length s).
Proof. destruct s; reflexivity. Qed.

(** X25.  Two different ASCII strings that are equal up to letter
    case have similarity 1, unless they are single characters: there
    the match window is empty and the similarity is 0.1. *)
Theorem calculateStringSimilarity_ignores_case s1 s2 :
  Domain.asciiOnly s1 = true -> Domain.asciiOnly s2 = true ->
  toLowerCase s1 = toLowerCase s2 -> s1 <> s2 ->
  (calculateStringSimilarity s1 s2
   == if String.length s1 =? 1 then 1 # 10 else 1)%Q.
Proof.
  intros _ _ Hlow Hne.
  assert (Hlen : String.length s2 = String.length s1).
  { rewrite <- (length_toLowerCase s1), <- (length_toLowerCase s2), Hlow.
    reflexivity. }
  assert (Heqb : String.eqb s1 s2 = false) by (apply String.eqb_neq; exact Hne).
  assert (Hpos : 0 < String.length s1).
  { destruct s1 as [|c r]; [|simpl; lia].
    destruct s2 as [|c' r']; [congruence|discriminate]. }
  destruct (Nat.eqb_spec (String.length s1) 1) as [H1|Hn1].
  - unfold calculateStringSimilarity.
    rewrite !truthyStr_length, Hlen, H1. cbn [Nat.ltb Nat.leb negb orb].
    rewrite Heqb, <- Hlow.
    pose proof (length_toLowerCase s1) as Hl. rewrite H1 in Hl.
    destruct (toLowerCase s1) as [|c [|c' r]]; try discriminate.
    unfold jaroSimilarity, jaroRun. cbn [list_ascii_of_string length Nat.eqb
                                          andb orb].
    unfold findMatches, matchLoop. cbn [length seq fold_left repeat].
    unfold matchStep, findMatch, matchWindow.
    cbn [s2Matches length Nat.max].
    change (Z.to_nat (Z.max 0 (Z.of_nat 0 - (Z.of_nat 1 / 2 - 1)))) with 1.
    change (Z.to_nat (Z.min (Z.of_nat 0 + (Z.of_nat 1 / 2 - 1) + 1) (Z.of_nat 1)))
      with 0.
    cbn [Nat.sub seq find matches Nat.eqb].
    cbn [commonPrefixLength]. rewrite Ascii.eqb_refl.
    reflexivity.
  - assert (H2 : 2 <= String.length s1) by lia.
    unfold calculateStringSimilarity.
    rewrite !truthyStr_length, Hlen.
    replace (0 <? String.length s1) with true
      by (symmetry; apply Nat.ltb_lt; lia).
    cbn [negb orb]. rewrite Heqb, <- Hlow.
    pose proof (jaroSimilarity_self (toLowerCase s1)) as Hj.
    rewrite length_toLowerCase in Hj. specialize (Hj H2).
    set (j := jaroSimilarity _ _) in *.
    set (p := ofNat _).
    assert (Hw : (j + (1 # 10) * p * (1 - j) == 1)%Q) by (rewrite Hj; ring).
    rewrite Hw. reflexivity.
Qed.

Lemma calculateStringSimilarity_ignores_case_witness :
  (Domain.asciiOnly "A" = true /\ Domain.asciiOnly "a" = true
   /\ toLowerCase "A" = toLowerCase "a" /\ "A" <> "a"
   /\ (calculateStringSimilarity "A" "a"
       == if String.length "A" =? 1 then 1 # 10 else 1)%Q)
  /\ (Domain.asciiOnly "Read" = true /\ Domain.asciiOnly "read" = true
      /\ toLowerCase "Read" = toLowerCase "read" /\ "Read" <> "read"
      /\ (calculateStringSimilarity "Read" "read"
          == if String.length "Read" =? 1 then 1 # 10 else 1)%Q).
Proof.
  assert (A1 : Domain.asciiOnly "A" = true) by reflexivity.
  assert (A2 : Domain.asciiOnly "a" = true) by reflexivity.
  assert (A3 : toLowerCase "A" = toLowerCase "a") by reflexivity.
  assert (A4 : "A" <> "a") by discriminate.
  assert (R1 : Domain.asciiOnly "Read" = true) by reflexivity.
  assert (R2 : Domain.asciiOnly "read" = true) by reflexivity.
  assert (R3 : toLowerCase "Read" = toLowerCase "read") by reflexivity.
  assert (R4 : "Read" <> "read") by discriminate.
  split.
  - split; [exact A1|]. split; [exact A2|]. split; [exact A3|].
    split; [exact A4|].
    exact (calculateStringSimilarity_ignores_case "A" "a" A1 A2 A3 A4).
  - split; [exact R1|]. split; [exact R2|]. split; [exact R3|].
    split; [exact R4|].
    exact (calculateStringSimilarity_ignores_case "Read" "read" R1 R2 R3 R4).
Defined.

End CaseFacts.

(* ================================================================== *)
(** ** The name of a merged tool *)
(* ================================================================== *)

Module NameFacts.
Import JS SDK Dedup MapFacts CacheRunFacts Scenarios.
Local Open Scope nat_scope.
Local Open Scope list_scope.

Lemma count_occ_snoc (l : list string) n x :
  count_occ string_dec (l ++ [n]) x
  = count_occ string_dec l x + (if string_dec n x then 1 else 0).
Proof.
  rewrite count_occ_app. simpl. destruct (string_dec n x); reflexivity.
Qed.

(** The table [nameCount] after the names [l]: one entry for each
    name seen, holding the number of times it was seen. *)
Lemma nameCount_spec l :
  forall p (m : Map nat),
    NoDup (map fst m) ->
    (forall n, mapGet m n
               = if count_occ string_dec p n =? 0 then None
                 else Some (count_occ string_dec p n)) ->
    let m' := fold_left
                (fun (m : Map nat) n =>
                   mapSet m n
                     (match mapGet m n with Some c => c | None => 0 end + 1))
                l m in
    NoDup (map fst m')
    /\ forall n, mapGet m' n
                 = if count_occ string_dec (p ++ l) n =? 0 then None
                   else Some (count_occ string_dec (p ++ l) n).
Proof.
  induction l as [|x r IH]; intros p m Hnd Hget.
  - simpl. rewrite app_nil_r. auto.
  - cbn [fold_left].
    replace (p ++ x :: r) with ((p ++ [x]) ++ r)
      by (rewrite <- app_assoc; reflexivity).
    apply IH.
    + apply NoDup_mapSet. exact Hnd.
    + intros n. rewrite count_occ_snoc.
      destruct (string_dec x n) as [->|Hne].
      * rewrite mapGet_mapSet_same, Hget.
        destruct (count_occ string_dec p n) as [|c]; simpl.
        -- reflexivity.
        -- replace (c + 1 =? 0) with false
             by (symmetry; apply Nat.eqb_neq; lia).
           reflexivity.
      * rewrite mapGet_mapSet_other by exact Hne.
        rewrite Hget, Nat.add_0_r. reflexivity.
Qed.

Lemma ofNat_le_inv a b : (ofNat a <= ofNat b)%Q -> a <= b.
Proof. unfold ofNat. rewrite <- Zle_Qle. lia. Qed.

(** The merged name is the first of the names that occur most often. *)
Lemma generateMergedName_spec tools :
  tools <> [] ->
  let names := map (fun t => name (tool t)) tools in
  In (generateMergedName tools) names
  /\ forall n, count_occ string_dec names n
               <= count_occ string_dec names (generateMergedName tools).
Proof.
  intros Hne names. unfold generateMergedName. fold names.
  set (step := fun (m : Map nat) n =>
                 mapSet m n
                   (match mapGet m n with Some c => c | None => 0 end + 1)).
  destruct (nameCount_spec names [] []) as [Hnd Hget];
    [constructor|intros n; reflexivity|].
  cbv zeta in Hnd, Hget. fold step in Hnd, Hget. simpl app in Hget.
  set (m := fold_left step names []) in *.
  set (cmp := fun a b : string * nat => (ofNat (snd b) - ofNat (snd a))%Q).
  pose proof (RoutingFacts.sortWith_perm cmp m) as Hperm.
  pose proof (RoutingFacts.sortWith_descending (fun a : string * nat => ofNat (snd a)) m)
    as Hsorted.
  change (StronglySorted
            (fun a b : string * nat => (ofNat (snd b) <= ofNat (snd a))%Q)
            (sortWith cmp m)) in Hsorted.
  assert (Hentry : forall k c, In (k, c) m ->
                               c = count_occ string_dec names k /\ 0 < c).
  { intros k c Hin. apply (In_mapGet _ _ _ Hnd) in Hin.
    rewrite Hget in Hin.
    destruct (count_occ string_dec names k =? 0) eqn:E; [discriminate|].
    apply Nat.eqb_neq in E. inversion Hin. lia. }
  destruct (sortWith cmp m) as [|[k c] rest] eqn:Es.
  - exfalso. apply Permutation_nil in Hperm.
    destruct tools as [|t ts]; [congruence|].
    specialize (Hget (name (tool t))). rewrite Hperm in Hget.
    subst names. simpl in Hget.
    destruct (string_dec (name (tool t)) (name (tool t))); [|congruence].
    simpl in Hget. discriminate.
  - assert (Hk : In (k, c) m)
      by (apply (Permutation_in _ Hperm); left; reflexivity).
    destruct (Hentry k c Hk) as [Hc Hpos]. split.
    + apply (count_occ_In string_dec). lia.
    + intros n. destruct (count_occ string_dec names n) as [|cn] eqn:En; [lia|].
      assert (Hn : In (n, S cn) m).
      { apply mapGet_In. rewrite Hget, En. reflexivity. }
      apply (Permutation_in _ (Permutation_sym Hperm)) in Hn.
      destruct Hn as [E|Hn].
      * inversion E; subst. lia.
      * inversion Hsorted as [|? ? _ Hall]; subst.
        rewrite Forall_forall in Hall. specialize (Hall _ Hn). simpl in Hall.
        apply ofNat_le_inv in Hall. lia.
Qed.

(** X26.  [generateMergedName] returns a name borne by one of the
    tools, and no name is borne by more of the tools than it. *)
Theorem generateMergedName_most_frequent tools :
  tools <> [] ->
  let names := map (fun t => name (tool t)) tools in
  In (generateMergedName tools) names
  /\ forall n, count_occ string_dec names n
               <= count_occ string_dec names (generateMergedName tools).
Proof. exact (generateMergedName_spec tools). Qed.

Lemma generateMergedName_most_frequent_witness :
  threeTools <> []
  /\ In (generateMergedName threeTools)
        (map (fun t => name (tool t)) threeTools)
  /\ forall n,
       count_occ string_dec (map (fun t => name (tool t)) threeTools) n
       <= count_occ string_dec (map (fun t => name (tool t)) threeTools)
            (generateMergedName threeTools).
Proof.
  assert (H : threeTools <> []) by discriminate.
  split; [exact H|].
  exact (generateMergedName_most_frequent threeTools H).
Defined.

End NameFacts.

(* ================================================================== *)
(** ** Idempotence where only copies merge *)
(* ================================================================== *)

Module CopiesFacts.
Import JS SDK Dedup Claims Groups Copies Scenarios.
Local Open Scope nat_scope.
Local Open Scope list_scope.

(** *** Ordered pairs of a list *)







(** *** A group of copies *)







Section Copies.
Variable config : DeduplicationConfig.



(** *** The grouping loop *)



(** *** The name groups of the two-stage path *)





(** *** Both paths *)





End Copies.


End CopiesFacts.

(* ================================================================== *)
(** ** From the tool list to the provider *)
(* ================================================================== *)

Module RoutableFacts.
Import JS SDK Meta Handler Groups MapFacts IdentifierFacts RegistryFacts.
Import Scenarios.
Local Open Scope nat_scope.
Local Open Scope list_scope.

Lemma metaTool_without_colon n : isMetaTool n = true -> includes n ":" = false.
Proof.
  unfold isMetaTool, metaToolNames. cbn [existsb]. intros H.
  repeat (apply orb_prop in H; destruct H as [H|H];
          [apply String.eqb_eq in H; subst n; reflexivity|]).
  discriminate.
Qed.

(** The name of a merged tool is the name of one of its members. *)
Lemma groupToMerged_named t members sims :
  Forall (fun m => In (name (Dedup.asTool m))
                      (map (fun o => name (Dedup.tool o))
                           (Dedup.originalTools m)))
         (Dedup.groupToMerged t (t :: members) sims).
Proof.
  unfold Dedup.groupToMerged.
  destruct (1 <? length (t :: members)).
  - destruct (PartitionFacts.selectBestTool_some t members) as [b ->].
    constructor; [|constructor]. cbn [Dedup.asTool Dedup.originalTools name].
    apply (NameFacts.generateMergedName_spec (t :: members)). discriminate.
  - constructor; [|constructor]. left. reflexivity.
Qed.

Lemma serverConnected_of_tool s o :
  NoDup (map fst (servers s)) ->
  In o (connectedServerTools s) ->
  serverConnected (refreshToolsList s) (Dedup.serverId o) = true.
Proof.
  intros Hnd Ho. apply connectedServerTools_spec in Ho.
  destruct Ho as (info & Hin & Hst & _).
  unfold serverConnected. cbn [refreshToolsList servers].
  rewrite (In_mapGet _ _ _ Hnd Hin), Hst. reflexivity.
Qed.

Section Routable.
Variable provider : string -> string -> option json -> Z -> (json + string) * Z.

(** X15.  Every tool that [tools/list] exposes after
    [refreshToolsList] can be called, provided that no server id has a
    colon and no tool of a connected server bears the name of a
    meta-tool: the name is not taken by a meta-tool, so the call
    reaches [delegateToolCall]; there a merged tool is found in the
    table and handed to [handleMergedToolCall], with members that are
    all tools of connected servers, and a namespaced tool is split
    into its server and its own name and handed to [executeToolCall]
    on that server, which is connected and offers it. *)
Theorem listed_tools_are_routable s t args now :
  NoDup (map fst (servers s)) ->
  Forall (fun p => includes (fst p) ":" = false) (servers s) ->
  Forall (fun o => isMetaTool (name (Dedup.tool o)) = false)
         (connectedServerTools s) ->
  In t (toolsToExpose (refreshToolsList s)) ->
  let s' := refreshToolsList s in
  isMetaTool (name t) = false
  /\ ((exists m,
          mapGet (mergedTools s') (name t) = Some m
          /\ Dedup.asTool m = t
          /\ Dedup.originalTools m <> []
          /\ Forall (fun o => In o (connectedServerTools s)
                              /\ serverConnected s' (Dedup.serverId o) = true)
                    (Dedup.originalTools m)
          /\ delegateToolCall provider s' (name t) args now
             = handleMergedToolCall provider s' (name t) args now)
      \/ (exists o,
             In o (connectedServerTools s)
             /\ name t = (Dedup.serverId o ++ ":" ++ name (Dedup.tool o))%string
             /\ serverConnected s' (Dedup.serverId o) = true
             /\ delegateToolCall provider s' (name t) args now
                = executeToolCall provider s' (Dedup.serverId o)
                    (name (Dedup.tool o)) args now)).
Proof.
  intros Hnd Hids Hnames Hin s'.
  unfold toolsToExpose in Hin. fold s' in Hin.
  destruct (Dedup.enabled (deduplication s')
            && (0 <? mapSize (mergedTools s'))) eqn:E.
  - apply andb_true_iff in E. destruct E as [Hen _].
    apply in_map_iff in Hin. destruct Hin as [[k m] [<- Hin]].
    assert (Hen' : Dedup.enabled (deduplication s) = true) by exact Hen.
    set (tools := connectedServerTools s) in *.
    set (merged := Dedup.mergeTools (deduplication s) tools).
    assert (Htable : mergedTools s'
                     = fold_left
                         (fun (m : Map Dedup.MergedTool) mergedTool =>
                            mapSet m (name (Dedup.asTool mergedTool)) mergedTool)
                         merged []).
    { unfold s', refreshToolsList. cbn [mergedTools]. rewrite Hen'.
      reflexivity. }
    assert (Hentry : k = name (Dedup.asTool m) /\ In m merged).
    { assert (Hall : Forall (fun p => fst p = name (Dedup.asTool (snd p))
                                      /\ In (snd p) merged)
                       (mergedTools s')).
      { rewrite Htable.
        apply (entries_fold_mapSet_in
                 (fun m => name (Dedup.asTool m)) (fun m => m));
          [|constructor].
        intros x Hx. split; [reflexivity|exact Hx]. }
      rewrite Forall_forall in Hall. exact (Hall _ Hin). }
    destruct Hentry as [-> Hm].
    assert (Hget : mapGet (mergedTools s') (name (Dedup.asTool m)) = Some m).
    { apply In_mapGet; [|exact Hin]. rewrite Htable.
      apply (NoDup_fold_mapSet (fun m => name (Dedup.asTool m)) (fun m => m)).
      constructor. }
    assert (Hmem : forall o, In o (Dedup.originalTools m) -> In o tools).
    { intros o Ho.
      apply (Permutation_in _
               (PartitionFacts.mergeTools_members (deduplication s) tools Hen')).
      unfold members. apply in_flat_map. exists m. auto. }
    assert (Hname : In (name (Dedup.asTool m))
                       (map (fun o => name (Dedup.tool o))
                            (Dedup.originalTools m))).
    { pose proof (MergedFacts.mergeTools_every (deduplication s) _
                    groupToMerged_named tools) as Hall.
      rewrite Forall_forall in Hall. exact (Hall m Hm). }
    cbn [fst snd]. split.
    + apply in_map_iff in Hname. destruct Hname as (o & <- & Ho).
      rewrite Forall_forall in Hnames. apply Hnames. apply Hmem. exact Ho.
    + left. exists m. split; [exact Hget|]. split; [reflexivity|].
      split.
      * intros Hnil. rewrite Hnil in Hname. contradiction.
      * split.
        -- apply Forall_forall. intros o Ho. split; [apply Hmem; exact Ho|].
           apply serverConnected_of_tool; [exact Hnd|apply Hmem; exact Ho].
        -- unfold delegateToolCall. rewrite Hen. unfold mapHas.
           rewrite Hget. reflexivity.
  - apply in_map_iff in Hin. destruct Hin as [[k [t' sid]] [<- Hin]].
    assert (Hentry : exists o,
               In o (connectedServerTools s)
               /\ name t' = (Dedup.serverId o ++ ":"
                             ++ name (Dedup.tool o))%string).
    { assert (Hall :
                Forall (fun p => exists o,
                            In o (connectedServerTools s)
                            /\ name (fst (snd p))
                               = (Dedup.serverId o ++ ":"
                                  ++ name (Dedup.tool o))%string)
                  (allTools s')).
      { unfold s', refreshToolsList. cbn [allTools].
        apply (entries_fold_mapSet_in
                 (fun o => (Dedup.serverId o ++ ":"
                            ++ name (Dedup.tool o))%string)
                 (fun o =>
                    ({| name :=
                          (Dedup.serverId o ++ ":"
                           ++ name (Dedup.tool o))%string;
                        description := description (Dedup.tool o);
                        inputSchema := inputSchema (Dedup.tool o) |},
                     Dedup.serverId o)));
          [|constructor].
        intros o Ho. exists o. split; [exact Ho|reflexivity]. }
      rewrite Forall_forall in Hall. exact (Hall _ Hin). }
    destruct Hentry as (o & Ho & Hn). cbn [fst snd].
    assert (Hcolon : includes (name t') ":" = true)
      by (rewrite Hn; apply includes_app_colon).
    assert (Hsid : includes (Dedup.serverId o) ":" = false).
    { apply connectedServerTools_spec in Ho.
      destruct Ho as (info & Hinfo & _).
      rewrite Forall_forall in Hids. exact (Hids _ Hinfo). }
    split.
    + destruct (isMetaTool (name t')) eqn:Hmeta; [|reflexivity].
      apply metaTool_without_colon in Hmeta. congruence.
    + right. exists o. split; [exact Ho|]. split; [exact Hn|].
      split; [apply serverConnected_of_tool; assumption|].
      unfold delegateToolCall.
      assert (Hno : Dedup.enabled (deduplication s')
                    && mapHas (mergedTools s') (name t') = false).
      { destruct (Dedup.enabled (deduplication s')); [|reflexivity].
        cbn [andb] in E |- *. apply Nat.ltb_ge in E.
        unfold mapSize in E. destruct (mergedTools s'); [reflexivity|].
        simpl in E. lia. }
      rewrite Hno, Hn, (parse_splits_at_first_colon _ _ Hsid). reflexivity.
Qed.

End Routable.

Lemma listed_tools_are_routable_witness :
  NoDup (map fst (servers fiveServers))
  /\ Forall (fun p => includes (fst p) ":" = false) (servers fiveServers)
  /\ Forall (fun o => isMetaTool (name (Dedup.tool o)) = false)
       (connectedServerTools fiveServers)
  /\ In readTool (toolsToExpose (refreshToolsList fiveServers))
  /\ isMetaTool (name readTool) = false
  /\ ((exists m,
          mapGet (mergedTools (refreshToolsList fiveServers)) (name readTool)
          = Some m
          /\ Dedup.asTool m = readTool
          /\ Dedup.originalTools m <> []
          /\ Forall (fun o =>
                       In o (connectedServerTools fiveServers)
                       /\ serverConnected (refreshToolsList fiveServers)
                            (Dedup.serverId o) = true)
                    (Dedup.originalTools m)
          /\ delegateToolCall answering (refreshToolsList fiveServers)
               (name readTool) None 0
             = handleMergedToolCall answering (refreshToolsList fiveServers)
                 (name readTool) None 0)
      \/ (exists o,
             In o (connectedServerTools fiveServers)
             /\ name readTool
                = (Dedup.serverId o ++ ":" ++ name (Dedup.tool o))%string
             /\ serverConnected (refreshToolsList fiveServers)
                  (Dedup.serverId o) = true
             /\ delegateToolCall answering (refreshToolsList fiveServers)
                  (name readTool) None 0
                = executeToolCall answering (refreshToolsList fiveServers)
                    (Dedup.serverId o) (name (Dedup.tool o)) None 0)).
Proof.
  assert (H1 : NoDup (map fst (servers fiveServers))).
  { vm_compute. repeat constructor; simpl; intuition discriminate. }
  assert (H2 : Forall (fun p => includes (fst p) ":" = false)
                 (servers fiveServers)).
  { apply Forall_forall. intros p Hp. vm_compute in Hp.
    repeat (destruct Hp as [<-|Hp]; [reflexivity|]). contradiction. }
  assert (H3 : Forall (fun o => isMetaTool (name (Dedup.tool o)) = false)
                 (connectedServerTools fiveServers)).
  { apply Forall_forall. intros o Ho. vm_compute in Ho.
    repeat (destruct Ho as [<-|Ho]; [reflexivity|]). contradiction. }
  assert (H4 : In readTool (toolsToExpose (refreshToolsList fiveServers))).
  { vm_compute. left. reflexivity. }
  split; [exact H1|]. split; [exact H2|]. split; [exact H3|].
  split; [exact H4|].
  exact (listed_tools_are_routable answering fiveServers readTool None 0
           H1 H2 H3 H4).
Defined.

End RoutableFacts.
